(** * SideNav: the collapsible, pinnable side navigation of the NetBox UI

    A shallow embedding of [netbox/project-static/src/sidenav.ts].

    The widget is DOM glue: it reads the element tree through CSS selectors
    and mutates class lists, attributes, the collapse controllers of its
    sections and one persisted preference.  The embedding keeps that shape:

    - [DOM]      the element table of the page, with the part of the
                 selector language the widget uses;
    - [Runtime]  the page state the methods run against, and a small state
                 and exception monad for the methods themselves;
    - [SideNav]  the methods of the class, one definition per method;
    - [Demo]     concrete pages to run the methods on;
    - the vocabulary of the properties, the lemmas about the methods, and
      the properties themselves, C1 to C10;
    - further properties of the class, X1 to X24, with the events the
      widget listens to and the marks it writes.

    What is not in the source file is a parameter or a small model: the
    regular expressions of the runtime ([regExp]), the layout computed by
    the browser ([offsetParent]), the collapse controllers of Bootstrap
    ([shown]), and the helpers [StateManager] and [getElements]. *)

From Stdlib Require Import Ascii String Sorted.
From stdpp Require Import gmap strings list.

Open Scope string_scope.

(* ===================================================================== *)
(** * The document *)
(* ===================================================================== *)

Module DOM.

(** An element is identified by its position in document order. *)
Abbreviation elem := nat.

(** What the widget reads and writes of an element.  [href] is the resolved
    [HTMLAnchorElement.href] property, [offsetParent] the layout property of
    the same name ([None] when the element is not rendered). *)
Record Element := mkElement {
  localName : string;
  classList : list string;
  attributes : gmap string string;
  href : string;
  parentElement : option elem;
  offsetParent : option elem
}.

Definition withClassList (f : list string -> list string) (el : Element) : Element :=
  mkElement (localName el) (f (classList el)) (attributes el) (href el)
            (parentElement el) (offsetParent el).

Definition withAttributes (f : gmap string string -> gmap string string)
    (el : Element) : Element :=
  mkElement (localName el) (classList el) (f (attributes el)) (href el)
            (parentElement el) (offsetParent el).

(** The elements of a page, in document order. *)
Abbreviation Document := (list Element).

(** [DOMTokenList.add] and [DOMTokenList.remove]: a class list is an ordered
    set of tokens. *)
Definition tokenAdd (c : string) (l : list string) : list string :=
  if bool_decide (c ∈ l) then l else l ++ [c].

Definition tokenRemove (c : string) (l : list string) : list string :=
  List.filter (fun x => negb (bool_decide (x = c))) l.

(** [e.parentElement].  In document order a parent precedes its children;
    the root element, and an element that is not in the document, have no
    parent element. *)
Definition parentOf (doc : Document) (e : elem) : option elem :=
  match doc !! e with
  | Some el =>
      match parentElement el with
      | Some p => if bool_decide (p < e) then Some p else None
      | None => None
      end
  | None => None
  end.

Fixpoint ancestorsUpTo (steps : nat) (doc : Document) (e : elem) : list elem :=
  match steps with
  | 0 => []
  | S n =>
      match parentOf doc e with
      | Some p => p :: ancestorsUpTo n doc p
      | None => []
      end
  end.

(** The proper ancestors of [e], nearest first.  Every step up strictly
    decreases the position, so [e] steps always reach the root
    (lemma [ancestors_unfold]). *)
Definition ancestors (doc : Document) (e : elem) : list elem :=
  ancestorsUpTo e doc e.

(** ** Selectors

    The fragment of CSS selectors the widget uses: compound selectors made
    of a type, classes, attribute presence and [:scope], combined by the
    descendant and child combinators. *)
Inductive Simple :=
  | Tag (name : string)
  | Class (c : string)
  | HasAttr (a : string)
  | Scope.

Inductive Combinator := Descendant | Child.

(** A complex selector, read from the subject leftwards:
    [.a .b > c.d] is [{| subject := [Tag "c"; Class "d"];
                         leftwards := [(Child, [Class "b"]); (Descendant, [Class "a"])] |}]. *)
Record Selector := mkSelector {
  subject : list Simple;
  leftwards : list (Combinator * list Simple)
}.

Definition simpleMatches (doc : Document) (scope : option elem) (e : elem)
    (s : Simple) : bool :=
  match doc !! e with
  | None => false
  | Some el =>
      match s with
      | Tag name => bool_decide (localName el = name)
      | Class c => bool_decide (c ∈ classList el)
      | HasAttr a => bool_decide (is_Some (attributes el !! a))
      | Scope => bool_decide (scope = Some e)
      end
  end.

Definition compoundMatches (doc : Document) (scope : option elem) (e : elem)
    (c : list Simple) : bool :=
  forallb (simpleMatches doc scope e) c.

(** Matching the part of a selector left of the subject against the chain of
    ancestors (nearest first). *)
Fixpoint leftMatches (doc : Document) (scope : option elem)
    (rest : list (Combinator * list Simple)) (ancs : list elem) : bool :=
  match rest with
  | [] => true
  | (Child, c) :: rest' =>
      match ancs with
      | a :: ancs' => compoundMatches doc scope a c && leftMatches doc scope rest' ancs'
      | [] => false
      end
  | (Descendant, c) :: rest' =>
      (fix somewhere (ancs : list elem) : bool :=
         match ancs with
         | [] => false
         | a :: ancs' =>
             (compoundMatches doc scope a c && leftMatches doc scope rest' ancs')
             || somewhere ancs'
         end) ancs
  end.

Definition matches (doc : Document) (scope : option elem) (sel : Selector)
    (e : elem) : bool :=
  compoundMatches doc scope e (subject sel)
  && leftMatches doc scope (leftwards sel) (ancestors doc e).

(** [document.querySelectorAll(sel)]: every element that matches, in
    document order. *)
Definition documentQuerySelectorAll (doc : Document) (sel : Selector) : list elem :=
  List.filter (matches doc None sel) (seq 0 (length doc)).

(** [root.querySelectorAll(sel)]: the descendants of [root] that match, in
    document order.  The selector is matched against the whole document;
    only the result is restricted to the subtree. *)
Definition querySelectorAll (doc : Document) (root : elem) (sel : Selector)
    : list elem :=
  List.filter
    (fun e => bool_decide (root ∈ ancestors doc e) && matches doc (Some root) sel e)
    (seq 0 (length doc)).

(** [root.querySelector(sel)]: the first of them, or null. *)
Definition querySelector (doc : Document) (root : elem) (sel : Selector)
    : option elem :=
  head (querySelectorAll doc root sel).

(** [e.closest(sel)]: the nearest inclusive ancestor of [e] that matches. *)
Definition closest (doc : Document) (e : elem) (sel : Selector) : option elem :=
  List.find (matches doc (Some e) sel) (e :: ancestors doc e).

(** ** Reading and writing one element *)

Definition hasClass (doc : Document) (e : elem) (c : string) : bool :=
  match doc !! e with
  | Some el => bool_decide (c ∈ classList el)
  | None => false
  end.

Definition getAttribute (doc : Document) (e : elem) (a : string) : option string :=
  match doc !! e with
  | Some el => attributes el !! a
  | None => None
  end.

Definition hasAttribute (doc : Document) (e : elem) (a : string) : bool :=
  bool_decide (is_Some (getAttribute doc e a)).

End DOM.

(* ===================================================================== *)
(** * The page the widget runs in *)
(* ===================================================================== *)

Module Runtime.
Import DOM.

(** [type NavState = { pinned: boolean }] *)
Record NavState := mkNavState { pinned : bool }.

(** A [bootstrap.Collapse] controller, identified by the panel element it
    drives.  The library is an external collaborator: of a controller the
    widget uses [show()] and [hide()], and a panel is either shown or not. *)
Abbreviation Collapse := elem.

(** The mutations a method performs, in the order it performs them. *)
Inductive Effect :=
  | ClassAdd (e : elem) (c : string)
  | ClassRemove (e : elem) (c : string)
  | SetAttribute (e : elem) (a v : string)
  | RemoveAttribute (e : elem) (a : string)
  | CollapseShow (panel : elem)
  | CollapseHide (panel : elem)
  | StateSet (value : bool)
  | PreventDefault.

(** The page, and the fields of the one [SideNav] instance on it.

    - [regExp pattern] stands for the runtime's regular expressions:
      [new RegExp(pattern, 'gi')] is [None] when [pattern] is not a regular
      expression (the constructor throws a [SyntaxError]), and otherwise
      [Some re] with [re subject] telling whether [subject.match(re)] finds
      a match;
    - [shown] is the set of panels their collapse controller shows;
    - [state] is the content of the persisted store behind [this.state];
    - [sections] is the [Map] from section links to controllers, in
      insertion order;
    - [trace] records the mutations performed so far. *)
Record World := mkWorld {
  document : Document;
  body : elem;
  location_href : string;
  regExp : string -> option (string -> bool);
  shown : gset elem;
  state : NavState;
  base : elem;
  currentMobileState : option bool;
  activeLink : option elem;
  sections : list (elem * Collapse);
  trace : list Effect
}.

Definition setDocument (d : Document) (w : World) : World :=
  mkWorld d (body w) (location_href w) (regExp w) (shown w) (state w) (base w)
          (currentMobileState w) (activeLink w) (sections w) (trace w).

Definition setShown (s : gset elem) (w : World) : World :=
  mkWorld (document w) (body w) (location_href w) (regExp w) s (state w) (base w)
          (currentMobileState w) (activeLink w) (sections w) (trace w).

Definition setState (s : NavState) (w : World) : World :=
  mkWorld (document w) (body w) (location_href w) (regExp w) (shown w) s (base w)
          (currentMobileState w) (activeLink w) (sections w) (trace w).

Definition setCurrentMobileState (m : option bool) (w : World) : World :=
  mkWorld (document w) (body w) (location_href w) (regExp w) (shown w) (state w)
          (base w) m (activeLink w) (sections w) (trace w).

Definition setActiveLink (l : option elem) (w : World) : World :=
  mkWorld (document w) (body w) (location_href w) (regExp w) (shown w) (state w)
          (base w) (currentMobileState w) l (sections w) (trace w).

Definition setSections (s : list (elem * Collapse)) (w : World) : World :=
  mkWorld (document w) (body w) (location_href w) (regExp w) (shown w) (state w)
          (base w) (currentMobileState w) (activeLink w) s (trace w).

Definition record (ev : Effect) (w : World) : World :=
  mkWorld (document w) (body w) (location_href w) (regExp w) (shown w) (state w)
          (base w) (currentMobileState w) (activeLink w) (sections w)
          (trace w ++ [ev]).

(** ** Methods: state passing with exceptions

    A method call runs against the world and either returns or throws; what
    it has mutated before throwing stays mutated. *)
Inductive exn := TypeError | SyntaxError.

Inductive completion (A : Type) :=
  | Normal (a : A)
  | Throw (e : exn).
Arguments Normal {A} a.
Arguments Throw {A} e.

Definition M (A : Type) : Type := World -> completion A * World.

Definition ret {A} (a : A) : M A := fun w => (Normal a, w).

Definition bind {A B} (m : M A) (k : A -> M B) : M B :=
  fun w =>
    match m w with
    | (Normal a, w') => k a w'
    | (Throw e, w') => (Throw e, w')
    end.

Definition throw {A} (e : exn) : M A := fun w => (Throw e, w).

Definition gets {A} (f : World -> A) : M A := fun w => (Normal (f w), w).

Definition modify (f : World -> World) : M unit := fun w => (Normal tt, f w).

Declare Scope method_scope.
Delimit Scope method_scope with method.
Bind Scope method_scope with M.
Notation "x <- m ;; k" := (bind m (fun x => k))
  (at level 100, m at next level, right associativity) : method_scope.
Notation "m ;;; k" := (bind m (fun _ => k))
  (at level 100, right associativity) : method_scope.

(** [for (const x of xs) body(x)] over a list that is not modified by the
    body. *)
Fixpoint forOf {X} (xs : list X) (body : X -> M unit) : M unit :=
  match xs with
  | [] => ret tt
  | x :: rest => bind (body x) (fun _ => forOf rest body)
  end.

(** The world a call leaves behind. *)
Definition after {A} (m : M A) (w : World) : World := snd (m w).

(** ** The DOM operations the widget performs *)

Definition classListAdd (e : elem) (c : string) : M unit :=
  modify (fun w =>
    record (ClassAdd e c)
      (setDocument (alter (withClassList (tokenAdd c)) e (document w)) w)).

Definition classListRemove (e : elem) (c : string) : M unit :=
  modify (fun w =>
    record (ClassRemove e c)
      (setDocument (alter (withClassList (tokenRemove c)) e (document w)) w)).

Definition setAttribute (e : elem) (a v : string) : M unit :=
  modify (fun w =>
    record (SetAttribute e a v)
      (setDocument (alter (withAttributes (insert a v)) e (document w)) w)).

Definition removeAttribute (e : elem) (a : string) : M unit :=
  modify (fun w =>
    record (RemoveAttribute e a)
      (setDocument (alter (withAttributes (delete a)) e (document w)) w)).

(** [collapse.show()] and [collapse.hide()]. *)
Definition collapseShow (c : Collapse) : M unit :=
  modify (fun w => record (CollapseShow c) (setShown ({[c]} ∪ shown w) w)).

Definition collapseHide (c : Collapse) : M unit :=
  modify (fun w => record (CollapseHide c) (setShown (shown w ∖ {[c]}) w)).

(** Modelled from the spec: the persisted state store ([StateManager] of
    [./state], which is not among the sources).  The spec describes it as a
    key-value [get]/[set] keyed by ["pinned"]: [set] replaces the stored
    value, [get] reads it back. *)
Definition stateGet : M bool := gets (fun w => pinned (state w)).

Definition stateSet (value : bool) : M unit :=
  modify (fun w => record (StateSet value) (setState (mkNavState value) w)).

(** Modelled from the spec: [getElements(selector)] of [./util] (not among
    the sources), the element-query helper that enumerates the elements of
    the document matching the selector. *)
Definition getElements (sel : Selector) : M (list elem) :=
  gets (fun w => documentQuerySelectorAll (document w) sel).

(** [Map.prototype.get] and [Map.prototype.set] on the section map. *)
Fixpoint mapGet (k : elem) (m : list (elem * Collapse)) : option Collapse :=
  match m with
  | [] => None
  | (k', v) :: rest => if bool_decide (k' = k) then Some v else mapGet k rest
  end.

Fixpoint mapSet (k : elem) (v : Collapse) (m : list (elem * Collapse))
    : list (elem * Collapse) :=
  match m with
  | [] => [(k, v)]
  | (k', v') :: rest =>
      if bool_decide (k' = k) then (k, v) :: rest else (k', v') :: mapSet k v rest
  end.

End Runtime.

(* ===================================================================== *)
(** * The class [SideNav] *)
(* ===================================================================== *)

Module SideNav.
Import DOM Runtime.
Local Open Scope method_scope.

(** [type BodyAttr = 'show' | 'hide' | 'hidden' | 'pinned'] *)
Module BodyAttr.
Inductive t := show | hide | hidden | pinned.
End BodyAttr.

Definition attrName (attr : BodyAttr.t) : string :=
  match attr with
  | BodyAttr.show => "data-sidenav-show"
  | BodyAttr.hide => "data-sidenav-hide"
  | BodyAttr.hidden => "data-sidenav-hidden"
  | BodyAttr.pinned => "data-sidenav-pinned"
  end.

(** The selectors of the source. *)

(** ['.sidenav-toggle-mobile'] *)
Definition mobileTogglerSelector : Selector :=
  mkSelector [Class "sidenav-toggle-mobile"] [].

(** ['.navbar-nav .nav-item .nav-link[data-bs-toggle]'] *)
Definition sectionLinkSelector : Selector :=
  mkSelector [Class "nav-link"; HasAttr "data-bs-toggle"]
             [(Descendant, [Class "nav-item"]); (Descendant, [Class "navbar-nav"])].

(** ['.navbar-nav .nav .nav-item a.nav-link'] *)
Definition navLinkSelector : Selector :=
  mkSelector [Tag "a"; Class "nav-link"]
             [(Descendant, [Class "nav-item"]); (Descendant, [Class "nav"]);
              (Descendant, [Class "navbar-nav"])].

(** ['.nav-item'] *)
Definition navItemSelector : Selector := mkSelector [Class "nav-item"] [].

(** [':scope > .nav-link'] *)
Definition groupLinkSelector : Selector :=
  mkSelector [Class "nav-link"] [(Child, [Scope])].

(** ['.collapse'] *)
Definition collapseSelector : Selector := mkSelector [Class "collapse"] [].

(** [bodyHas(attr)] *)
Definition bodyHas (attr : BodyAttr.t) : M bool :=
  gets (fun w => hasAttribute (document w) (body w) (attrName attr)).

(** [bodyRemove(...attrs)] *)
Definition bodyRemove (attrs : list BodyAttr.t) : M unit :=
  forOf attrs (fun attr =>
    b <- gets body;;
    removeAttribute b (attrName attr)).

(** [bodyAdd(...attrs)] *)
Definition bodyAdd (attrs : list BodyAttr.t) : M unit :=
  forOf attrs (fun attr =>
    b <- gets body;;
    setAttribute b (attrName attr) "").

Inductive Action := expand | collapse.

(** The loop at the head of [activateLink]:
<<
    while ((nextItem = navItem.parentElement.closest('.nav-item')) !== null) {
      navItem = nextItem;
    }
>>
    [navItem.parentElement] is dereferenced unguarded: on an element without
    a parent element the call throws a [TypeError].  Each turn moves
    [navItem] to a proper ancestor, so [steps] is never exhausted when it
    starts at the position of the link (lemma [outermostNavItem_unfold]). *)
Fixpoint navItemLoop (steps : nat) (doc : Document) (navItem : elem)
    : completion elem :=
  match parentOf doc navItem with
  | None => Throw TypeError
  | Some parent =>
      match closest doc parent navItemSelector with
      | None => Normal navItem
      | Some nextItem =>
          match steps with
          | S n => navItemLoop n doc nextItem
          | 0 => Normal nextItem
          end
      end
  end.

Definition outermostNavItem (doc : Document) (link : elem) : completion elem :=
  navItemLoop link doc link.

(** [navItem.querySelector(':scope > .nav-link')] *)
Definition groupLinkOf (doc : Document) (navItem : elem) : option elem :=
  querySelector doc navItem groupLinkSelector.

(** [activateLink(link, action)] *)
Definition activateLink (link : elem) (action : Action) : M unit :=
  doc <- gets document;;
  match outermostNavItem doc link with
  | Throw e => throw e
  | Normal navItem =>
      match groupLinkOf doc navItem with
      | None => ret tt
      | Some groupLink =>
          secs <- gets sections;;
          match mapGet groupLink secs with
          | None => ret tt
          | Some collapse_ =>
              classListAdd groupLink "active";;;
              match action with
              | expand =>
                  setAttribute groupLink "aria-expanded" "true";;;
                  collapseShow collapse_;;;
                  classListAdd link "active";;;
                  classListRemove groupLink "collapsed"
              | collapse =>
                  setAttribute groupLink "aria-expanded" "false";;;
                  collapseHide collapse_;;;
                  classListRemove link "active";;;
                  classListAdd groupLink "collapsed"
              end
          end
      end
  end.

(** [link.href] *)
Definition hrefOf (w : World) (link : elem) : string :=
  match document w !! link with
  | Some el => href el
  | None => ""
  end.

(** The test of the generator [getActiveLinks]:
<<
    const href = new RegExp(link.href, 'gi');
    if (window.location.href.match(href)) ...
>>
    The constructor throws when [link.href] is not a regular expression. *)
Definition matchesLocation (link : elem) : M bool :=
  fun w =>
    match regExp w (hrefOf w link) with
    | None => (Throw SyntaxError, w)
    | Some re => (Normal (re (location_href w)), w)
    end.

(** The body of the generator [getActiveLinks], resumed over the node list
    [links]: [yield] stands for the body of the [for ... of] loop that
    consumes the generator, which runs at each [yield] before the scan
    goes on. *)
Fixpoint scanLinks {A} (links : list elem) (yield : elem -> A -> M A) (acc : A)
    : M A :=
  match links with
  | [] => ret acc
  | link :: rest =>
      found <- matchesLocation link;;
      acc' <- (if found : bool then yield link acc else ret acc);;
      scanLinks rest yield acc'
  end.

(** [*getActiveLinks()] *)
Definition getActiveLinks {A} (yield : elem -> A -> M A) (acc : A) : M A :=
  links <- gets (fun w => querySelectorAll (document w) (base w) navLinkSelector);;
  scanLinks links yield acc.

(** The sequence a call of [getActiveLinks()] yields when nothing happens
    between the yields ([Array.from(this.getActiveLinks())]). *)
Definition activeLinks : M (list elem) :=
  getActiveLinks (fun link (acc : list elem) => ret (acc ++ [link])%list) [].

(** [show()] *)
Definition show : M unit :=
  bodyAdd [BodyAttr.show];;;
  bodyRemove [BodyAttr.hidden; BodyAttr.hide];;;
  getActiveLinks (fun link _ => activateLink link expand) tt.

(** [hide()] *)
Definition hide : M unit :=
  bodyAdd [BodyAttr.hide];;;
  bodyRemove [BodyAttr.pinned; BodyAttr.show];;;
  secs <- gets sections;;
  forOf secs (fun '(link, collapse_) =>
    classListAdd link "collapsed";;;
    setAttribute link "aria-expanded" "false";;;
    collapseHide collapse_);;;
  bodyRemove [BodyAttr.hide];;;
  bodyAdd [BodyAttr.hidden].

(** [pin()] *)
Definition pin : M unit :=
  stateSet true;;;
  bodyAdd [BodyAttr.pinned];;;
  show.

(** [unpin()] *)
Definition unpin : M unit :=
  stateSet false;;;
  hide.

(** [closeInactiveSections()] *)
Definition closeInactiveSections : M unit :=
  secs <- gets sections;;
  forOf secs (fun '(link, collapse_) =>
    active <- gets activeLink;;
    if bool_decide (Some link ≠ active) then
      classListAdd link "collapsed";;;
      setAttribute link "aria-expanded" "false";;;
      collapseHide collapse_
    else ret tt).

(** [handleSectionClick(event)], with [target] the [event.target]. *)
Definition handleSectionClick (target : elem) : M unit :=
  modify (record PreventDefault);;;
  modify (setActiveLink (Some target));;;
  closeInactiveSections.

(** [initSectionLinks()].  A controller is built for the panel found next
    to the link ([new Collapse(collapse, { toggle: false })], which leaves
    the panel as it is) and registered under the link; the click listener
    it attaches is [handleSectionClick]. *)
Definition initSectionLinks : M unit :=
  found <- getElements sectionLinkSelector;;
  forOf found (fun section =>
    doc <- gets document;;
    match parentOf doc section with
    | None => ret tt
    | Some parent =>
        match querySelector doc parent collapseSelector with
        | None => ret tt
        | Some panel =>
            modify (fun w => setSections (mapSet section panel (sections w)) w)
        end
    end).

(** [initActiveLinks()] *)
Definition initActiveLinks : M unit :=
  getActiveLinks (fun link _ =>
    shown_ <- bodyHas BodyAttr.show;;
    activateLink link (if shown_ : bool then expand else collapse)) tt.

(** [onEnter()] *)
Definition onEnter : M unit :=
  mobile <- gets currentMobileState;;
  pinned_ <- (if bool_decide (mobile = Some true) then ret true
              else bodyHas BodyAttr.pinned);;
  if negb pinned_ then show else ret tt.

(** [onLeave()] *)
Definition onLeave : M unit :=
  mobile <- gets currentMobileState;;
  pinned_ <- (if bool_decide (mobile = Some true) then ret true
              else bodyHas BodyAttr.pinned);;
  if negb pinned_ then hide else ret tt.

(** The loop of [onResize()] over the mobile togglers; the result tells
    whether the loop has returned from the method. *)
Fixpoint onResizeTogglers (togglers : list elem) : M bool :=
  match togglers with
  | [] => ret false
  | toggler :: rest =>
      layout <- gets (fun w => el ← document w !! toggler; offsetParent el);;
      match layout with
      | Some _ =>
          mobile <- gets currentMobileState;;
          (if bool_decide (mobile = None) || bool_decide (mobile = Some false)
           then hide;;; modify (setCurrentMobileState (Some true))
           else ret tt);;;
          ret true
      | None => onResizeTogglers rest
      end
  end.

(** [onResize()] *)
Definition onResize : M unit :=
  togglers <- getElements mobileTogglerSelector;;
  returned <- onResizeTogglers togglers;;
  if returned : bool then ret tt
  else
    mobile <- gets currentMobileState;;
    if bool_decide (mobile = None) || bool_decide (mobile = Some true)
    then
      pinned_ <- stateGet;;
      (if pinned_ : bool then pin else unpin);;;
      modify (setCurrentMobileState (Some false))
    else ret tt.

(** [onToggle(event)] *)
Definition onToggle : M unit :=
  modify (record PreventDefault);;;
  pinned_ <- stateGet;;
  if pinned_ : bool then unpin else pin.

(** [onMobileToggle(event)] *)
Definition onMobileToggle : M unit :=
  modify (record PreventDefault);;;
  shown_ <- bodyHas BodyAttr.show;;
  if shown_ : bool then hide else show.

(** [init()]: the listeners it registers are the handlers above; the one
    thing it runs is [onResize()]. *)
Definition init : M unit := onResize.

(** [new SideNav(base)], on a page whose [base] is the container. *)
Definition constructor : M unit :=
  modify (setCurrentMobileState None);;;
  modify (setActiveLink None);;;
  modify (setSections []);;;
  init;;;
  initSectionLinks;;;
  initActiveLinks.

End SideNav.

(* ===================================================================== *)
(** * A concrete page *)
(* ===================================================================== *)

Module Demo.
Import DOM Runtime SideNav.

(** A stand-in for the runtime's regular expressions on the patterns of the
    examples: a pattern made of literal characters and balanced parentheses
    matches where it occurs in the subject, letter case ignored (flag [i]);
    a pattern whose parentheses do not balance is no regular expression
    (the constructor throws [SyntaxError: Unmatched ')'], or
    [Unterminated group]). *)
Definition lower (c : ascii) : ascii :=
  let n := nat_of_ascii c in
  if ((65 <=? n) && (n <=? 90))%nat then ascii_of_nat (n + 32) else c.

Fixpoint lowercase (s : string) : string :=
  match s with
  | EmptyString => EmptyString
  | String c s' => String (lower c) (lowercase s')
  end.

Fixpoint occursIn (p s : string) : bool :=
  String.prefix p s
  || match s with
     | EmptyString => false
     | String _ s' => occursIn p s'
     end.

Fixpoint balanced (depth : nat) (p : string) : bool :=
  match p with
  | EmptyString => bool_decide (depth = 0)
  | String "("%char p' => balanced (S depth) p'
  | String ")"%char p' =>
      match depth with
      | 0 => false
      | S d => balanced d p'
      end
  | String _ p' => balanced depth p'
  end.

Fixpoint stripParens (p : string) : string :=
  match p with
  | EmptyString => EmptyString
  | String "("%char p' => stripParens p'
  | String ")"%char p' => stripParens p'
  | String c p' => String c (stripParens p')
  end.

Definition literalRegExp (pattern : string) : option (string -> bool) :=
  if balanced 0 pattern
  then Some (fun subject =>
               occursIn (lowercase (stripParens pattern)) (lowercase subject))
  else None.

Definition element (name : string) (classes : list string)
    (attrs : list (string * string)) (url : string) (parent : option elem)
    : Element :=
  mkElement name classes (list_to_map attrs) url parent parent.

(** A page with two sections, "sites" and "devices":
<<
    0 html
    1   body
    2     div.sidenav
    3       ul.navbar-nav
    4         li.nav-item
    5           a.nav-link[data-bs-toggle]          #sites
    6           div.collapse
    7             ul.nav
    8               li.nav-item
    9                 a.nav-link                    /sites/
    10        li.nav-item
    11          a.nav-link[data-bs-toggle]          #devices
    12          div.collapse
    13            ul.nav
    14              li.nav-item
    15                a.nav-link                    /devices/
    16    button.sidenav-toggle-mobile
>>
    [mobile] tells whether the mobile toggler is rendered. *)
Definition page (mobile : bool) : Document :=
  [ element "html" [] [] "" None;
    element "body" [] [] "" (Some 0);
    element "div" ["sidenav"] [] "" (Some 1);
    element "ul" ["navbar-nav"] [] "" (Some 2);
    element "li" ["nav-item"] [] "" (Some 3);
    element "a" ["nav-link"] [("data-bs-toggle", "collapse")] "http://nb/#sites" (Some 4);
    element "div" ["collapse"] [] "" (Some 4);
    element "ul" ["nav"] [] "" (Some 6);
    element "li" ["nav-item"] [] "" (Some 7);
    element "a" ["nav-link"] [] "http://nb/sites/" (Some 8);
    element "li" ["nav-item"] [] "" (Some 3);
    element "a" ["nav-link"] [("data-bs-toggle", "collapse")] "http://nb/#devices" (Some 10);
    element "div" ["collapse"] [] "" (Some 10);
    element "ul" ["nav"] [] "" (Some 12);
    element "li" ["nav-item"] [] "" (Some 13);
    element "a" ["nav-link"] [] "http://nb/devices/" (Some 14);
    mkElement "button" ["sidenav-toggle-mobile"] ∅ "" (Some 1)
              (if mobile then Some 1 else None) ].

(** The page before the widget is constructed, at the "sites" list. *)
Definition fresh (mobile pinned_ : bool) : World :=
  mkWorld (page mobile) 1 "http://nb/sites/" literalRegExp ∅
          (mkNavState pinned_) 2 None None [] [].

(** The page once [new SideNav(base)] has run. *)
Definition loaded (mobile pinned_ : bool) : World :=
  after constructor (fresh mobile pinned_).

(** The same page, at the "devices" list, when the link of the "sites" list
    carries a URL that is not a regular expression. *)
Definition brokenPage : Document :=
  <[9 := element "a" ["nav-link"] [] "http://nb/sites/(all" (Some 8)]> (page false).

Definition broken : World :=
  mkWorld brokenPage 1 "http://nb/devices/" literalRegExp ∅
          (mkNavState true) 2 None None [] [].

(** The same page, at the "sites" list, when the root element carries the
    class [nav-item] itself ([<html class="nav-item">]); the widget is not
    constructed yet. *)
Definition rootItemPage : Document :=
  <[0 := element "html" ["nav-item"] [] "" None]> (page false).

Definition rootItem : World :=
  mkWorld rootItemPage 1 "http://nb/sites/" literalRegExp ∅
          (mkNavState true) 2 None None [] [].

(** A page whose sections are nav items of a [.nav] list themselves, so
    that the link of a section is a navigation link as well:
<<
    0 html
    1   body
    2     div.sidenav
    3       div.navbar-nav
    4         ul.nav
    5           li.nav-item
    6             a.nav-link[data-bs-toggle]        /sites/
    7             div.collapse
    8               ul.nav
    9                 li.nav-item
    10                  a.nav-link                  /sites/new/
    11    button.sidenav-toggle-mobile
>>
    The page is at "/sites/", in the mobile layout. *)
Definition nestedPage : Document :=
  [ element "html" [] [] "" None;
    element "body" [] [] "" (Some 0);
    element "div" ["sidenav"] [] "" (Some 1);
    element "div" ["navbar-nav"] [] "" (Some 2);
    element "ul" ["nav"] [] "" (Some 3);
    element "li" ["nav-item"] [] "" (Some 4);
    element "a" ["nav-link"] [("data-bs-toggle", "collapse")] "http://nb/sites/" (Some 5);
    element "div" ["collapse"] [] "" (Some 5);
    element "ul" ["nav"] [] "" (Some 7);
    element "li" ["nav-item"] [] "" (Some 8);
    element "a" ["nav-link"] [] "http://nb/sites/new/" (Some 9);
    element "button" ["sidenav-toggle-mobile"] [] "" (Some 1) ].

Definition nestedFresh : World :=
  mkWorld nestedPage 1 "http://nb/sites/" literalRegExp ∅
          (mkNavState true) 2 None None [] [].

(** The same page once the sections are registered, before the active
    links are initialised. *)
Definition nested : World :=
  after (init;;; initSectionLinks)%method nestedFresh.

End Demo.

(* ===================================================================== *)
(** * The vocabulary of the properties *)
(* ===================================================================== *)

Import DOM Runtime SideNav.
Local Open Scope list_scope.
Local Open Scope method_scope.

(** ** How a call completes *)

(** A method that never throws. *)
Definition nothrow {A} (m : M A) : Prop :=
  forall w, exists a, fst (m w) = Normal a.

(** [preserves I m]: whatever [m] does, and however it completes, it takes
    worlds that satisfy [I] to worlds that satisfy [I]. *)
Definition preserves {A} (I : World -> Prop) (m : M A) : Prop :=
  forall w, I w -> I (after m w).

(** [keeps f m]: [m] does not change what [f] observes of the world. *)
Definition keeps {A V} (f : World -> V) (m : M A) : Prop :=
  forall w, f (after m w) = f w.

(** ** What is observed of the world *)

(** The value of an attribute of [document.body]. *)
Definition bodyAttribute (name : string) (w : World) : option string :=
  getAttribute (document w) (body w) name.

(** Whether [document.body] carries the flag [attr]: what [bodyHas(attr)]
    returns. *)
Definition flag (attr : BodyAttr.t) (w : World) : bool :=
  hasAttribute (document w) (body w) (attrName attr).

(** The writes to the persisted store among the recorded mutations. *)
Definition isStateSet (ev : Effect) : bool :=
  match ev with
  | StateSet _ => true
  | _ => false
  end.

Definition storeWrites (w : World) : list Effect :=
  List.filter isStateSet (trace w).

(** A section is collapsed: its link carries the class and the ARIA state,
    and its panel is not shown. *)
Definition sectionCollapsed (section : elem * Collapse) (w : World) : Prop :=
  hasClass (document w) section.1 "collapsed" = true /\
  getAttribute (document w) section.1 "aria-expanded" = Some "false" /\
  section.2 ∉ shown w.

(** A well-formed world: [document.body] and the registered section links
    are elements of the document. *)
Definition wellFormed (w : World) : Prop :=
  body w < length (document w) /\
  Forall (fun s : elem * Collapse => s.1 < length (document w)) (sections w).

(** Whether the element [t] is rendered ([t.offsetParent !== null]). *)
Definition isRendered (w : World) (t : elem) : bool :=
  match document w !! t with
  | Some el => bool_decide (is_Some (offsetParent el))
  | None => false
  end.

(** The mobile togglers of the page, and whether one of them is rendered:
    the page is in its mobile layout. *)
Definition mobileTogglers (w : World) : list elem :=
  documentQuerySelectorAll (document w) mobileTogglerSelector.

Definition mobileLayout (w : World) : bool :=
  existsb (isRendered w) (mobileTogglers w).

(** The navigation links of the container, in document order. *)
Definition navLinks (w : World) : list elem :=
  querySelectorAll (document w) (base w) navLinkSelector.

(** The link's URL is a regular expression. *)
Definition compiles (w : World) (link : elem) : Prop :=
  is_Some (regExp w (hrefOf w link)).

(** The link's URL, as a regular expression, matches the location. *)
Definition isActive (w : World) (link : elem) : bool :=
  match regExp w (hrefOf w link) with
  | Some re => re (location_href w)
  | None => false
  end.

(** ** Parts of the methods *)

(** The body of the loop of [hide()]. *)
Definition collapseSection (section : elem * Collapse) : M unit :=
  let '(link, collapse_) := section in
  classListAdd link "collapsed";;;
  setAttribute link "aria-expanded" "false";;;
  collapseHide collapse_.

(** The mutations it records. *)
Definition collapseEffects (section : elem * Collapse) : list Effect :=
  [ClassAdd section.1 "collapsed";
   SetAttribute section.1 "aria-expanded" "false";
   CollapseHide section.2].

(** The body of the loop of [closeInactiveSections()]. *)
Definition closeIfInactive (section : elem * Collapse) : M unit :=
  let '(link, collapse_) := section in
  (active <- gets activeLink;;
   if bool_decide (Some link ≠ active) then
     classListAdd link "collapsed";;;
     setAttribute link "aria-expanded" "false";;;
     collapseHide collapse_
   else ret tt).

(** The world after the first two statements of [hide()]. *)
Definition hidePrefix (w : World) : World :=
  after (bodyRemove [BodyAttr.pinned; BodyAttr.show]) (after (bodyAdd [BodyAttr.hide]) w).

(** The world after the first two statements of [show()]. *)
Definition showPrefix (w : World) : World :=
  after (bodyRemove [BodyAttr.hidden; BodyAttr.hide]) (after (bodyAdd [BodyAttr.show]) w).

(** The loop of [show()]. *)
Definition expandActiveLinks : M unit :=
  getActiveLinks (fun link _ => activateLink link expand) tt.

(** The world after the first two statements of [pin()]. *)
Definition pinPrefix (w : World) : World :=
  after (bodyAdd [BodyAttr.pinned]) (after (stateSet true) w).

(** What [activateLink] does once it has found the group link and its
    controller. *)
Definition activateGroup (link groupLink : elem) (collapse_ : Collapse)
    (action : Action) : M unit :=
  classListAdd groupLink "active";;;
  match action with
  | expand =>
      setAttribute groupLink "aria-expanded" "true";;;
      collapseShow collapse_;;;
      classListAdd link "active";;;
      classListRemove groupLink "collapsed"
  | collapse =>
      setAttribute groupLink "aria-expanded" "false";;;
      collapseHide collapse_;;;
      classListRemove link "active";;;
      classListAdd groupLink "collapsed"
  end.

(** The mutations of the two actions, after the class [active] has been
    added to the group link. *)
Definition actionEffects (link groupLink : elem) (collapse_ : Collapse)
    (action : Action) : list Effect :=
  match action with
  | expand =>
      [SetAttribute groupLink "aria-expanded" "true"; CollapseShow collapse_;
       ClassAdd link "active"; ClassRemove groupLink "collapsed"]
  | collapse =>
      [SetAttribute groupLink "aria-expanded" "false"; CollapseHide collapse_;
       ClassRemove link "active"; ClassAdd groupLink "collapsed"]
  end.

(** The consumer that collects what the generator yields. *)
Definition collect (link : elem) (acc : list elem) : M (list elem) :=
  ret (acc ++ [link]).

(** ** Calls in sequence *)

(** The four visibility operations are private: each call comes from an
    event handler, which runs to completion (or throws) before the next
    event is handled, on the world the previous one has left. *)
Inductive Call := callShow | callHide | callPin | callUnpin.

Definition method (c : Call) : M unit :=
  match c with
  | callShow => show
  | callHide => hide
  | callPin => pin
  | callUnpin => unpin
  end.

(** The world a sequence of calls leaves. *)
Definition runCalls (calls : list Call) (w : World) : World :=
  fold_left (fun w c => after (method c) w) calls w.

(** The calls that carry a value for the preference. *)
Inductive PinCall := Pin | Unpin.

Definition toCall (c : PinCall) : Call :=
  match c with
  | Pin => callPin
  | Unpin => callUnpin
  end.

Definition argument (c : PinCall) : bool :=
  match c with
  | Pin => true
  | Unpin => false
  end.

(** ** The invariant of the body flags *)

(** "Pinned implies shown". *)
Definition pinnedImpliesShown (w : World) : Prop :=
  flag BodyAttr.pinned w = true ->
  flag BodyAttr.show w = true /\ flag BodyAttr.hidden w = false.

(** ** Further vocabulary *)

#[global] Instance BodyAttr_eq_dec : EqDecision BodyAttr.t.
Proof. solve_decision. Defined.

(** The panel [initSectionLinks] finds next to a section link:
    [section.parentElement.querySelector('.collapse')], when the link has a
    parent element. *)
Definition panelOf (doc : Document) (section : elem) : option elem :=
  match parentOf doc section with
  | Some parent => querySelector doc parent collapseSelector
  | None => None
  end.

(** The registry after [initSectionLinks] has gone through the links
    [found], starting from the registry [secs]. *)
Definition registerAll (doc : Document) (found : list elem)
    (secs : list (elem * Collapse)) : list (elem * Collapse) :=
  fold_left
    (fun secs section =>
       match panelOf doc section with
       | Some panel => mapSet section panel secs
       | None => secs
       end)
    found secs.

(** ** The part of the page the widget leaves alone *)

(** The classes and the attributes the methods write. *)
Definition volatileClass (c : string) : bool :=
  bool_decide (c ∈ ["active"; "collapsed"]).

Definition volatileAttr (a : string) : bool :=
  bool_decide (a ∈ ["aria-expanded"; "data-sidenav-show"; "data-sidenav-hide";
                    "data-sidenav-hidden"; "data-sidenav-pinned"]).

(** An element, and a document, without them. *)
Definition skeletonOf (el : Element) : Element :=
  mkElement (localName el)
            (List.filter (fun c => negb (volatileClass c)) (classList el))
            (filter (fun kv : string * string => volatileAttr kv.1 = false)
                    (attributes el))
            (href el) (parentElement el) (offsetParent el).

Definition skeleton (doc : Document) : Document := skeletonOf <$> doc.

(** A selector that mentions none of them. *)
Definition stableSimple (s : Simple) : bool :=
  match s with
  | Class c => negb (volatileClass c)
  | HasAttr a => negb (volatileAttr a)
  | Tag _ | Scope => true
  end.

Definition stableSelector (sel : Selector) : bool :=
  forallb stableSimple (subject sel)
  && forallb (fun step : Combinator * list Simple => forallb stableSimple step.2)
             (leftwards sel).

(** ** The events the widget listens to *)

(** The listeners registered by [init()] and [initSectionLinks()]: the
    resize of the window, a click on a pin toggler, on a mobile toggler and
    on a section link (with the target of the event), and the mouse
    entering and leaving the container. *)
Inductive Event :=
  | Resize
  | ToggleClick
  | MobileToggleClick
  | SectionClick (target : elem)
  | MouseEnter
  | MouseLeave.

Definition listener (ev : Event) : M unit :=
  match ev with
  | Resize => onResize
  | ToggleClick => onToggle
  | MobileToggleClick => onMobileToggle
  | SectionClick target => handleSectionClick target
  | MouseEnter => onEnter
  | MouseLeave => onLeave
  end.

(** The world a sequence of events leaves: each listener runs to completion
    (or throws) on the world the previous one has left. *)
Definition dispatch (events : list Event) (w : World) : World :=
  fold_left (fun w ev => after (listener ev) w) events w.

(** What no method writes: the skeleton of the document, which elements
    are [document.body] and the container, the location and the regular
    expressions of the runtime. *)
Definition fixedPart (w : World)
    : Document * elem * elem * string * (string -> option (string -> bool)) :=
  (skeleton (document w), body w, base w, location_href w, regExp w).

(** ** The section of an active link *)

(** The section [activateLink(link, action)] acts on: the group link under
    the outermost nav item around [link], with the controller registered
    for it; none when the walk throws, or when one of the two is missing. *)
Definition groupOf (w : World) (link : elem) : option (elem * Collapse) :=
  match outermostNavItem (document w) link with
  | Throw _ => None
  | Normal navItem =>
      match groupLinkOf (document w) navItem with
      | None => None
      | Some groupLink =>
          match mapGet groupLink (sections w) with
          | None => None
          | Some collapse_ => Some (groupLink, collapse_)
          end
      end
  end.

(** A section is expanded: its link has lost the class [collapsed] and
    carries the ARIA state, and its panel is shown. *)
Definition sectionExpanded (section : elem * Collapse) (w : World) : Prop :=
  hasClass (document w) section.1 "collapsed" = false /\
  getAttribute (document w) section.1 "aria-expanded" = Some "true" /\
  section.2 ∈ shown w.

(** What [activateLink(link, action)] establishes for the link and its
    section, and later calls with the same action keep. *)
Definition settled (action : Action) (link : elem) (section : elem * Collapse)
    (w : World) : Prop :=
  match action with
  | expand =>
      sectionExpanded section w /\
      hasClass (document w) section.1 "active" = true /\
      hasClass (document w) link "active" = true
  | collapse => sectionCollapsed section w
  end.

(** ** The flags between two events *)

(** [hide] is cleared, exactly one of [show] and [hidden] is set, and
    [pinned] is set only on a shown nav whose stored preference is set. *)
Definition flagsSettled (w : World) : Prop :=
  flag BodyAttr.hide w = false /\
  flag BodyAttr.hidden w = negb (flag BodyAttr.show w) /\
  (flag BodyAttr.pinned w = true ->
   flag BodyAttr.show w = true /\ pinned (state w) = true).

(** ** A new instance *)

(** The fields of a new instance, before [init()] runs. *)
Definition newInstance (w : World) : World :=
  setSections [] (setActiveLink None (setCurrentMobileState None w)).

(** Whether the constructor leaves the nav open: on a desktop layout with
    the stored preference set. *)
Definition opensAtLoad (w : World) : bool :=
  negb (mobileLayout w) && pinned (state w).

(** ** Sequences of events *)

Definition isToggleClick (ev : Event) : bool :=
  match ev with
  | ToggleClick => true
  | _ => false
  end.

(** The target of the last click on a section link among [events], or
    [initial] when there is none. *)
Definition lastSectionClick (events : list Event) (initial : option elem)
    : option elem :=
  fold_left (fun acc ev =>
               match ev with
               | SectionClick target => Some target
               | _ => acc
               end)
            events initial.

(** ** Pages on which the scan of the links returns *)

(** The scan gets past a navigation link: its URL is a regular expression
    and, when it matches the location, the walk of [activateLink] returns
    from it. *)
Definition passable (w : World) (link : elem) : Prop :=
  compiles w link /\
  (isActive w link = true ->
   exists navItem, outermostNavItem (document w) link = Normal navItem).

(** It gets past every navigation link of the page. *)
Definition scannable (w : World) : Prop := Forall (passable w) (navLinks w).

(** The page of the examples with its sections registered, at the "sites"
    list, when the URL of the second navigation link is not a regular
    expression. *)
Definition brokenSecond : World :=
  setDocument
    (<[15 := Demo.element "a" ["nav-link"] [] "http://nb/devices/(" (Some 14)]>
       (Demo.page false))
    (after initSectionLinks (Demo.fresh false true)).

(** The mutations [activateLink(link, action)] records: those of the group
    of the link, when it has one. *)
Definition activationEffects (w : World) (action : Action) (link : elem)
    : list Effect :=
  match groupOf w link with
  | Some (groupLink, collapse_) =>
      ClassAdd groupLink "active" :: actionEffects link groupLink collapse_ action
  | None => []
  end.

(** ** A page whose section links have content *)

(** The page of the examples when each section link holds its title in an
    element of its own, so that a click on the title has the [span], not
    the link, as its target:
<<
    0 html
    1   body
    2     div.sidenav
    3       ul.navbar-nav
    4         li.nav-item
    5           a.nav-link[data-bs-toggle]          #sites
    6             span.nav-link-title
    7           div.collapse
    8             ul.nav
    9               li.nav-item
    10                a.nav-link                    /sites/
    11        li.nav-item
    12          a.nav-link[data-bs-toggle]          #devices
    13            span.nav-link-title
    14          div.collapse
    15            ul.nav
    16              li.nav-item
    17                a.nav-link                    /devices/
    18    button.sidenav-toggle-mobile
>>
    The page is at the "sites" list, in the desktop layout. *)
Definition titledPage : Document :=
  [ Demo.element "html" [] [] "" None;
    Demo.element "body" [] [] "" (Some 0);
    Demo.element "div" ["sidenav"] [] "" (Some 1);
    Demo.element "ul" ["navbar-nav"] [] "" (Some 2);
    Demo.element "li" ["nav-item"] [] "" (Some 3);
    Demo.element "a" ["nav-link"] [("data-bs-toggle", "collapse")] "http://nb/#sites" (Some 4);
    Demo.element "span" ["nav-link-title"] [] "" (Some 5);
    Demo.element "div" ["collapse"] [] "" (Some 4);
    Demo.element "ul" ["nav"] [] "" (Some 7);
    Demo.element "li" ["nav-item"] [] "" (Some 8);
    Demo.element "a" ["nav-link"] [] "http://nb/sites/" (Some 9);
    Demo.element "li" ["nav-item"] [] "" (Some 3);
    Demo.element "a" ["nav-link"] [("data-bs-toggle", "collapse")] "http://nb/#devices" (Some 11);
    Demo.element "span" ["nav-link-title"] [] "" (Some 12);
    Demo.element "div" ["collapse"] [] "" (Some 11);
    Demo.element "ul" ["nav"] [] "" (Some 14);
    Demo.element "li" ["nav-item"] [] "" (Some 15);
    Demo.element "a" ["nav-link"] [] "http://nb/devices/" (Some 16);
    mkElement "button" ["sidenav-toggle-mobile"] ∅ "" (Some 1) None ].

(** The page once [new SideNav(base)] has run. *)
Definition titled : World :=
  after constructor
    (mkWorld titledPage 1 "http://nb/sites/" Demo.literalRegExp ∅
             (mkNavState true) 2 None None [] []).

(** ** The marks the widget writes *)

(** A mutation that stays within the marks of the widget: a class write of
    [active] or [collapsed], an attribute write of [aria-expanded] or of one
    of the four flags, a call of a collapse controller, of the store, or of
    [event.preventDefault()]. *)
Definition ownWrite (ev : Effect) : bool :=
  match ev with
  | ClassAdd _ c | ClassRemove _ c => volatileClass c
  | SetAttribute _ a _ | RemoveAttribute _ a => volatileAttr a
  | CollapseShow _ | CollapseHide _ | StateSet _ | PreventDefault => true
  end.

(** The mutations recorded since the trace was [before]. *)
Definition writtenSince (before : list Effect) (w : World) : list Effect :=
  drop (length before) (trace w).

(** Everything recorded since [before] stays within the marks. *)
Definition ownWritesSince (before : list Effect) (w : World) : Prop :=
  exists written,
    trace w = before ++ written /\ Forall (fun ev => ownWrite ev = true) written.

(* ===================================================================== *)
(** * Reasoning about methods *)
(* ===================================================================== *)

(** ** What a sequence of calls leaves behind *)

Section Sequencing.
Context {A B : Type}.
Implicit Types (m : M A) (k : A -> M B) (w : World).

Lemma after_bind m k w :
  after (bind m k) w =
    match fst (m w) with
    | Normal a => after (k a) (after m w)
    | Throw _ => after m w
    end.
Proof. unfold after, bind. destruct (m w) as [[a|e] w']; reflexivity. Qed.

Lemma fst_bind m k w :
  fst (bind m k w) =
    match fst (m w) with
    | Normal a => fst (k a (after m w))
    | Throw e => Throw e
    end.
Proof. unfold after, bind. destruct (m w) as [[a|e] w']; reflexivity. Qed.

Lemma run_eta m w : m w = (fst (m w), after m w).
Proof. unfold after. destruct (m w); reflexivity. Qed.
End Sequencing.

Lemma keeps_preserves {A V} (f : World -> V) (m : M A) :
  keeps f m <-> forall v, preserves (fun w => f w = v) m.
Proof.
  split.
  - intros K v w <-. apply K.
  - intros P w. exact (P (f w) w eq_refl).
Qed.

Lemma nothrow_ret {A} (a : A) : nothrow (ret a).
Proof. intros w. exists a. reflexivity. Qed.

Lemma nothrow_gets {A} (f : World -> A) : nothrow (gets f).
Proof. intros w. exists (f w). reflexivity. Qed.

Lemma nothrow_modify f : nothrow (modify f).
Proof. intros w. exists tt. reflexivity. Qed.

Lemma nothrow_bind {A B} (m : M A) (k : A -> M B) :
  nothrow m -> (forall a, nothrow (k a)) -> nothrow (bind m k).
Proof.
  intros Hm Hk w. destruct (Hm w) as [a Ha].
  rewrite fst_bind, Ha. apply Hk.
Qed.

Lemma nothrow_forOf {X} (xs : list X) (body : X -> M unit) :
  (forall x, nothrow (body x)) -> nothrow (forOf xs body).
Proof.
  intros Hb. induction xs as [|x xs IH]; simpl.
  - apply nothrow_ret.
  - apply nothrow_bind; auto.
Qed.

Lemma preserves_ret {A} I (a : A) : preserves I (ret a).
Proof. intros w H. exact H. Qed.

Lemma preserves_throw {A} I e : preserves I (@throw A e).
Proof. intros w H. exact H. Qed.

Lemma preserves_gets {A} I (f : World -> A) : preserves I (gets f).
Proof. intros w H. exact H. Qed.

Lemma preserves_modify (I : World -> Prop) f :
  (forall w, I w -> I (f w)) -> preserves I (modify f).
Proof. intros H w Hw. apply H, Hw. Qed.

Lemma preserves_bind {A B} I (m : M A) (k : A -> M B) :
  preserves I m -> (forall a, preserves I (k a)) -> preserves I (bind m k).
Proof.
  intros Hm Hk w Hw. rewrite after_bind.
  destruct (fst (m w)); [apply Hk|]; apply Hm, Hw.
Qed.

Lemma preserves_forOf {X} I (xs : list X) (body : X -> M unit) :
  (forall x, preserves I (body x)) -> preserves I (forOf xs body).
Proof.
  intros Hb. induction xs as [|x xs IH]; simpl.
  - apply preserves_ret.
  - apply preserves_bind; auto.
Qed.

Lemma preserves_scanLinks {A} I (links : list elem) (yield : elem -> A -> M A) acc :
  (forall link a, preserves I (yield link a)) ->
  preserves I (scanLinks links yield acc).
Proof.
  intros Hy. revert acc. induction links as [|link rest IH]; intros acc; simpl.
  - apply preserves_ret.
  - apply preserves_bind.
    + intros w Hw. unfold after, matchesLocation.
      destruct (regExp w _); exact Hw.
    + intros found. apply preserves_bind; [|intros; apply IH].
      destruct found; [apply Hy | apply preserves_ret].
Qed.

Lemma preserves_getActiveLinks {A} I (yield : elem -> A -> M A) acc :
  (forall link a, preserves I (yield link a)) ->
  preserves I (getActiveLinks yield acc).
Proof.
  intros Hy. apply preserves_bind; [apply preserves_gets|].
  intros links. apply preserves_scanLinks, Hy.
Qed.

(** After a call that never throws, the rest of the sequence runs. *)
Lemma after_seq {A B} (m : M A) (k : M B) w :
  nothrow m -> after (bind m (fun _ => k)) w = after k (after m w).
Proof. intros Hm. rewrite after_bind. destruct (Hm w) as [a ->]. reflexivity. Qed.

Lemma fst_seq {A B} (m : M A) (k : M B) w :
  nothrow m -> fst (bind m (fun _ => k) w) = fst (k (after m w)).
Proof. intros Hm. rewrite fst_bind. destruct (Hm w) as [a ->]. reflexivity. Qed.

(** ** Reading an element after a write *)

Section ElementWrites.
Implicit Types (doc : Document) (e : elem) (c a v : string).

Lemma elem_of_tokenAdd c c' (l : list string) :
  c' ∈ tokenAdd c l <-> c' = c \/ c' ∈ l.
Proof.
  unfold tokenAdd. case_bool_decide as Hc.
  - split; [auto|]. intros [->|H]; assumption.
  - rewrite elem_of_app, list_elem_of_singleton. tauto.
Qed.

Lemma elem_of_tokenRemove c c' (l : list string) :
  c' ∈ tokenRemove c l <-> c' <> c /\ c' ∈ l.
Proof.
  unfold tokenRemove. rewrite list_elem_of_In, filter_In, <- list_elem_of_In.
  rewrite negb_true_iff, bool_decide_eq_false. tauto.
Qed.

Lemma hasClass_true doc e c :
  hasClass doc e c = true <->
  exists el, doc !! e = Some el /\ c ∈ classList el.
Proof.
  unfold hasClass. destruct (doc !! e) as [el|].
  - rewrite bool_decide_eq_true. split; [eauto|].
    intros (el' & [= <-] & H). exact H.
  - split; [discriminate|]. intros (el & [=] & _).
Qed.

Lemma hasClass_alter_attributes f doc e e' c :
  hasClass (alter (withAttributes f) e doc) e' c = hasClass doc e' c.
Proof.
  unfold hasClass. rewrite list_lookup_alter. case_decide as He; [subst|reflexivity].
  destruct (doc !! e'); reflexivity.
Qed.

Lemma hasClass_tokenAdd doc e e' c c' :
  hasClass (alter (withClassList (tokenAdd c)) e doc) e' c' =
    hasClass doc e' c'
    || bool_decide (e = e' /\ c = c' /\ e < length doc).
Proof.
  unfold hasClass. rewrite list_lookup_alter. case_decide as He.
  - subst e'. destruct (doc !! e) as [el|] eqn:Hel; simpl.
    + apply lookup_lt_Some in Hel as Hlt.
      apply eq_true_iff_eq.
      rewrite orb_true_iff, !bool_decide_eq_true, elem_of_tokenAdd.
      intuition.
    + apply lookup_ge_None in Hel. symmetry. apply bool_decide_eq_false. lia.
  - rewrite (bool_decide_eq_false_2 (e = e' /\ _)) by tauto.
    rewrite orb_false_r. reflexivity.
Qed.

Lemma hasClass_tokenRemove doc e e' c c' :
  hasClass (alter (withClassList (tokenRemove c)) e doc) e' c' =
    hasClass doc e' c' && negb (bool_decide (e = e' /\ c = c')).
Proof.
  unfold hasClass. rewrite list_lookup_alter. case_decide as He.
  - subst e'. destruct (doc !! e) as [el|] eqn:Hel; simpl; [|reflexivity].
    apply eq_true_iff_eq.
    rewrite andb_true_iff, negb_true_iff, bool_decide_eq_false,
      !bool_decide_eq_true, elem_of_tokenRemove.
    intuition.
  - rewrite (bool_decide_eq_false_2 (e = e' /\ _)) by tauto.
    rewrite andb_true_r. reflexivity.
Qed.

Lemma getAttribute_alter_classList f doc e e' a :
  getAttribute (alter (withClassList f) e doc) e' a = getAttribute doc e' a.
Proof.
  unfold getAttribute. rewrite list_lookup_alter. case_decide as He; [subst|reflexivity].
  destruct (doc !! e'); reflexivity.
Qed.

Lemma getAttribute_insert doc e e' a a' v :
  getAttribute (alter (withAttributes (insert a v)) e doc) e' a' =
    if bool_decide (e = e' /\ a = a' /\ e < length doc) then Some v
    else getAttribute doc e' a'.
Proof.
  unfold getAttribute. rewrite list_lookup_alter. case_decide as He.
  - subst e'. destruct (doc !! e) as [el|] eqn:Hel; simpl.
    + apply lookup_lt_Some in Hel as Hlt. rewrite lookup_insert.
      case_decide; case_bool_decide; try reflexivity; intuition.
    + apply lookup_ge_None in Hel. rewrite bool_decide_eq_false_2 by lia.
      reflexivity.
  - rewrite bool_decide_eq_false_2 by tauto. reflexivity.
Qed.

Lemma getAttribute_delete doc e e' a a' :
  getAttribute (alter (withAttributes (delete a)) e doc) e' a' =
    if bool_decide (e = e' /\ a = a') then None else getAttribute doc e' a'.
Proof.
  unfold getAttribute. rewrite list_lookup_alter. case_decide as He.
  - subst e'. destruct (doc !! e) as [el|] eqn:Hel; simpl.
    + rewrite lookup_delete.
      case_decide; case_bool_decide; try reflexivity; intuition.
    + case_bool_decide; reflexivity.
  - rewrite bool_decide_eq_false_2 by tauto. reflexivity.
Qed.

Lemma getAttribute_outside doc e a :
  length doc <= e -> getAttribute doc e a = None.
Proof.
  intros H. unfold getAttribute. rewrite lookup_ge_None_2 by exact H. reflexivity.
Qed.
End ElementWrites.

(** ** What the methods leave alone *)

Lemma flag_bodyAttribute attr w :
  flag attr w = bool_decide (is_Some (bodyAttribute (attrName attr) w)).
Proof. reflexivity. Qed.

Lemma bodyHas_flag attr w : bodyHas attr w = (Normal (flag attr w), w).
Proof. reflexivity. Qed.

(** Taking a method apart into the primitive writes it is made of. *)
Ltac unfold_methods :=
  unfold onEnter, onLeave, onMobileToggle, initSectionLinks, initActiveLinks,
    handleSectionClick;
  unfold pin, unpin, show, hide, closeInactiveSections, activateLink,
    bodyAdd, bodyRemove, bodyHas, stateGet, getElements.

Ltac unfold_writes :=
  unfold classListAdd, classListRemove, setAttribute, removeAttribute,
    collapseShow, collapseHide, stateSet.

Ltac preserves_step :=
  match goal with
  | |- preserves _ (bind _ _) => apply preserves_bind
  | |- preserves _ (ret _) => apply preserves_ret
  | |- preserves _ (throw _) => apply preserves_throw
  | |- preserves _ (gets _) => apply preserves_gets
  | |- preserves _ (forOf (_ :: _) _) => cbn [forOf]
  | |- preserves _ (forOf [] _) => cbn [forOf]
  | |- preserves _ (forOf _ _) => apply preserves_forOf
  | |- preserves _ (getActiveLinks _ _) => apply preserves_getActiveLinks
  | |- preserves _ (modify _) => apply preserves_modify
  | |- preserves _ (match ?x with _ => _ end) => destruct x
  | |- forall _, _ => intro
  end.

(** [preserves_writes] leaves one goal per primitive write of the method:
    the invariant after the write, from the invariant before it. *)
Ltac preserves_writes :=
  unfold_methods; unfold_writes; repeat preserves_step; cbn [forOf].

(** Fields no DOM write touches. *)
Ltac frame_field := intros; apply keeps_preserves; intros v; preserves_writes;
  simpl in *; assumption.

Lemma show_keeps_state : keeps state show.
Proof. frame_field. Qed.

Lemma hide_keeps_state : keeps state hide.
Proof. frame_field. Qed.

Lemma other_methods_keep_state :
  (forall link action, keeps state (activateLink link action)) /\
  (forall target, keeps state (handleSectionClick target)) /\
  keeps state initSectionLinks /\
  keeps state initActiveLinks /\
  keeps state onEnter /\
  keeps state onLeave /\
  keeps state onMobileToggle.
Proof. repeat split; frame_field. Qed.

Lemma show_keeps_body : keeps body show.
Proof. frame_field. Qed.

Lemma hide_keeps_body : keeps body hide.
Proof. frame_field. Qed.

Lemma pin_keeps_body : keeps body pin.
Proof. frame_field. Qed.

Lemma unpin_keeps_body : keeps body unpin.
Proof. frame_field. Qed.

Lemma show_keeps_sections : keeps sections show.
Proof. frame_field. Qed.

Lemma hide_keeps_sections : keeps sections hide.
Proof. frame_field. Qed.

Lemma show_keeps_currentMobileState : keeps currentMobileState show.
Proof. frame_field. Qed.

Lemma hide_keeps_currentMobileState : keeps currentMobileState hide.
Proof. frame_field. Qed.

Lemma pin_keeps_currentMobileState : keeps currentMobileState pin.
Proof. frame_field. Qed.

Ltac nothrow_step :=
  match goal with
  | |- nothrow (bind _ _) => apply nothrow_bind
  | |- nothrow (ret _) => apply nothrow_ret
  | |- nothrow (gets _) => apply nothrow_gets
  | |- nothrow (modify _) => apply nothrow_modify
  | |- nothrow (forOf _ _) => apply nothrow_forOf
  | |- nothrow (match ?x with _ => _ end) => destruct x
  | |- forall _, _ => intro
  end.

Ltac nothrow_writes := unfold_methods; unfold_writes; repeat nothrow_step.

Lemma bodyAdd_nothrow attrs : nothrow (bodyAdd attrs).
Proof. nothrow_writes. Qed.

Lemma bodyRemove_nothrow attrs : nothrow (bodyRemove attrs).
Proof. nothrow_writes. Qed.

Lemma hide_nothrow : nothrow hide.
Proof. nothrow_writes. Qed.

Lemma unpin_nothrow : nothrow unpin.
Proof. nothrow_writes. Qed.

Lemma closeInactiveSections_nothrow : nothrow closeInactiveSections.
Proof. nothrow_writes. Qed.

Lemma handleSectionClick_nothrow target : nothrow (handleSectionClick target).
Proof. nothrow_writes. Qed.

Lemma nothrow_unit (m : M unit) w : nothrow m -> fst (m w) = Normal tt.
Proof. intros H. destruct (H w) as [[] ->]. reflexivity. Qed.

(** The size of the document. *)
Ltac frame_length := intros; apply keeps_preserves; intros v; preserves_writes;
  simpl in *; rewrite ?length_alter; assumption.

Lemma show_keeps_length : keeps (fun w => length (document w)) show.
Proof. frame_length. Qed.

Lemma hide_keeps_length : keeps (fun w => length (document w)) hide.
Proof. frame_length. Qed.

Lemma pin_keeps_length : keeps (fun w => length (document w)) pin.
Proof. frame_length. Qed.

Lemma unpin_keeps_length : keeps (fun w => length (document w)) unpin.
Proof. frame_length. Qed.

(** The writes to the store: [show()] and [hide()] record none. *)
Ltac frame_storeWrites := intros; apply keeps_preserves; intros v;
  preserves_writes; unfold storeWrites in *; simpl in *;
  rewrite ?List.filter_app, ?app_nil_r; simpl; rewrite ?app_nil_r; assumption.

Lemma show_keeps_storeWrites : keeps storeWrites show.
Proof. frame_storeWrites. Qed.

Lemma hide_keeps_storeWrites : keeps storeWrites hide.
Proof. frame_storeWrites. Qed.

(** ** The flags of [document.body] *)

Lemma attrName_inj a b : attrName a = attrName b -> a = b.
Proof. destruct a, b; simpl; intros H; (reflexivity || discriminate H). Qed.

Lemma bodyAttribute_bodyAdd attrs name w :
  bodyAttribute name (after (bodyAdd attrs) w) =
    if bool_decide (name ∈ map attrName attrs /\ body w < length (document w))
    then Some "" else bodyAttribute name w.
Proof.
  unfold bodyAdd. revert w. induction attrs as [|attr attrs IH]; intros w.
  - rewrite bool_decide_eq_false_2 by (intros [H _]; inversion H).
    reflexivity.
  - cbn [forOf]. rewrite after_seq by nothrow_writes. rewrite IH.
    unfold after at 1 2 3 4, bodyAttribute, setAttribute. simpl.
    rewrite length_alter, getAttribute_insert.
    repeat case_bool_decide; rewrite ?elem_of_cons in *;
      try reflexivity; exfalso; intuition auto; subst; intuition auto.
Qed.

Lemma bodyAttribute_bodyRemove attrs name w :
  bodyAttribute name (after (bodyRemove attrs) w) =
    if bool_decide (name ∈ map attrName attrs) then None
    else bodyAttribute name w.
Proof.
  unfold bodyRemove. revert w. induction attrs as [|attr attrs IH]; intros w.
  - rewrite bool_decide_eq_false_2 by (intros H; inversion H).
    reflexivity.
  - cbn [forOf]. rewrite after_seq by nothrow_writes. rewrite IH.
    unfold after at 1, bodyAttribute, removeAttribute. simpl.
    rewrite getAttribute_delete.
    repeat case_bool_decide; rewrite ?elem_of_cons in *;
      try reflexivity; exfalso; intuition auto; subst; intuition auto.
Qed.

Lemma attrName_not_aria attr : attrName attr <> "aria-expanded".
Proof. destruct attr; discriminate. Qed.

(** A write of [aria-expanded], or of a class, is not a write of another
    attribute. *)
Ltac frame_bodyAttribute :=
  intros; apply keeps_preserves; intros v; preserves_writes;
  unfold bodyAttribute in *; simpl in *;
  rewrite ?getAttribute_alter_classList, ?getAttribute_insert, ?getAttribute_delete;
  repeat case_bool_decide; try assumption; exfalso; intuition congruence.

Lemma activateLink_keeps_bodyAttribute name link action :
  name <> "aria-expanded" -> keeps (bodyAttribute name) (activateLink link action).
Proof. frame_bodyAttribute. Qed.

Lemma expandActiveLinks_keeps_bodyAttribute name :
  name <> "aria-expanded" ->
  keeps (bodyAttribute name)
        (getActiveLinks (fun link _ => activateLink link expand) tt).
Proof. frame_bodyAttribute. Qed.

(** ** Sequences of calls, taken apart *)

Lemma hide_unfold :
  hide =
    (bodyAdd [BodyAttr.hide];;;
     bodyRemove [BodyAttr.pinned; BodyAttr.show];;;
     secs <- gets sections;;
     forOf secs collapseSection;;;
     bodyRemove [BodyAttr.hide];;;
     bodyAdd [BodyAttr.hidden]).
Proof. reflexivity. Qed.

Lemma collapseSection_nothrow section : nothrow (collapseSection section).
Proof. destruct section. unfold collapseSection. nothrow_writes. Qed.

Lemma collapseSections_nothrow secs : nothrow (forOf secs collapseSection).
Proof. apply nothrow_forOf, collapseSection_nothrow. Qed.

Lemma collapseSection_keeps_bodyAttribute name section :
  name <> "aria-expanded" -> keeps (bodyAttribute name) (collapseSection section).
Proof. destruct section. unfold collapseSection. frame_bodyAttribute. Qed.

Lemma collapseSections_keeps_bodyAttribute name secs :
  name <> "aria-expanded" ->
  keeps (bodyAttribute name) (forOf secs collapseSection).
Proof.
  intros Hn. apply keeps_preserves. intros v. apply preserves_forOf.
  intros section. revert v. apply keeps_preserves.
  apply collapseSection_keeps_bodyAttribute, Hn.
Qed.

Lemma collapseSections_keeps_sections secs :
  keeps sections (forOf secs collapseSection).
Proof.
  apply keeps_preserves. intros v. apply preserves_forOf. intros [l c].
  unfold collapseSection. preserves_writes; simpl in *; assumption.
Qed.

Lemma collapseSections_keeps_body secs :
  keeps body (forOf secs collapseSection).
Proof.
  apply keeps_preserves. intros v. apply preserves_forOf. intros [l c].
  unfold collapseSection. preserves_writes; simpl in *; assumption.
Qed.

Lemma collapseSections_keeps_length secs :
  keeps (fun w => length (document w)) (forOf secs collapseSection).
Proof.
  apply keeps_preserves. intros v. apply preserves_forOf. intros [l c].
  unfold collapseSection. preserves_writes; simpl in *;
    rewrite ?length_alter; assumption.
Qed.

Lemma hide_after w :
  after hide w =
    after (bodyAdd [BodyAttr.hidden])
      (after (bodyRemove [BodyAttr.hide])
         (after (forOf (sections w) collapseSection) (hidePrefix w))).
Proof.
  rewrite hide_unfold.
  rewrite after_seq by apply bodyAdd_nothrow.
  rewrite after_seq by apply bodyRemove_nothrow.
  rewrite after_bind. cbn [gets fst after snd].
  change (after (gets sections) ?x) with x.
  fold (hidePrefix w).
  change (sections (hidePrefix w)) with (sections w).
  rewrite after_seq by apply collapseSections_nothrow.
  rewrite after_seq by apply bodyRemove_nothrow.
  reflexivity.
Qed.

Lemma bodyAdd_keeps_body attrs : keeps body (bodyAdd attrs).
Proof. frame_field. Qed.

Lemma bodyRemove_keeps_body attrs : keeps body (bodyRemove attrs).
Proof. frame_field. Qed.

Lemma bodyAdd_keeps_length attrs : keeps (fun w => length (document w)) (bodyAdd attrs).
Proof. frame_length. Qed.

Lemma bodyRemove_keeps_length attrs :
  keeps (fun w => length (document w)) (bodyRemove attrs).
Proof. frame_length. Qed.

Lemma hidePrefix_body w : body (hidePrefix w) = body w.
Proof. reflexivity. Qed.

Lemma hidePrefix_length w : length (document (hidePrefix w)) = length (document w).
Proof.
  unfold hidePrefix.
  rewrite (bodyRemove_keeps_length _ _), (bodyAdd_keeps_length _ _). reflexivity.
Qed.

(** The attributes of [document.body] once [hide()] is through. *)
Lemma bodyAttribute_hide name w :
  name <> "aria-expanded" ->
  bodyAttribute name (after hide w) =
    if bool_decide (name = "data-sidenav-hidden" /\ body w < length (document w))
    then Some ""
    else if bool_decide (name ∈ ["data-sidenav-hide"; "data-sidenav-pinned";
                                 "data-sidenav-show"])
    then None
    else bodyAttribute name w.
Proof.
  intros Hn. rewrite hide_after.
  rewrite bodyAttribute_bodyAdd.
  rewrite (bodyRemove_keeps_body _ _), (bodyRemove_keeps_length _ _).
  rewrite (collapseSections_keeps_body _ _), (collapseSections_keeps_length _ _).
  rewrite hidePrefix_body, hidePrefix_length.
  rewrite bodyAttribute_bodyRemove.
  rewrite (collapseSections_keeps_bodyAttribute _ _ Hn).
  unfold hidePrefix.
  rewrite bodyAttribute_bodyRemove, bodyAttribute_bodyAdd.
  simpl (map attrName _).
  repeat case_bool_decide; try reflexivity; exfalso;
    rewrite ?elem_of_cons, ?elem_of_nil in *; intuition congruence.
Qed.

Lemma hide_flags w :
  flag BodyAttr.show (after hide w) = false /\
  flag BodyAttr.hide (after hide w) = false /\
  flag BodyAttr.pinned (after hide w) = false /\
  flag BodyAttr.hidden (after hide w) = bool_decide (body w < length (document w)).
Proof.
  rewrite !flag_bodyAttribute.
  rewrite !bodyAttribute_hide by apply attrName_not_aria.
  cbn [attrName].
  split; [reflexivity|]. split; [reflexivity|]. split; [reflexivity|].
  destruct (decide (body w < length (document w))) as [Hb|Hb].
  - rewrite (bool_decide_eq_true_2 (_ /\ _)) by auto.
    rewrite (bool_decide_eq_true_2 (body w < _)) by exact Hb.
    reflexivity.
  - rewrite (bool_decide_eq_false_2 (_ /\ _)) by tauto.
    rewrite (bool_decide_eq_false_2 (body w < _)) by exact Hb.
    unfold bodyAttribute. rewrite getAttribute_outside by lia.
    reflexivity.
Qed.

(** ** The mutations [hide()] records *)

Lemma trace_bodyAdd attrs w :
  trace (after (bodyAdd attrs) w) =
    trace w ++ map (fun attr => SetAttribute (body w) (attrName attr) "") attrs.
Proof.
  unfold bodyAdd. revert w. induction attrs as [|attr attrs IH]; intros w.
  - simpl. rewrite app_nil_r. reflexivity.
  - cbn [forOf]. rewrite after_seq by nothrow_writes. rewrite IH.
    simpl. rewrite <- app_assoc. reflexivity.
Qed.

Lemma trace_bodyRemove attrs w :
  trace (after (bodyRemove attrs) w) =
    trace w ++ map (fun attr => RemoveAttribute (body w) (attrName attr)) attrs.
Proof.
  unfold bodyRemove. revert w. induction attrs as [|attr attrs IH]; intros w.
  - simpl. rewrite app_nil_r. reflexivity.
  - cbn [forOf]. rewrite after_seq by nothrow_writes. rewrite IH.
    simpl. rewrite <- app_assoc. reflexivity.
Qed.

Lemma trace_collapseSections secs w :
  trace (after (forOf secs collapseSection) w) =
    trace w ++ flat_map collapseEffects secs.
Proof.
  revert w. induction secs as [|[l c] secs IH]; intros w.
  - simpl. rewrite app_nil_r. reflexivity.
  - cbn [forOf]. rewrite after_seq by apply collapseSection_nothrow.
    rewrite IH. simpl. rewrite <- !app_assoc. reflexivity.
Qed.

Lemma hide_trace w :
  trace (after hide w) =
    trace w
    ++ [SetAttribute (body w) "data-sidenav-hide" "";
        RemoveAttribute (body w) "data-sidenav-pinned";
        RemoveAttribute (body w) "data-sidenav-show"]
    ++ flat_map collapseEffects (sections w)
    ++ [RemoveAttribute (body w) "data-sidenav-hide";
        SetAttribute (body w) "data-sidenav-hidden" ""].
Proof.
  rewrite hide_after, trace_bodyAdd, trace_bodyRemove, trace_collapseSections.
  rewrite (bodyRemove_keeps_body _ _), !(collapseSections_keeps_body _ _).
  unfold hidePrefix.
  rewrite trace_bodyRemove, trace_bodyAdd.
  rewrite !(bodyRemove_keeps_body _ _), !(bodyAdd_keeps_body _ _).
  simpl. rewrite <- !app_assoc. reflexivity.
Qed.

(** ** Collapsed sections *)

(** Once collapsed, a section stays collapsed under the writes that collapse
    sections and under the writes of the body flags. *)
Ltac stay_collapsed :=
  preserves_writes;
  unfold sectionCollapsed in *; simpl in *;
  rewrite ?hasClass_tokenAdd, ?hasClass_alter_attributes,
    ?getAttribute_alter_classList, ?getAttribute_insert, ?getAttribute_delete;
  destruct_and?; repeat split;
  try match goal with
      | H : hasClass _ _ _ = true |- _ => rewrite H; reflexivity
      end;
  try assumption;
  try (repeat case_bool_decide; (reflexivity || assumption
         || (exfalso; destruct_and?; (discriminate || congruence))));
  try match goal with
      | |- _ ∉ _ ∖ _ => apply not_elem_of_difference; left; assumption
      end.

Lemma collapseSection_preserves_collapsed s s' :
  preserves (sectionCollapsed s) (collapseSection s').
Proof. destruct s'. unfold collapseSection. stay_collapsed. Qed.

Lemma bodyAdd_preserves_collapsed s attrs :
  preserves (sectionCollapsed s) (bodyAdd attrs).
Proof.
  unfold bodyAdd. apply preserves_forOf. intros attr.
  pose proof (attrName_not_aria attr). stay_collapsed.
Qed.

Lemma bodyRemove_preserves_collapsed s attrs :
  preserves (sectionCollapsed s) (bodyRemove attrs).
Proof.
  unfold bodyRemove. apply preserves_forOf. intros attr.
  pose proof (attrName_not_aria attr). stay_collapsed.
Qed.

Lemma collapseSection_collapses s w :
  s.1 < length (document w) -> sectionCollapsed s (after (collapseSection s) w).
Proof.
  destruct s as [l c]. intros Hl. unfold sectionCollapsed. simpl in *.
  rewrite hasClass_alter_attributes, hasClass_tokenAdd, getAttribute_insert.
  rewrite length_alter.
  rewrite !bool_decide_eq_true_2 by auto.
  split; [apply orb_true_r|]. split; [reflexivity|].
  apply not_elem_of_difference. right. apply elem_of_singleton. reflexivity.
Qed.

Lemma collapseSections_collapse secs s w :
  s ∈ secs -> s.1 < length (document w) ->
  sectionCollapsed s (after (forOf secs collapseSection) w).
Proof.
  revert w. induction secs as [|s' secs IH]; intros w Hin Hl.
  - inversion Hin.
  - cbn [forOf]. rewrite after_seq by apply collapseSection_nothrow.
    destruct (decide (s ∈ secs)) as [Hs|Hs].
    + apply IH; [exact Hs|].
      destruct s'. unfold collapseSection, after. simpl.
      rewrite !length_alter. exact Hl.
    + apply elem_of_cons in Hin as [->|Hin]; [|contradiction].
      apply preserves_forOf.
      * intros x. apply collapseSection_preserves_collapsed.
      * apply collapseSection_collapses, Hl.
Qed.

Lemma hide_collapses s w :
  s ∈ sections w -> s.1 < length (document w) ->
  sectionCollapsed s (after hide w).
Proof.
  intros Hin Hl. rewrite hide_after.
  apply bodyAdd_preserves_collapsed, bodyRemove_preserves_collapsed.
  apply collapseSections_collapse; [exact Hin|].
  rewrite hidePrefix_length. exact Hl.
Qed.

Lemma wellFormed_section w s :
  wellFormed w -> s ∈ sections w -> s.1 < length (document w).
Proof. intros [_ H] Hin. rewrite Forall_forall in H. apply H, Hin. Qed.

(** ** The world [show()] leaves *)

Lemma show_after w : after show w = after expandActiveLinks (showPrefix w).
Proof.
  unfold show.
  rewrite after_seq by apply bodyAdd_nothrow.
  rewrite after_seq by apply bodyRemove_nothrow.
  unfold expandActiveLinks, showPrefix. reflexivity.
Qed.

Lemma show_fst w : fst (show w) = fst (expandActiveLinks (showPrefix w)).
Proof.
  unfold show.
  rewrite fst_seq by apply bodyAdd_nothrow.
  rewrite fst_seq by apply bodyRemove_nothrow.
  unfold expandActiveLinks, showPrefix. reflexivity.
Qed.

Lemma showPrefix_body w : body (showPrefix w) = body w.
Proof. reflexivity. Qed.

Lemma showPrefix_length w : length (document (showPrefix w)) = length (document w).
Proof.
  unfold showPrefix.
  rewrite (bodyRemove_keeps_length _ _), (bodyAdd_keeps_length _ _). reflexivity.
Qed.

Lemma bodyAttribute_show name w :
  name <> "aria-expanded" ->
  bodyAttribute name (after show w) =
    if bool_decide (name ∈ ["data-sidenav-hidden"; "data-sidenav-hide"]) then None
    else if bool_decide (name = "data-sidenav-show" /\ body w < length (document w))
    then Some ""
    else bodyAttribute name w.
Proof.
  intros Hn. rewrite show_after. unfold expandActiveLinks.
  rewrite (expandActiveLinks_keeps_bodyAttribute _ Hn).
  unfold showPrefix. rewrite bodyAttribute_bodyRemove, bodyAttribute_bodyAdd.
  simpl (map attrName _).
  repeat case_bool_decide; try reflexivity; exfalso;
    rewrite ?elem_of_cons, ?elem_of_nil in *; intuition congruence.
Qed.

Lemma show_flags w :
  flag BodyAttr.hidden (after show w) = false /\
  flag BodyAttr.hide (after show w) = false /\
  flag BodyAttr.pinned (after show w) = flag BodyAttr.pinned w /\
  flag BodyAttr.show (after show w) = bool_decide (body w < length (document w)).
Proof.
  rewrite !flag_bodyAttribute.
  rewrite !bodyAttribute_show by apply attrName_not_aria.
  cbn [attrName].
  split; [reflexivity|]. split; [reflexivity|]. split; [reflexivity|].
  rewrite (bool_decide_eq_false_2 (_ ∈ _))
    by (rewrite !elem_of_cons, elem_of_nil; intros [|[|]]; try discriminate; tauto).
  destruct (decide (body w < length (document w))) as [Hb|Hb].
  - rewrite (bool_decide_eq_true_2 (_ /\ _)) by auto.
    rewrite (bool_decide_eq_true_2 (body w < _)) by exact Hb.
    reflexivity.
  - rewrite (bool_decide_eq_false_2 (_ /\ _)) by tauto.
    rewrite (bool_decide_eq_false_2 (body w < _)) by exact Hb.
    unfold bodyAttribute. rewrite getAttribute_outside by lia.
    reflexivity.
Qed.

(** ** The world [pin()] and [unpin()] leave *)

Lemma stateSet_nothrow value : nothrow (stateSet value).
Proof. nothrow_writes. Qed.

Lemma pin_after w : after pin w = after show (pinPrefix w).
Proof.
  unfold pin.
  rewrite after_seq by apply stateSet_nothrow.
  rewrite after_seq by apply bodyAdd_nothrow.
  reflexivity.
Qed.

Lemma pin_fst w : fst (pin w) = fst (show (pinPrefix w)).
Proof.
  unfold pin.
  rewrite fst_seq by apply stateSet_nothrow.
  rewrite fst_seq by apply bodyAdd_nothrow.
  reflexivity.
Qed.

Lemma unpin_after w : after unpin w = after hide (after (stateSet false) w).
Proof. unfold unpin. rewrite after_seq by apply stateSet_nothrow. reflexivity. Qed.

Lemma pin_state w : state (after pin w) = mkNavState true.
Proof. rewrite pin_after, (show_keeps_state _). reflexivity. Qed.

Lemma unpin_state w : state (after unpin w) = mkNavState false.
Proof. rewrite unpin_after, (hide_keeps_state _). reflexivity. Qed.

Lemma pin_storeWrites w :
  storeWrites (after pin w) = storeWrites w ++ [StateSet true].
Proof.
  rewrite pin_after, (show_keeps_storeWrites _).
  unfold storeWrites, pinPrefix. rewrite trace_bodyAdd. simpl.
  rewrite !List.filter_app. simpl. rewrite app_nil_r. reflexivity.
Qed.

Lemma unpin_storeWrites w :
  storeWrites (after unpin w) = storeWrites w ++ [StateSet false].
Proof.
  rewrite unpin_after, (hide_keeps_storeWrites _).
  unfold storeWrites. simpl. rewrite List.filter_app. reflexivity.
Qed.

Lemma pin_flags w :
  flag BodyAttr.hidden (after pin w) = false /\
  flag BodyAttr.hide (after pin w) = false /\
  flag BodyAttr.pinned (after pin w) = bool_decide (body w < length (document w)) /\
  flag BodyAttr.show (after pin w) = bool_decide (body w < length (document w)).
Proof.
  rewrite pin_after.
  destruct (show_flags (pinPrefix w)) as (H1 & H2 & H3 & H4).
  rewrite H1, H2, H3, H4.
  assert (Hlen : length (document (pinPrefix w)) = length (document w)).
  { unfold pinPrefix. rewrite (bodyAdd_keeps_length _ _). reflexivity. }
  change (body (pinPrefix w)) with (body w). rewrite Hlen.
  split; [reflexivity|]. split; [reflexivity|]. split; [|reflexivity].
  unfold pinPrefix. rewrite flag_bodyAttribute, bodyAttribute_bodyAdd.
  simpl (map attrName _). cbn [attrName].
  change (body (after (stateSet true) w)) with (body w).
  change (length (document (after (stateSet true) w))) with (length (document w)).
  destruct (decide (body w < length (document w))) as [Hb|Hb].
  - rewrite (bool_decide_eq_true_2 (_ /\ _))
      by (split; [apply list_elem_of_here | exact Hb]).
    rewrite (bool_decide_eq_true_2 (body w < _)) by exact Hb.
    reflexivity.
  - rewrite (bool_decide_eq_false_2 (_ /\ _)) by tauto.
    rewrite (bool_decide_eq_false_2 (body w < _)) by exact Hb.
    unfold bodyAttribute. rewrite getAttribute_outside by (simpl; lia).
    reflexivity.
Qed.

Lemma unpin_flags w :
  flag BodyAttr.show (after unpin w) = false /\
  flag BodyAttr.hide (after unpin w) = false /\
  flag BodyAttr.pinned (after unpin w) = false /\
  flag BodyAttr.hidden (after unpin w) = bool_decide (body w < length (document w)).
Proof. rewrite unpin_after. exact (hide_flags (after (stateSet false) w)). Qed.

Lemma runCalls_app calls calls' w :
  runCalls (calls ++ calls') w = runCalls calls' (runCalls calls w).
Proof. apply fold_left_app. Qed.

(** ** The invariant of the body flags *)

Lemma flag_in_document attr w :
  flag attr w = true -> body w < length (document w).
Proof.
  unfold flag, hasAttribute. intros H. apply bool_decide_eq_true in H.
  destruct (decide (body w < length (document w))) as [Hb|Hb]; [exact Hb|].
  rewrite getAttribute_outside in H by lia. destruct H as [v [=]].
Qed.

(** Each of the four operations establishes the invariant, whatever the
    flags were before the call and however the call completes. *)
Lemma method_pinnedImpliesShown c w : pinnedImpliesShown (after (method c) w).
Proof.
  unfold pinnedImpliesShown. destruct c; simpl.
  - destruct (show_flags w) as (Hh & _ & Hp & Hs). rewrite Hh, Hp, Hs.
    intros H. apply flag_in_document in H.
    split; [apply bool_decide_eq_true_2, H | reflexivity].
  - destruct (hide_flags w) as (_ & _ & Hp & _). rewrite Hp. discriminate.
  - destruct (pin_flags w) as (Hh & _ & Hp & Hs). rewrite Hh, Hp, Hs. auto.
  - destruct (unpin_flags w) as (_ & _ & Hp & _). rewrite Hp. discriminate.
Qed.

(* ===================================================================== *)
(** * Properties of the visibility operations *)
(* ===================================================================== *)

(** C1.  [hide()] returns, and on its way it sets the flag [hide] and clears
    [pinned] and [show], then marks the link of every registered section
    collapsed (class [collapsed], [aria-expanded="false"]) and hides its
    panel, then clears [hide] and sets [hidden].  At return [hidden] is the
    one flag set among [show], [hide], [hidden], [pinned] is cleared, and
    every registered section is collapsed. *)
Theorem hide_collapses_and_hides (w : World) :
  wellFormed w ->
  fst (hide w) = Normal tt /\
  trace (after hide w) =
    trace w
    ++ [SetAttribute (body w) "data-sidenav-hide" "";
        RemoveAttribute (body w) "data-sidenav-pinned";
        RemoveAttribute (body w) "data-sidenav-show"]
    ++ flat_map (fun s : elem * Collapse =>
                   [ClassAdd s.1 "collapsed";
                    SetAttribute s.1 "aria-expanded" "false";
                    CollapseHide s.2]) (sections w)
    ++ [RemoveAttribute (body w) "data-sidenav-hide";
        SetAttribute (body w) "data-sidenav-hidden" ""] /\
  (forall link panel, (link, panel) ∈ sections w ->
     hasClass (document (after hide w)) link "collapsed" = true /\
     getAttribute (document (after hide w)) link "aria-expanded" = Some "false" /\
     panel ∉ shown (after hide w)) /\
  flag BodyAttr.hidden (after hide w) = true /\
  flag BodyAttr.show (after hide w) = false /\
  flag BodyAttr.hide (after hide w) = false /\
  flag BodyAttr.pinned (after hide w) = false.
Proof.
  intros Hwf. split; [apply nothrow_unit, hide_nothrow|].
  split; [apply hide_trace|]. split.
  - intros link panel Hin.
    apply (hide_collapses (link, panel) w Hin).
    apply (wellFormed_section w _ Hwf Hin).
  - destruct (hide_flags w) as (Hs & Hh & Hp & Hhid).
    rewrite Hs, Hh, Hp, Hhid. repeat split.
    apply bool_decide_eq_true_2, Hwf.
Qed.

(** C2.  After any sequence of [pin()] and [unpin()] calls, from any world,
    the persisted preference is the value of the most recent call: [true]
    after [pin()], [false] after [unpin()]. *)
Theorem persisted_preference_is_last_call (w : World) (calls : list PinCall)
    (last : PinCall) :
  pinned (state (runCalls (map toCall (calls ++ [last])) w)) = argument last.
Proof.
  rewrite map_app, runCalls_app. simpl.
  destruct last; simpl; [rewrite pin_state | rewrite unpin_state]; reflexivity.
Qed.

(** C3.  "Pinned implies shown" is preserved by the four visibility
    operations: after any sequence of [show()], [hide()], [pin()] and
    [unpin()] from a world that satisfies it, the flag [pinned] is set only
    together with [show], and not together with [hidden]. *)
Theorem pinned_implies_shown_preserved (w : World) (calls : list Call) :
  pinnedImpliesShown w ->
  flag BodyAttr.pinned (runCalls calls w) = true ->
  flag BodyAttr.show (runCalls calls w) = true /\
  flag BodyAttr.hidden (runCalls calls w) = false.
Proof.
  intros Hw. change (pinnedImpliesShown (runCalls calls w)).
  destruct calls as [|c calls] using rev_ind; [exact Hw|].
  rewrite runCalls_app. simpl. apply method_pinnedImpliesShown.
Qed.

(** C10.  [show()] and [hide()] leave the persisted [NavState] as it is and
    record no write to the store; [pin()] and [unpin()] each write it once,
    and no other method writes it but through them.  [show()] leaves the
    flag [pinned] as it was, [hide()] clears it. *)
Theorem store_written_by_pin_and_unpin_only (w : World) :
  (state (after show w) = state w /\ storeWrites (after show w) = storeWrites w) /\
  (state (after hide w) = state w /\ storeWrites (after hide w) = storeWrites w) /\
  (state (after pin w) = mkNavState true /\
   storeWrites (after pin w) = storeWrites w ++ [StateSet true]) /\
  (state (after unpin w) = mkNavState false /\
   storeWrites (after unpin w) = storeWrites w ++ [StateSet false]) /\
  ((forall link action, state (after (activateLink link action) w) = state w) /\
   (forall target, state (after (handleSectionClick target) w) = state w) /\
   state (after initSectionLinks w) = state w /\
   state (after initActiveLinks w) = state w /\
   state (after onEnter w) = state w /\
   state (after onLeave w) = state w /\
   state (after onMobileToggle w) = state w) /\
  flag BodyAttr.pinned (after show w) = flag BodyAttr.pinned w /\
  flag BodyAttr.pinned (after hide w) = false.
Proof.
  split; [split; [apply show_keeps_state | apply show_keeps_storeWrites]|].
  split; [split; [apply hide_keeps_state | apply hide_keeps_storeWrites]|].
  split; [split; [apply pin_state | apply pin_storeWrites]|].
  split; [split; [apply unpin_state | apply unpin_storeWrites]|].
  split.
  - destruct other_methods_keep_state as (H1 & H2 & H3 & H4 & H5 & H6 & H7).
    split; [intros; apply H1|]. split; [intros; apply H2|].
    split; [apply H3|]. split; [apply H4|]. split; [apply H5|].
    split; [apply H6 | apply H7].
  - split; [apply show_flags | apply hide_flags].
Qed.

(** ** Section clicks *)

Lemma closeInactiveSections_unfold :
  closeInactiveSections = (secs <- gets sections;; forOf secs closeIfInactive).
Proof. reflexivity. Qed.

Lemma closeIfInactive_nothrow s : nothrow (closeIfInactive s).
Proof. destruct s. unfold closeIfInactive. nothrow_writes. Qed.

Lemma closeIfInactive_inactive s target w :
  activeLink w = Some target -> s.1 <> target ->
  after (closeIfInactive s) w = after (collapseSection s) w.
Proof.
  destruct s as [l c]. simpl. intros Ha Hne.
  unfold closeIfInactive, collapseSection, after, bind, gets. rewrite Ha.
  rewrite bool_decide_eq_true_2 by congruence. reflexivity.
Qed.

Lemma closeIfInactive_active s target w :
  activeLink w = Some target -> s.1 = target ->
  after (closeIfInactive s) w = w.
Proof.
  destruct s as [l c]. simpl. intros Ha ->.
  unfold closeIfInactive, after, bind, gets. rewrite Ha.
  rewrite bool_decide_eq_false_2 by (intros H; apply H; reflexivity).
  reflexivity.
Qed.

Lemma closeIfInactive_preserves_collapsed s s' :
  preserves (sectionCollapsed s) (closeIfInactive s').
Proof. destruct s'. unfold closeIfInactive. stay_collapsed. Qed.

Lemma closeIfInactive_keeps_activeLink s : keeps activeLink (closeIfInactive s).
Proof. destruct s. unfold closeIfInactive. frame_field. Qed.

Lemma closeIfInactive_keeps_length s :
  keeps (fun w => length (document w)) (closeIfInactive s).
Proof. destruct s. unfold closeIfInactive. frame_length. Qed.

Lemma closeInactive_collapses target secs s w :
  activeLink w = Some target ->
  s ∈ secs -> s.1 <> target -> s.1 < length (document w) ->
  sectionCollapsed s (after (forOf secs closeIfInactive) w).
Proof.
  revert w. induction secs as [|s' secs IH]; intros w Ha Hin Hne Hl.
  - inversion Hin.
  - cbn [forOf]. rewrite after_seq by apply closeIfInactive_nothrow.
    destruct (decide (s ∈ secs)) as [Hs|Hs].
    + apply IH; try assumption.
      * rewrite (closeIfInactive_keeps_activeLink _ _). exact Ha.
      * rewrite (closeIfInactive_keeps_length _ _). exact Hl.
    + apply elem_of_cons in Hin as [->|Hin]; [|contradiction].
      apply preserves_forOf.
      * intros x. apply closeIfInactive_preserves_collapsed.
      * rewrite (closeIfInactive_inactive _ _ _ Ha Hne).
        apply collapseSection_collapses, Hl.
Qed.

Lemma handleSectionClick_after target w :
  after (handleSectionClick target) w =
    after (forOf (sections w) closeIfInactive)
          (setActiveLink (Some target) (record PreventDefault w)).
Proof. reflexivity. Qed.

Lemma handleSectionClick_keeps_sections target :
  keeps sections (handleSectionClick target).
Proof. frame_field. Qed.

Lemma handleSectionClick_keeps_length target :
  keeps (fun w => length (document w)) (handleSectionClick target).
Proof. frame_length. Qed.

Lemma handleSectionClick_keeps_body target : keeps body (handleSectionClick target).
Proof. frame_field. Qed.

Lemma handleSectionClick_activeLink target w :
  activeLink (after (handleSectionClick target) w) = Some target.
Proof.
  rewrite handleSectionClick_after.
  assert (K : keeps activeLink (forOf (sections w) closeIfInactive)).
  { apply keeps_preserves. intros v. apply preserves_forOf. intros s. revert v.
    apply keeps_preserves, closeIfInactive_keeps_activeLink. }
  rewrite K. reflexivity.
Qed.

(** One click collapses every registered section but the clicked one. *)
Lemma handleSectionClick_collapses target s w :
  s ∈ sections w -> s.1 <> target -> s.1 < length (document w) ->
  sectionCollapsed s (after (handleSectionClick target) w).
Proof.
  intros Hin Hne Hl. rewrite handleSectionClick_after.
  apply (closeInactive_collapses target); auto.
Qed.

Lemma mapGet_elem_of k v (m : list (elem * Collapse)) :
  mapGet k m = Some v -> (k, v) ∈ m.
Proof.
  induction m as [|[k' v'] m IH]; simpl; [discriminate|].
  case_bool_decide as Hk.
  - intros [= ->]. subst. apply list_elem_of_here.
  - intros H. apply list_elem_of_further, IH, H.
Qed.

(** When the target of each event is the link itself: for two distinct
    registered section links [A] and [B], after a click on [A] and then a
    click on [B], the link [A] carries the class [collapsed] and
    [aria-expanded="false"], its panel is hidden, and [activeLink] is [B];
    and each click collapses every registered section other than its
    target. *)
Lemma second_click_collapses_first (w : World) (A B : elem) (panelA panelB : Collapse) :
  wellFormed w ->
  mapGet A (sections w) = Some panelA ->
  mapGet B (sections w) = Some panelB ->
  A <> B ->
  let w1 := after (handleSectionClick A) w in
  let w2 := after (handleSectionClick B) w1 in
  fst (handleSectionClick A w) = Normal tt /\
  fst (handleSectionClick B w1) = Normal tt /\
  activeLink w2 = Some B /\
  hasClass (document w2) A "collapsed" = true /\
  getAttribute (document w2) A "aria-expanded" = Some "false" /\
  (panelA ∉ shown w2) /\
  (forall (w' : World) (target link : elem) (panel : Collapse),
     wellFormed w' -> (link, panel) ∈ sections w' -> link <> target ->
     sectionCollapsed (link, panel) (after (handleSectionClick target) w')).
Proof.
  intros Hwf HA HB Hne w1 w2.
  split; [apply nothrow_unit, handleSectionClick_nothrow|].
  split; [apply nothrow_unit, handleSectionClick_nothrow|].
  split; [apply handleSectionClick_activeLink|].
  assert (Hc : sectionCollapsed (A, panelA) w2).
  { apply handleSectionClick_collapses; [| exact Hne |].
    - unfold w1. rewrite (handleSectionClick_keeps_sections _ _).
      apply mapGet_elem_of, HA.
    - unfold w1. rewrite (handleSectionClick_keeps_length _ _).
      apply (wellFormed_section w (A, panelA) Hwf), mapGet_elem_of, HA. }
  destruct Hc as (H1 & H2 & H3). repeat (split; [assumption|]).
  intros w' target link panel Hwf' Hin Hne'.
  apply handleSectionClick_collapses; [exact Hin | exact Hne' |].
  apply (wellFormed_section w' (link, panel) Hwf' Hin).
Qed.

(** ** Resizing *)

Lemma run_nothrow (m : M unit) w : nothrow m -> m w = (Normal tt, after m w).
Proof. intros H. rewrite (run_eta m w), (nothrow_unit m w H). reflexivity. Qed.

Lemma onResizeTogglers_rendered togglers w :
  existsb (isRendered w) togglers = true ->
  onResizeTogglers togglers w =
    if bool_decide (currentMobileState w = Some true)
    then (Normal true, w)
    else (Normal true, setCurrentMobileState (Some true) (after hide w)).
Proof.
  induction togglers as [|t togglers IH]; simpl; [discriminate|].
  unfold isRendered at 1, bind at 1, gets at 1.
  destruct (document w !! t) as [el|]; simpl.
  - destruct (offsetParent el) as [p|]; simpl.
    + intros _. unfold bind, gets.
      destruct (currentMobileState w) as [[|]|]; simpl; try reflexivity;
        rewrite (run_nothrow hide w hide_nothrow); reflexivity.
    + exact IH.
  - exact IH.
Qed.

Lemma onResizeTogglers_none togglers w :
  existsb (isRendered w) togglers = false ->
  onResizeTogglers togglers w = (Normal false, w).
Proof.
  induction togglers as [|t togglers IH]; simpl; [reflexivity|].
  unfold isRendered at 1, bind at 1, gets at 1.
  destruct (document w !! t) as [el|]; simpl.
  - destruct (offsetParent el) as [p|]; simpl; [discriminate | exact IH].
  - exact IH.
Qed.

Lemma flag_setCurrentMobileState attr m w :
  flag attr (setCurrentMobileState m w) = flag attr w.
Proof. reflexivity. Qed.

Lemma onResize_mobile_run w :
  mobileLayout w = true ->
  onResize w =
    if bool_decide (currentMobileState w = Some true)
    then (Normal tt, w)
    else (Normal tt, setCurrentMobileState (Some true) (after hide w)).
Proof.
  intros Hm. unfold onResize, getElements.
  unfold bind at 1, gets at 1. unfold bind at 1.
  fold (mobileTogglers w).
  rewrite (onResizeTogglers_rendered _ _ Hm).
  case_bool_decide; reflexivity.
Qed.

(** C6.  When some mobile toggler is rendered, [onResize()] hides the nav
    through [hide()] and sets [currentMobileState] to [true] if it was [null]
    or [false]; if it was [true] already, the call changes nothing. *)
Theorem onResize_mobile (w : World) :
  mobileLayout w = true ->
  (currentMobileState w = Some true -> onResize w = (Normal tt, w)) /\
  (currentMobileState w <> Some true ->
     onResize w = (Normal tt, setCurrentMobileState (Some true) (after hide w)) /\
     currentMobileState (after onResize w) = Some true /\
     flag BodyAttr.show (after onResize w) = false /\
     flag BodyAttr.pinned (after onResize w) = false /\
     flag BodyAttr.hidden (after onResize w)
       = bool_decide (body w < length (document w))).
Proof.
  intros Hm. pose proof (onResize_mobile_run w Hm) as Hrun.
  split; intros Hc.
  - rewrite Hrun, bool_decide_eq_true_2 by exact Hc. reflexivity.
  - rewrite bool_decide_eq_false_2 in Hrun by exact Hc.
    split; [exact Hrun|]. unfold after at 1 2 3 4. rewrite Hrun.
    cbn [snd]. rewrite !flag_setCurrentMobileState.
    destruct (hide_flags w) as (Hs & _ & Hp & Hh).
    split; [reflexivity|]. split; [exact Hs|]. split; [exact Hp | exact Hh].
Qed.

Lemma onResize_desktop_run w :
  mobileLayout w = false ->
  currentMobileState w <> Some false ->
  onResize w =
    ((if pinned (state w) then pin else unpin);;;
     modify (setCurrentMobileState (Some false))) w.
Proof.
  intros Hm Hc. unfold onResize, getElements.
  unfold bind at 1, gets at 1. unfold bind at 1.
  fold (mobileTogglers w).
  rewrite (onResizeTogglers_none _ _ Hm).
  unfold bind at 1, gets at 1.
  destruct (currentMobileState w) as [[|]|]; try reflexivity.
  contradiction Hc. reflexivity.
Qed.

(** X24.  On a desktop layout (no mobile toggler rendered) with
    [currentMobileState] not [false]: when the persisted preference is
    [false], [unpin()] runs and [currentMobileState] becomes [false]; when
    it is [true], [pin()] runs, which leaves the nav shown and pinned, and
    [currentMobileState] becomes [false] if [pin()] returns, and keeps its
    value if [pin()] throws. *)
Theorem onResize_desktop (w : World) :
  mobileLayout w = false ->
  currentMobileState w <> Some false ->
  (pinned (state w) = false ->
     onResize w = (Normal tt, setCurrentMobileState (Some false) (after unpin w))) /\
  (pinned (state w) = true ->
     (fst (pin w) = Normal tt ->
        onResize w = (Normal tt, setCurrentMobileState (Some false) (after pin w))) /\
     (forall e, fst (pin w) = Throw e ->
        onResize w = (Throw e, after pin w) /\
        currentMobileState (after onResize w) = currentMobileState w) /\
     (body w < length (document w) ->
        flag BodyAttr.show (after onResize w) = true /\
        flag BodyAttr.pinned (after onResize w) = true /\
        flag BodyAttr.hidden (after onResize w) = false)).
Proof.
  intros Hm Hc. pose proof (onResize_desktop_run w Hm Hc) as Hrun.
  split; intros Hp; rewrite Hp in Hrun.
  - rewrite Hrun. unfold bind. rewrite (run_nothrow unpin w unpin_nothrow).
    reflexivity.
  - assert (R1 : fst (pin w) = Normal tt ->
                 onResize w = (Normal tt, setCurrentMobileState (Some false) (after pin w))).
    { intros Hr. rewrite Hrun. unfold bind. rewrite (run_eta pin w), Hr. reflexivity. }
    assert (R2 : forall e, fst (pin w) = Throw e -> onResize w = (Throw e, after pin w)).
    { intros e Hr. rewrite Hrun. unfold bind. rewrite (run_eta pin w), Hr. reflexivity. }
    split; [exact R1|]. split.
    + intros e Hr. split; [apply R2, Hr|].
      unfold after at 1. rewrite (R2 e Hr). cbn [snd].
      apply pin_keeps_currentMobileState.
    + intros Hb. destruct (pin_flags w) as (Hh & _ & Hpin & Hs).
      rewrite (bool_decide_eq_true_2 _ Hb) in Hpin, Hs.
      unfold after at 1 2 3.
      destruct (fst (pin w)) as [[]|e] eqn:Hr.
      * rewrite (R1 eq_refl). cbn [snd]. rewrite !flag_setCurrentMobileState.
        split; [exact Hs|]. split; [exact Hpin | exact Hh].
      * rewrite (R2 e eq_refl). cbn [snd].
        split; [exact Hs|]. split; [exact Hpin | exact Hh].
Qed.

(** C7.  The claim fails where [pin()] throws.  On a desktop layout with
    the preference set and [currentMobileState] not [false], [onResize()]
    calls [pin()], and [pin()] calls [show()], which throws when the URL
    of a navigation link is not a regular expression or the walk of
    [activateLink] reaches the root element; nothing catches the
    exception, and the assignment
<<
      this.currentMobileState = false;
>>
    that follows the call is never reached.  On [Demo.broken] the resize
    throws a [SyntaxError] with the nav shown and pinned and
    [currentMobileState] still [null], so that the next resize calls
    [pin()] again, and throws again; on [Demo.rootItem] it throws a
    [TypeError]. *)
Theorem onResize_throws_before_recording_desktop :
  (forall (w : World) (e : exn),
     mobileLayout w = false ->
     currentMobileState w <> Some false ->
     pinned (state w) = true ->
     fst (pin w) = Throw e ->
     fst (onResize w) = Throw e /\
     currentMobileState (after onResize w) = currentMobileState w /\
     currentMobileState (after onResize w) <> Some false) /\
  (mobileLayout Demo.broken = false /\
   currentMobileState Demo.broken = None /\
   pinned (state Demo.broken) = true /\
   fst (onResize Demo.broken) = Throw SyntaxError /\
   currentMobileState (after onResize Demo.broken) = None /\
   flag BodyAttr.show (after onResize Demo.broken) = true /\
   flag BodyAttr.pinned (after onResize Demo.broken) = true /\
   fst (onResize (after onResize Demo.broken)) = Throw SyntaxError) /\
  (mobileLayout Demo.rootItem = false /\
   currentMobileState Demo.rootItem = None /\
   pinned (state Demo.rootItem) = true /\
   fst (onResize Demo.rootItem) = Throw TypeError /\
   currentMobileState (after onResize Demo.rootItem) = None).
Proof.
  split; [|split].
  - intros w e Hm Hc Hp Hr.
    assert (Hrun : onResize w = (Throw e, after pin w)).
    { rewrite (onResize_desktop_run w Hm Hc), Hp. unfold bind.
      rewrite (run_eta pin w), Hr. reflexivity. }
    assert (Hk : currentMobileState (after onResize w) = currentMobileState w).
    { unfold after at 1. rewrite Hrun. cbn [snd]. apply pin_keeps_currentMobileState. }
    split; [rewrite Hrun; reflexivity|]. split; [exact Hk|].
    rewrite Hk. exact Hc.
  - repeat (split; [vm_compute; reflexivity|]). vm_compute. reflexivity.
  - repeat (split; [vm_compute; reflexivity|]). vm_compute. reflexivity.
Qed.

(** ** Walking up the tree *)

Lemma parentOf_lt doc e p : parentOf doc e = Some p -> p < e.
Proof.
  unfold parentOf. destruct (doc !! e) as [el|]; [|discriminate].
  destruct (parentElement el) as [q|]; [|discriminate].
  case_bool_decide; [|discriminate]. intros [= <-]. assumption.
Qed.

Lemma ancestorsUpTo_lt doc steps e :
  Forall (fun a => a < e) (ancestorsUpTo steps doc e).
Proof.
  revert e. induction steps as [|n IH]; intros e; simpl; [constructor|].
  destruct (parentOf doc e) as [p|] eqn:Hp; [|constructor].
  apply parentOf_lt in Hp. constructor; [exact Hp|].
  eapply Forall_impl; [apply IH|]. simpl. lia.
Qed.

Lemma ancestorsUpTo_enough doc steps e :
  e <= steps -> ancestorsUpTo steps doc e = ancestorsUpTo e doc e.
Proof.
  revert steps. induction e as [e IH] using lt_wf_ind. intros steps Hle.
  destruct steps as [|n], e as [|e']; simpl; try reflexivity; try lia.
  - destruct (parentOf doc 0) as [p|] eqn:Hp; [|reflexivity].
    apply parentOf_lt in Hp. lia.
  - destruct (parentOf doc (S e')) as [p|] eqn:Hp; [|reflexivity].
    apply parentOf_lt in Hp.
    rewrite (IH p) by lia. rewrite (IH p (ltac:(lia)) e') by lia. reflexivity.
Qed.

(** The chain of ancestors is the parent followed by its own chain: the
    bound on the number of steps is never met. *)
Lemma ancestors_unfold doc e :
  ancestors doc e =
    match parentOf doc e with
    | Some p => p :: ancestors doc p
    | None => []
    end.
Proof.
  unfold ancestors. destruct e as [|e']; simpl.
  - destruct (parentOf doc 0) as [p|] eqn:Hp; [|reflexivity].
    apply parentOf_lt in Hp. lia.
  - destruct (parentOf doc (S e')) as [p|] eqn:Hp; [|reflexivity].
    apply parentOf_lt in Hp.
    rewrite (ancestorsUpTo_enough doc e' p) by lia. reflexivity.
Qed.

Lemma ancestors_lt doc e : Forall (fun a => a < e) (ancestors doc e).
Proof. apply ancestorsUpTo_lt. Qed.

Lemma closest_le doc e sel x : closest doc e sel = Some x -> x <= e.
Proof.
  unfold closest. intros H. apply find_some in H as [Hin _].
  destruct Hin as [<-|Hin]; [lia|].
  pose proof (ancestors_lt doc e) as Hlt. rewrite Forall_forall in Hlt.
  apply list_elem_of_In, Hlt in Hin. lia.
Qed.

Lemma navItemLoop_enough doc steps navItem :
  navItem <= steps -> navItemLoop steps doc navItem = navItemLoop navItem doc navItem.
Proof.
  revert steps. induction navItem as [e IH] using lt_wf_ind. intros steps Hle.
  destruct steps as [|n], e as [|e']; simpl; try reflexivity; try lia.
  - destruct (parentOf doc 0) as [p|] eqn:Hp; [|reflexivity].
    apply parentOf_lt in Hp. lia.
  - destruct (parentOf doc (S e')) as [p|] eqn:Hp; [|reflexivity].
    apply parentOf_lt in Hp.
    destruct (closest doc p navItemSelector) as [x|] eqn:Hx; [|reflexivity].
    apply closest_le in Hx.
    rewrite (IH x) by lia. rewrite (IH x (ltac:(lia)) e') by lia. reflexivity.
Qed.

(** The loop of [activateLink], as the source writes it: the bound on the
    number of turns is never met. *)
Lemma outermostNavItem_unfold doc navItem :
  outermostNavItem doc navItem =
    match parentOf doc navItem with
    | None => Throw TypeError
    | Some parent =>
        match closest doc parent navItemSelector with
        | None => Normal navItem
        | Some nextItem => outermostNavItem doc nextItem
        end
    end.
Proof.
  unfold outermostNavItem. destruct navItem as [|e']; simpl.
  - destruct (parentOf doc 0) as [p|] eqn:Hp; [|reflexivity].
    apply parentOf_lt in Hp. lia.
  - destruct (parentOf doc (S e')) as [p|] eqn:Hp; [|reflexivity].
    apply parentOf_lt in Hp.
    destruct (closest doc p navItemSelector) as [x|] eqn:Hx; [|reflexivity].
    apply closest_le in Hx.
    rewrite (navItemLoop_enough doc e' x) by lia. reflexivity.
Qed.

(** What a query returns is in the document. *)
Lemma querySelectorAll_lt doc root sel e :
  e ∈ querySelectorAll doc root sel -> e < length doc.
Proof.
  unfold querySelectorAll. rewrite list_elem_of_In, filter_In, in_seq. lia.
Qed.

Lemma groupLinkOf_lt doc navItem g :
  groupLinkOf doc navItem = Some g -> g < length doc.
Proof.
  unfold groupLinkOf, querySelector. intros H.
  apply (querySelectorAll_lt doc navItem groupLinkSelector).
  destruct (querySelectorAll doc navItem groupLinkSelector) as [|x l];
    [discriminate|].
  injection H as ->. apply list_elem_of_here.
Qed.

(** ** What the selectors select *)

Lemma compoundMatches_class doc scope e c :
  compoundMatches doc scope e [Class c] = hasClass doc e c.
Proof.
  unfold compoundMatches, hasClass. simpl. unfold simpleMatches.
  destruct (doc !! e); simpl; [apply andb_true_r | reflexivity].
Qed.

(** The descendant combinator: some ancestor matches the compound, and the
    rest of the selector matches above it. *)
Lemma leftMatches_descendant doc scope c rest ancs :
  leftMatches doc scope ((Descendant, c) :: rest) ancs = true <->
  exists pre a post,
    ancs = pre ++ a :: post /\
    compoundMatches doc scope a c = true /\
    leftMatches doc scope rest post = true.
Proof.
  induction ancs as [|a ancs IH].
  - split; [discriminate|]. intros (pre & a & post & H & _).
    destruct pre; discriminate H.
  - change (leftMatches doc scope ((Descendant, c) :: rest) (a :: ancs))
      with ((compoundMatches doc scope a c && leftMatches doc scope rest ancs)
            || leftMatches doc scope ((Descendant, c) :: rest) ancs).
    rewrite orb_true_iff, andb_true_iff, IH. split.
    + intros [[H1 H2]|(pre & x & post & -> & H1 & H2)].
      * exists [], a, ancs. auto.
      * exists (a :: pre), x, post. auto.
    + intros (pre & x & post & Heq & H1 & H2). destruct pre as [|p pre].
      * injection Heq as -> ->. left. auto.
      * injection Heq as -> ->. right. exists pre, x, post. auto.
Qed.

(** The child combinator: the parent matches the compound, and the rest of
    the selector matches above it. *)
Lemma leftMatches_child doc scope c rest ancs :
  leftMatches doc scope ((Child, c) :: rest) ancs = true <->
  exists a post,
    ancs = a :: post /\
    compoundMatches doc scope a c = true /\
    leftMatches doc scope rest post = true.
Proof.
  destruct ancs as [|a ancs]; simpl.
  - split; [discriminate|]. intros (a & post & [=] & _).
  - rewrite andb_true_iff. split.
    + intros [H1 H2]. exists a, ancs. auto.
    + intros (x & post & [= -> ->] & H1 & H2). auto.
Qed.

(** A navigation link is an [a.nav-link] below a [.nav-item] below a [.nav]
    below a [.navbar-nav]. *)
Lemma matches_navLinkSelector doc scope e :
  matches doc scope navLinkSelector e = true <->
  (exists el, doc !! e = Some el /\ localName el = "a" /\ "nav-link" ∈ classList el) /\
  exists above item between nav between' bar beyond,
    ancestors doc e = above ++ item :: between ++ nav :: between' ++ bar :: beyond /\
    hasClass doc item "nav-item" = true /\
    hasClass doc nav "nav" = true /\
    hasClass doc bar "navbar-nav" = true.
Proof.
  unfold matches, navLinkSelector. cbn [subject leftwards].
  rewrite andb_true_iff. apply Morphisms_Prop.and_iff_morphism.
  - unfold compoundMatches, simpleMatches. simpl.
    destruct (doc !! e) as [el|]; simpl.
    + rewrite andb_true_r, andb_true_iff, !bool_decide_eq_true. split.
      * intros [H1 H2]. eauto.
      * intros (el' & [= <-] & H1 & H2). auto.
    + split; [discriminate|]. intros (el & [=] & _).
  - rewrite leftMatches_descendant. split.
    + intros (above & item & post & -> & Hi & H).
      apply leftMatches_descendant in H as (between & nav & post' & -> & Hn & H).
      apply leftMatches_descendant in H as (between' & bar & beyond & -> & Hb & _).
      rewrite compoundMatches_class in Hi, Hn, Hb.
      exists above, item, between, nav, between', bar, beyond. auto.
    + intros (above & item & between & nav & between' & bar & beyond & -> & Hi & Hn & Hb).
      exists above, item, (between ++ nav :: between' ++ bar :: beyond).
      split; [reflexivity|]. rewrite compoundMatches_class. split; [exact Hi|].
      apply leftMatches_descendant.
      exists between, nav, (between' ++ bar :: beyond).
      split; [reflexivity|]. rewrite compoundMatches_class. split; [exact Hn|].
      apply leftMatches_descendant.
      exists between', bar, beyond.
      split; [reflexivity|]. rewrite compoundMatches_class. auto.
Qed.

(** The group link of a nav item is a child of the nav item that carries the
    class [nav-link], and the first such child in document order. *)
Lemma matches_groupLinkSelector doc navItem e :
  matches doc (Some navItem) groupLinkSelector e = true <->
  hasClass doc e "nav-link" = true /\ parentOf doc e = Some navItem /\
  navItem < length doc.
Proof.
  unfold matches, groupLinkSelector. cbn [subject leftwards].
  rewrite andb_true_iff, compoundMatches_class, leftMatches_child.
  apply and_iff_compat_l. rewrite ancestors_unfold. split.
  - intros (a & post & Heq & Hs & _).
    destruct (parentOf doc e) as [p|]; [|discriminate].
    injection Heq as <- _.
    unfold compoundMatches, simpleMatches in Hs. simpl in Hs.
    destruct (doc !! p) as [el|] eqn:Hp; [|discriminate].
    rewrite andb_true_r in Hs. apply bool_decide_eq_true in Hs as [= ->].
    split; [reflexivity|]. apply lookup_lt_Some in Hp. exact Hp.
  - intros [-> Hlt]. exists navItem, (ancestors doc navItem).
    split; [reflexivity|]. split; [|reflexivity].
    unfold compoundMatches, simpleMatches. simpl.
    apply lookup_lt_is_Some in Hlt as [el ->].
    rewrite andb_true_r. apply bool_decide_eq_true. reflexivity.
Qed.

Lemma head_filter_seq (f : nat -> bool) start len g :
  head (List.filter f (seq start len)) = Some g ->
  f g = true /\ start <= g < start + len /\
  forall e, start <= e < g -> f e = false.
Proof.
  revert start. induction len as [|len IH]; intros start; simpl; [discriminate|].
  destruct (f start) eqn:Hf; simpl.
  - intros [= <-]. split; [exact Hf|]. split; [lia|]. intros e He. lia.
  - intros H. apply IH in H as (Hg & Hr & Hbefore).
    split; [exact Hg|]. split; [lia|]. intros e He.
    destruct (decide (e = start)) as [->|Hne]; [exact Hf|]. apply Hbefore. lia.
Qed.

Lemma groupLinkOf_child doc navItem g :
  groupLinkOf doc navItem = Some g ->
  hasClass doc g "nav-link" = true /\ parentOf doc g = Some navItem /\
  forall e, e < g ->
    ~ (hasClass doc e "nav-link" = true /\ parentOf doc e = Some navItem).
Proof.
  unfold groupLinkOf, querySelector, querySelectorAll. intros H.
  apply head_filter_seq in H as (Hg & _ & Hbefore).
  apply andb_true_iff in Hg as [_ Hg].
  apply matches_groupLinkSelector in Hg as (Hc & Hp & Hlt).
  split; [exact Hc|]. split; [exact Hp|].
  intros e He [Hec Hep]. specialize (Hbefore e (ltac:(lia))).
  apply andb_false_iff in Hbefore as [Hb|Hb].
  - apply bool_decide_eq_false in Hb. apply Hb.
    rewrite ancestors_unfold, Hep. apply list_elem_of_here.
  - assert (Hm : matches doc (Some navItem) groupLinkSelector e = true)
      by (apply matches_groupLinkSelector; auto).
    congruence.
Qed.

Lemma matches_navItemSelector doc scope e :
  matches doc scope navItemSelector e = hasClass doc e "nav-item".
Proof.
  unfold matches, navItemSelector. cbn [subject leftwards leftMatches].
  rewrite andb_true_r. apply compoundMatches_class.
Qed.

Lemma ancestors_trans doc e x a :
  x ∈ ancestors doc e -> a ∈ ancestors doc x -> a ∈ ancestors doc e.
Proof.
  induction e as [e IH] using lt_wf_ind. rewrite (ancestors_unfold doc e).
  destruct (parentOf doc e) as [p|] eqn:Hp; [|intros H; inversion H].
  apply parentOf_lt in Hp. intros Hx Ha.
  apply elem_of_cons in Hx as [->|Hx].
  - apply list_elem_of_further, Ha.
  - apply list_elem_of_further, (IH p Hp Hx Ha).
Qed.

(** What the walk of [activateLink] arrives at, when it returns: the link
    itself or one of the nav items around it, with no nav item around it in
    turn, and with a parent element. *)
Lemma outermostNavItem_outermost doc link navItem :
  outermostNavItem doc link = Normal navItem ->
  (navItem = link \/
   navItem ∈ ancestors doc link /\ hasClass doc navItem "nav-item" = true) /\
  Forall (fun a => hasClass doc a "nav-item" = false) (ancestors doc navItem) /\
  is_Some (parentOf doc navItem).
Proof.
  induction link as [link IH] using lt_wf_ind.
  rewrite outermostNavItem_unfold.
  destruct (parentOf doc link) as [p|] eqn:Hp; [|discriminate].
  destruct (closest doc p navItemSelector) as [x|] eqn:Hx.
  - intros H. unfold closest in Hx. apply find_some in Hx as [Hin Hm].
    rewrite matches_navItemSelector in Hm.
    assert (Hanc : x ∈ ancestors doc link).
    { rewrite ancestors_unfold, Hp. apply list_elem_of_In, Hin. }
    assert (Hlt : x < link).
    { pose proof (ancestors_lt doc link) as Hall. rewrite Forall_forall in Hall.
      apply Hall, Hanc. }
    destruct (IH x Hlt H) as ([->|[Ha Hc]] & Hnone & Hpar).
    + split; [right; auto|]. split; assumption.
    + split; [right; split; [apply (ancestors_trans doc link x); assumption|exact Hc]|].
      split; assumption.
  - intros [= <-]. split; [left; reflexivity|]. split; [|rewrite Hp; eauto].
    rewrite ancestors_unfold, Hp. unfold closest in Hx.
    apply Forall_forall. intros a Ha.
    pose proof (find_none _ _ Hx a (proj1 (list_elem_of_In _ _) Ha)) as Hf.
    rewrite matches_navItemSelector in Hf. exact Hf.
Qed.

(** The walk returns when the link has a parent element and every nav item
    around it has one: in a document, when the root element is no nav
    item. *)
Lemma outermostNavItem_returns doc link :
  is_Some (parentOf doc link) ->
  (forall a, a ∈ ancestors doc link -> hasClass doc a "nav-item" = true ->
             is_Some (parentOf doc a)) ->
  exists navItem, outermostNavItem doc link = Normal navItem.
Proof.
  induction link as [link IH] using lt_wf_ind. intros [p Hp] Hall.
  rewrite outermostNavItem_unfold, Hp.
  destruct (closest doc p navItemSelector) as [x|] eqn:Hx; [|eauto].
  unfold closest in Hx. apply find_some in Hx as [Hin Hm].
  rewrite matches_navItemSelector in Hm.
  assert (Hanc : x ∈ ancestors doc link).
  { rewrite ancestors_unfold, Hp. apply list_elem_of_In, Hin. }
  assert (Hlt : x < link).
  { pose proof (ancestors_lt doc link) as Hlt. rewrite Forall_forall in Hlt.
    apply Hlt, Hanc. }
  apply (IH x Hlt); [apply Hall; assumption|].
  intros a Ha Hc. apply Hall; [|exact Hc].
  apply (ancestors_trans doc link x); assumption.
Qed.

Lemma elem_of_navLinks w link :
  link ∈ navLinks w <->
  link < length (document w) /\
  base w ∈ ancestors (document w) link /\
  matches (document w) (Some (base w)) navLinkSelector link = true.
Proof.
  unfold navLinks, querySelectorAll.
  rewrite list_elem_of_In, filter_In, in_seq, andb_true_iff, bool_decide_eq_true.
  intuition lia.
Qed.

(** ** Activating a link *)

Lemma activateLink_found w link action navItem groupLink collapse_ :
  outermostNavItem (document w) link = Normal navItem ->
  groupLinkOf (document w) navItem = Some groupLink ->
  mapGet groupLink (sections w) = Some collapse_ ->
  activateLink link action w = activateGroup link groupLink collapse_ action w.
Proof.
  intros Hn Hg Hc. unfold activateLink.
  unfold bind at 1, gets at 1. rewrite Hn, Hg.
  unfold bind at 1, gets at 1. rewrite Hc. reflexivity.
Qed.

Lemma activateGroup_nothrow link g c action : nothrow (activateGroup link g c action).
Proof. unfold activateGroup. nothrow_writes. Qed.

Lemma activateGroup_trace link g c action w :
  trace (after (activateGroup link g c action) w) =
    trace w ++ ClassAdd g "active" :: actionEffects link g c action.
Proof.
  destruct action; unfold after; simpl; rewrite <- !app_assoc; reflexivity.
Qed.

Lemma activateGroup_active link g c action w :
  g < length (document w) ->
  hasClass (document (after (activateGroup link g c action) w)) g "active" =
    match action with
    | expand => true
    | collapse => negb (bool_decide (link = g))
    end.
Proof.
  intros Hg. destruct action; unfold after; simpl.
  - rewrite hasClass_tokenRemove, hasClass_tokenAdd, hasClass_alter_attributes,
      hasClass_tokenAdd.
    rewrite (bool_decide_eq_true_2 (g = g /\ _)) by auto.
    rewrite (bool_decide_eq_false_2 (_ /\ "collapsed" = _))
      by (intros [_ [=]]).
    rewrite orb_true_r. reflexivity.
  - rewrite hasClass_tokenAdd, hasClass_tokenRemove, hasClass_alter_attributes,
      hasClass_tokenAdd.
    rewrite (bool_decide_eq_true_2 (g = g /\ _)) by auto.
    rewrite (bool_decide_eq_false_2 (_ /\ "collapsed" = _ /\ _))
      by (intros (_ & [=] & _)).
    rewrite orb_true_r, orb_false_r. simpl.
    f_equal. apply bool_decide_ext. intuition.
Qed.

(** The two guards of [activateLink]: when the walk up from the link ends
    at a nav item under which no group link is found, or the group link has
    no registered section, the call returns and mutates nothing. *)
Lemma activateLink_noop (w : World) (link : elem) (action : Action) (navItem : elem) :
  outermostNavItem (document w) link = Normal navItem ->
  (groupLinkOf (document w) navItem = None \/
   exists groupLink,
     groupLinkOf (document w) navItem = Some groupLink /\
     mapGet groupLink (sections w) = None) ->
  activateLink link action w = (Normal tt, w).
Proof.
  intros Hn Hg. unfold activateLink.
  unfold bind at 1, gets at 1. rewrite Hn.
  destruct Hg as [Hg|(g & Hg & Hc)]; rewrite Hg; [reflexivity|].
  unfold bind at 1, gets at 1. rewrite Hc. reflexivity.
Qed.

(** Where the walk meets an element without a parent element, the call
    throws, and mutates nothing either. *)
Lemma activateLink_throws w link action e :
  outermostNavItem (document w) link = Throw e ->
  activateLink link action w = (Throw e, w).
Proof.
  intros Hn. unfold activateLink.
  unfold bind at 1, gets at 1. rewrite Hn. reflexivity.
Qed.

(** The walk throws exactly when it arrives at a nav item that has no
    parent element, which in a document is the root element. *)
Lemma outermostNavItem_root doc navItem :
  parentOf doc navItem = None -> outermostNavItem doc navItem = Throw TypeError.
Proof. intros H. rewrite outermostNavItem_unfold, H. reflexivity. Qed.

(** C8.  The call is not always a silent no-op when no group link is found:
    [navItem.parentElement] is dereferenced unguarded (the sibling
    [initSectionLinks] tests [section.parentElement !== null]).  On
    [Demo.rootItem] the nav items around the active link 9 are 8, 4 and the
    root element 0; there is no group link under the outermost of them;
    and [activateLink(link, action)] throws a [TypeError] instead of
    returning, for both actions, as does the constructor of the widget.
    Nothing is mutated by the call. *)
Theorem activateLink_throws_at_root_item :
  List.filter (matches Demo.rootItemPage None navItemSelector)
              (ancestors Demo.rootItemPage 9) = [8; 4; 0] /\
  groupLinkOf Demo.rootItemPage 0 = None /\
  activateLink 9 expand Demo.rootItem = (Throw TypeError, Demo.rootItem) /\
  activateLink 9 collapse Demo.rootItem = (Throw TypeError, Demo.rootItem) /\
  fst (constructor Demo.rootItem) = Throw TypeError.
Proof.
  assert (Hn : outermostNavItem (document Demo.rootItem) 9 = Throw TypeError)
    by (vm_compute; reflexivity).
  split; [vm_compute; reflexivity|].
  split; [vm_compute; reflexivity|].
  split; [apply activateLink_throws, Hn|].
  split; [apply activateLink_throws, Hn|].
  vm_compute. reflexivity.
Qed.

(** C9 as stated (whenever a registered section is found for the group
    link, the group link ends with the class [active], for both actions)
    fails when the link to collapse is the group link itself: on
    [Demo.nested] the link of the section is a navigation link, it matches
    the location, and [collapse] removes the class it has just added.  The
    constructor makes that very call, and leaves the group link without the
    class. *)
Lemma collapse_of_group_link_removes_active :
  fst (activeLinks Demo.nested) = Normal [6] /\
  hasClass (document (after constructor Demo.nestedFresh)) 6 "active" = false /\
  ~ (forall navItem groupLink collapse_,
       outermostNavItem (document Demo.nested) 6 = Normal navItem ->
       groupLinkOf (document Demo.nested) navItem = Some groupLink ->
       mapGet groupLink (sections Demo.nested) = Some collapse_ ->
       hasClass (document (after (activateLink 6 collapse) Demo.nested))
                groupLink "active" = true).
Proof.
  split; [vm_compute; reflexivity|].
  split; [vm_compute; reflexivity|].
  intros H. specialize (H 5 6 7).
  assert (H1 : outermostNavItem (document Demo.nested) 6 = Normal 5)
    by (vm_compute; reflexivity).
  assert (H2 : groupLinkOf (document Demo.nested) 5 = Some 6)
    by (vm_compute; reflexivity).
  assert (H3 : mapGet 6 (sections Demo.nested) = Some 7)
    by (vm_compute; reflexivity).
  specialize (H H1 H2 H3). vm_compute in H. discriminate H.
Qed.

(** C9, amended.  Whenever a registered section is found for the group
    link, [activateLink] adds the class [active] to the group link before
    it performs the action, for both actions; the group link ends with the
    class [active] after [expand], and after [collapse] unless the link
    being collapsed is the group link itself, in which case the class is
    removed again. *)
Theorem activateLink_active (w : World) (link : elem) (action : Action)
    (navItem groupLink : elem) (collapse_ : Collapse) :
  outermostNavItem (document w) link = Normal navItem ->
  groupLinkOf (document w) navItem = Some groupLink ->
  mapGet groupLink (sections w) = Some collapse_ ->
  fst (activateLink link action w) = Normal tt /\
  trace (after (activateLink link action) w) =
    trace w ++ ClassAdd groupLink "active"
            :: actionEffects link groupLink collapse_ action /\
  hasClass (document (after (activateLink link action) w)) groupLink "active" =
    match action with
    | expand => true
    | collapse => negb (bool_decide (link = groupLink))
    end.
Proof.
  intros Hn Hg Hc.
  pose proof (activateLink_found w link action _ _ _ Hn Hg Hc) as Hrun.
  unfold after. rewrite Hrun.
  split; [apply nothrow_unit, activateGroup_nothrow|].
  split; [apply activateGroup_trace|].
  apply activateGroup_active. apply (groupLinkOf_lt _ _ _ Hg).
Qed.

(** What a click records: the call of [preventDefault], then the collapse
    of every registered section whose link is not the target. *)
Lemma collapseSection_trace s w :
  trace (after (collapseSection s) w) = trace w ++ collapseEffects s.
Proof.
  pose proof (trace_collapseSections [s] w) as H. cbn [forOf flat_map] in H.
  rewrite app_nil_r in H. rewrite <- H. unfold after, bind.
  destruct (collapseSection s w) as [[[]|e] w']; reflexivity.
Qed.

Lemma closeInactive_trace target secs w :
  activeLink w = Some target ->
  trace (after (forOf secs closeIfInactive) w) =
    trace w ++ flat_map collapseEffects
                 (List.filter (fun s : elem * Collapse => bool_decide (s.1 <> target)) secs).
Proof.
  revert w. induction secs as [|s secs IH]; intros w Ha.
  { symmetry. apply app_nil_r. }
  cbn [forOf List.filter]. rewrite after_seq by apply closeIfInactive_nothrow.
  rewrite IH by (rewrite (closeIfInactive_keeps_activeLink _ _); exact Ha).
  destruct (decide (s.1 = target)) as [Heq|Hne].
  - rewrite (closeIfInactive_active _ _ _ Ha Heq).
    rewrite bool_decide_eq_false_2 by (intros H; exact (H Heq)). reflexivity.
  - rewrite (closeIfInactive_inactive _ _ _ Ha Hne), collapseSection_trace.
    rewrite bool_decide_eq_true_2 by exact Hne.
    cbn [flat_map]. rewrite <- app_assoc. reflexivity.
Qed.

Lemma handleSectionClick_trace target w :
  trace (after (handleSectionClick target) w) =
    trace w ++ PreventDefault
            :: flat_map collapseEffects
                 (List.filter (fun s : elem * Collapse => bool_decide (s.1 <> target))
                              (sections w)).
Proof.
  rewrite handleSectionClick_after, (closeInactive_trace target) by reflexivity.
  cbn [trace setActiveLink record]. rewrite <- app_assoc. reflexivity.
Qed.

Lemma writtenSince_app w added :
  forall w', trace w' = trace w ++ added -> writtenSince (trace w) w' = added.
Proof. intros w' H. unfold writtenSince. rewrite H. apply drop_app_length. Qed.

(** C4.  The claim fails for a click that lands inside the link.  The
    handler takes [event.target] for the link it listens on:
<<
    const element = event.target as HTMLAnchorElement;
    this.activeLink = element;
>>
    but the target of a click on the content of a link is the element
    clicked, a descendant of the link.  For every registered section link
    [B] and every target inside [B], [activeLink] becomes the target, not
    [B], and the handler collapses the section of [B] itself with the
    others: it marks [B] collapsed and calls [hide()] on its controller.
    On [titled], after a click on the link 5 and a click on the title 13
    of the link 12, [activeLink] is 13 and the handler has collapsed the
    section of 12; a click on the link 12 itself leaves that section
    alone, as the claim says. *)
Theorem click_inside_section_link_misses_the_link :
  (forall (w : World) (B target : elem) (panelB : Collapse),
     wellFormed w ->
     mapGet B (sections w) = Some panelB ->
     B ∈ ancestors (document w) target ->
     let w' := after (handleSectionClick target) w in
     fst (handleSectionClick target w) = Normal tt /\
     activeLink w' = Some target /\ activeLink w' <> Some B /\
     hasClass (document w') B "collapsed" = true /\
     getAttribute (document w') B "aria-expanded" = Some "false" /\
     ClassAdd B "collapsed" ∈ writtenSince (trace w) w' /\
     CollapseHide panelB ∈ writtenSince (trace w) w') /\
  (let w1 := after (handleSectionClick 5) titled in
   let w2 := after (handleSectionClick 13) w1 in
   sections titled = [(5, 7); (12, 14)] /\
   parentOf (document w1) 13 = Some 12 /\
   activeLink w2 = Some 13 /\
   hasClass (document w2) 12 "collapsed" = true /\
   writtenSince (trace w1) w2 =
     [PreventDefault;
      ClassAdd 5 "collapsed"; SetAttribute 5 "aria-expanded" "false"; CollapseHide 7;
      ClassAdd 12 "collapsed"; SetAttribute 12 "aria-expanded" "false"; CollapseHide 14] /\
   activeLink (after (handleSectionClick 12) w1) = Some 12 /\
   writtenSince (trace w1) (after (handleSectionClick 12) w1) =
     [PreventDefault;
      ClassAdd 5 "collapsed"; SetAttribute 5 "aria-expanded" "false"; CollapseHide 7]).
Proof.
  split.
  - intros w B target panelB Hwf HB Hanc w'.
    assert (Hne : B <> target).
    { pose proof (ancestors_lt (document w) target) as Hlt.
      rewrite Forall_forall in Hlt. specialize (Hlt B Hanc). lia. }
    assert (Hin : (B, panelB) ∈ sections w) by apply mapGet_elem_of, HB.
    assert (Ha : activeLink w' = Some target) by apply handleSectionClick_activeLink.
    destruct (handleSectionClick_collapses target (B, panelB) w Hin Hne
                (wellFormed_section w (B, panelB) Hwf Hin)) as (Hc & He & _).
    assert (Hw : writtenSince (trace w) w' =
                 PreventDefault
                 :: flat_map collapseEffects
                      (List.filter (fun s : elem * Collapse => bool_decide (s.1 <> target))
                                   (sections w)))
      by apply writtenSince_app, handleSectionClick_trace.
    assert (Heff : forall ev, ev ∈ collapseEffects (B, panelB) ->
                              ev ∈ writtenSince (trace w) w').
    { intros ev Hev. rewrite Hw. apply list_elem_of_further.
      apply list_elem_of_In, in_flat_map. exists (B, panelB). split.
      - apply filter_In. split; [apply list_elem_of_In, Hin|].
        apply bool_decide_eq_true_2. exact Hne.
      - apply list_elem_of_In, Hev. }
    split; [apply nothrow_unit, handleSectionClick_nothrow|].
    split; [exact Ha|]. split; [rewrite Ha; congruence|].
    split; [exact Hc|]. split; [exact He|].
    split; apply Heff; unfold collapseEffects; cbn [fst snd].
    + apply list_elem_of_here.
    + apply list_elem_of_further, list_elem_of_further, list_elem_of_here.
  - cbn zeta.
    split; [vm_compute; reflexivity|].
    split; [vm_compute; reflexivity|].
    split; [vm_compute; reflexivity|].
    split; [vm_compute; reflexivity|].
    split; [vm_compute; reflexivity|].
    split; vm_compute; reflexivity.
Qed.

(** ** The active links *)

Lemma activeLinks_unfold w : activeLinks w = scanLinks (navLinks w) collect [] w.
Proof. reflexivity. Qed.

Lemma scanLinks_collect links acc w :
  Forall (compiles w) links ->
  scanLinks links collect acc w = (Normal (acc ++ List.filter (isActive w) links), w).
Proof.
  revert acc. induction links as [|link links IH]; intros acc Hall; simpl.
  - rewrite app_nil_r. reflexivity.
  - apply Forall_cons in Hall as [[re Hre] Hall].
    unfold bind at 1, matchesLocation at 1, isActive at 1. rewrite Hre.
    destruct (re (location_href w)); simpl.
    + unfold bind at 1, collect at 1, ret at 1. rewrite (IH _ Hall).
      rewrite <- app_assoc. reflexivity.
    + unfold bind at 1, ret at 1. rewrite (IH _ Hall). reflexivity.
Qed.

Lemma scanLinks_collect_throws links acc w :
  Exists (fun link => regExp w (hrefOf w link) = None) links ->
  scanLinks links collect acc w = (Throw SyntaxError, w).
Proof.
  revert acc. induction links as [|link links IH]; intros acc Hex; simpl.
  - inversion Hex.
  - unfold bind at 1, matchesLocation at 1.
    destruct (regExp w (hrefOf w link)) as [re|] eqn:Hre; [|reflexivity].
    apply Exists_cons in Hex as [Hex|Hex]; [congruence|].
    destruct (re (location_href w)).
    + unfold bind at 1, collect at 1, ret at 1. apply IH, Hex.
    + unfold bind at 1, ret at 1. apply IH, Hex.
Qed.

Lemma scanLinks_collect_pure links acc w :
  after (scanLinks links collect acc) w = w.
Proof.
  assert (P : preserves (fun w' => w' = w) (scanLinks links collect acc)).
  { apply preserves_scanLinks. intros link a w' ->. reflexivity. }
  apply P. reflexivity.
Qed.

Lemma StronglySorted_lt_seq start len : StronglySorted lt (seq start len).
Proof.
  revert start. induction len as [|len IH]; intros start; simpl; constructor.
  - apply IH.
  - apply Forall_forall. intros x Hx. apply list_elem_of_In, in_seq in Hx. lia.
Qed.

Lemma StronglySorted_lt_filter (f : nat -> bool) l :
  StronglySorted lt l -> StronglySorted lt (List.filter f l).
Proof.
  induction 1 as [|a l Hs IH Hall]; simpl; [constructor|].
  destruct (f a); [|exact IH]. constructor; [exact IH|].
  rewrite Forall_forall in *. intros x Hx.
  apply list_elem_of_In, filter_In in Hx as [Hx _]. apply Hall, list_elem_of_In, Hx.
Qed.

Lemma navLinks_sorted w : StronglySorted lt (navLinks w).
Proof. apply StronglySorted_lt_filter, StronglySorted_lt_seq. Qed.

(** X23.  A call of [getActiveLinks()] mutates nothing, and calling
    it again, any number of times, gives the same result.  When the URL of
    every navigation link is a regular expression, it yields exactly the
    navigation links whose URL matches the location, in document order;
    when the URL of some navigation link is not, the scan throws a
    [SyntaxError]. *)
Theorem getActiveLinks_yields (w : World) :
  after activeLinks w = w /\
  (forall n, activeLinks (Nat.iter n (after activeLinks) w) = activeLinks w) /\
  (Forall (compiles w) (navLinks w) ->
     fst (activeLinks w) = Normal (List.filter (isActive w) (navLinks w)) /\
     (forall link,
        link ∈ List.filter (isActive w) (navLinks w) <->
        link ∈ navLinks w /\ isActive w link = true) /\
     StronglySorted lt (List.filter (isActive w) (navLinks w))) /\
  (Exists (fun link => regExp w (hrefOf w link) = None) (navLinks w) ->
     fst (activeLinks w) = Throw SyntaxError).
Proof.
  assert (Hpure : after activeLinks w = w).
  { unfold after. rewrite activeLinks_unfold. apply scanLinks_collect_pure. }
  split; [exact Hpure|]. split.
  - intros n. induction n as [|n IH]; [reflexivity|].
    simpl. remember (Nat.iter n (after activeLinks) w) as w' eqn:Hw'.
    assert (Hpure' : after activeLinks w' = w').
    { unfold after. rewrite activeLinks_unfold. apply scanLinks_collect_pure. }
    rewrite Hpure'. exact IH.
  - split.
    + intros Hall. rewrite activeLinks_unfold, (scanLinks_collect _ _ _ Hall).
      split; [reflexivity|]. split.
      * intros link. rewrite list_elem_of_In, filter_In, <- list_elem_of_In.
        reflexivity.
      * apply StronglySorted_lt_filter, navLinks_sorted.
    + intros Hex. rewrite activeLinks_unfold, (scanLinks_collect_throws _ _ _ Hex).
      reflexivity.
Qed.

(** C5.  The claim fails where the URL of a navigation link is not a
    regular expression.  The generator builds
<<
    const href = new RegExp(link.href, 'gi');
>>
    from the URL as it is, with nothing escaped and no exception caught.
    Whenever the runtime rejects the URL of some navigation link as a
    pattern, the call throws a [SyntaxError] and produces no sequence,
    whatever links match the location.  On [Demo.broken], at the "devices"
    list, the link 9 has the URL [http://nb/sites/(all]; the link 15 of the
    "devices" list matches the location and is never yielded: the call
    throws at the link 9, and so do [show()] and the constructor, which
    leave the link 15 without the class [active]. *)
Theorem getActiveLinks_throws_before_matching_link :
  (forall (w : World) (bad link : elem),
     bad ∈ navLinks w -> regExp w (hrefOf w bad) = None ->
     link ∈ navLinks w -> isActive w link = true ->
     fst (activeLinks w) = Throw SyntaxError /\
     ~ (exists links, fst (activeLinks w) = Normal links /\ link ∈ links)) /\
  (navLinks Demo.broken = [9; 15] /\
   hrefOf Demo.broken 9 = "http://nb/sites/(all" /\
   regExp Demo.broken (hrefOf Demo.broken 9) = None /\
   isActive Demo.broken 15 = true /\
   fst (activeLinks Demo.broken) = Throw SyntaxError /\
   fst (show Demo.broken) = Throw SyntaxError /\
   fst (constructor Demo.broken) = Throw SyntaxError /\
   hasClass (document (after constructor Demo.broken)) 15 "active" = false).
Proof.
  split.
  - intros w bad link Hbad Hre Hlink Hact.
    assert (Hthrow : fst (activeLinks w) = Throw SyntaxError).
    { rewrite activeLinks_unfold, scanLinks_collect_throws; [reflexivity|].
      apply Exists_exists. exists bad. split; [exact Hbad | exact Hre]. }
    split; [exact Hthrow|]. intros (links & H & _). congruence.
  - repeat (split; [vm_compute; reflexivity|]). vm_compute. reflexivity.
Qed.

(** ** Well-formed worlds are what the widget lives in *)

Ltac keep_wellFormed :=
  preserves_writes; unfold wellFormed in *; simpl in *;
  rewrite ?length_alter; assumption.

Lemma hide_preserves_wellFormed : preserves wellFormed hide.
Proof. keep_wellFormed. Qed.

Lemma show_preserves_wellFormed : preserves wellFormed show.
Proof. keep_wellFormed. Qed.

Lemma pin_preserves_wellFormed : preserves wellFormed pin.
Proof. keep_wellFormed. Qed.

Lemma unpin_preserves_wellFormed : preserves wellFormed unpin.
Proof. keep_wellFormed. Qed.

Lemma handleSectionClick_preserves_wellFormed target :
  preserves wellFormed (handleSectionClick target).
Proof. keep_wellFormed. Qed.

Lemma initActiveLinks_preserves_wellFormed : preserves wellFormed initActiveLinks.
Proof. keep_wellFormed. Qed.

Lemma onResizeTogglers_preserves_wellFormed togglers :
  preserves wellFormed (onResizeTogglers togglers).
Proof.
  induction togglers as [|t togglers IH]; simpl.
  - apply preserves_ret.
  - apply preserves_bind; [apply preserves_gets|]. intros [p|]; [|exact IH].
    apply preserves_bind; [apply preserves_gets|]. intros mobile.
    apply preserves_bind; [|intros; apply preserves_ret].
    destruct (_ || _); [|apply preserves_ret].
    apply preserves_bind; [apply hide_preserves_wellFormed|]. intros _.
    apply preserves_modify. intros w H. exact H.
Qed.

Lemma onResize_preserves_wellFormed : preserves wellFormed onResize.
Proof.
  unfold onResize.
  apply preserves_bind; [apply preserves_gets|]. intros togglers.
  apply preserves_bind; [apply onResizeTogglers_preserves_wellFormed|].
  intros [|]; [apply preserves_ret|].
  apply preserves_bind; [apply preserves_gets|]. intros mobile.
  destruct (_ || _); [|apply preserves_ret].
  apply preserves_bind; [apply preserves_gets|]. intros pinned_.
  apply preserves_bind.
  - destruct pinned_; [apply pin_preserves_wellFormed | apply unpin_preserves_wellFormed].
  - intros _. apply preserves_modify. intros w H. exact H.
Qed.

Lemma mapSet_Forall (P : elem * Collapse -> Prop) k v m :
  P (k, v) -> Forall P m -> Forall P (mapSet k v m).
Proof.
  intros Hk. induction 1 as [|[k' v'] m Hx Hm IH]; simpl.
  - constructor; [exact Hk | constructor].
  - case_bool_decide; constructor; assumption.
Qed.

Lemma documentQuerySelectorAll_lt doc sel e :
  e ∈ documentQuerySelectorAll doc sel -> e < length doc.
Proof.
  unfold documentQuerySelectorAll. rewrite list_elem_of_In, filter_In, in_seq. lia.
Qed.

Lemma preserves_forOf_Forall {X} I (xs : list X) (body : X -> M unit) :
  Forall (fun x => preserves I (body x)) xs -> preserves I (forOf xs body).
Proof.
  induction 1 as [|x xs Hx Hxs IH]; simpl.
  - apply preserves_ret.
  - apply preserves_bind; auto.
Qed.

(** [initSectionLinks()] registers elements of the document only. *)
Lemma initSectionLinks_preserves_wellFormed : preserves wellFormed initSectionLinks.
Proof.
  intros w Hw.
  set (I := fun w' => wellFormed w' /\ length (document w') = length (document w)).
  assert (P : preserves I initSectionLinks); [|apply P; split; auto].
  unfold initSectionLinks. intros w0 Hw0. rewrite after_bind.
  cbn [getElements gets fst].
  change (after (gets ?f) w0) with w0.
  apply preserves_forOf_Forall; [|exact Hw0].
  apply Forall_forall. intros section Hs.
  destruct Hw0 as [_ Hlen0].
  apply documentQuerySelectorAll_lt in Hs. rewrite Hlen0 in Hs.
  repeat preserves_step.
  match goal with H : I _ |- _ => destruct H as [[Hb Hsec] Hlen] end.
  split; [split|]; simpl; [exact Hb| |exact Hlen].
  apply mapSet_Forall; [|exact Hsec]. simpl. lia.
Qed.

(** The constructor leaves a well-formed world on every page that has a
    body, however it completes. *)
Lemma constructor_wellFormed w :
  body w < length (document w) -> wellFormed (after constructor w).
Proof.
  intros Hb. unfold constructor.
  rewrite after_seq by apply nothrow_modify.
  rewrite after_seq by apply nothrow_modify.
  rewrite after_seq by apply nothrow_modify.
  assert (P : preserves wellFormed (init;;; initSectionLinks;;; initActiveLinks)).
  { apply preserves_bind; [apply onResize_preserves_wellFormed|]. intros _.
    apply preserves_bind; [apply initSectionLinks_preserves_wellFormed|]. intros _.
    apply initActiveLinks_preserves_wellFormed. }
  apply P. split; [exact Hb | constructor].
Qed.

(* ===================================================================== *)
(** * The properties at work on the concrete page *)
(* ===================================================================== *)

Lemma loaded_wellFormed mobile pinned_ : wellFormed (Demo.loaded mobile pinned_).
Proof. apply constructor_wellFormed. vm_compute. lia. Qed.

(** [hide()] on the loaded desktop page, where the "sites" section is
    expanded. *)
Lemma hide_collapses_and_hides_witness :
  wellFormed (Demo.loaded false true) /\
  flag BodyAttr.hidden (after hide (Demo.loaded false true)) = true /\
  flag BodyAttr.pinned (after hide (Demo.loaded false true)) = false.
Proof.
  assert (Hwf : wellFormed (Demo.loaded false true)).
  { split; [vm_compute; lia|]. vm_compute. repeat (constructor; [lia|]). constructor. }
  split; [exact Hwf|].
  destruct (hide_collapses_and_hides (Demo.loaded false true) Hwf)
    as (_ & _ & _ & Hh & _ & _ & Hp).
  split; [exact Hh | exact Hp].
Defined.

(** [hide()] then [pin()] on the loaded desktop page. *)
Lemma pinned_implies_shown_preserved_witness :
  pinnedImpliesShown (Demo.loaded false true) /\
  flag BodyAttr.pinned (runCalls [callHide; callPin] (Demo.loaded false true)) = true /\
  flag BodyAttr.show (runCalls [callHide; callPin] (Demo.loaded false true)) = true /\
  flag BodyAttr.hidden (runCalls [callHide; callPin] (Demo.loaded false true)) = false.
Proof.
  assert (Hinv : pinnedImpliesShown (Demo.loaded false true)).
  { intros _. split; vm_compute; reflexivity. }
  assert (Hp : flag BodyAttr.pinned
                 (runCalls [callHide; callPin] (Demo.loaded false true)) = true)
    by (vm_compute; reflexivity).
  split; [exact Hinv|]. split; [exact Hp|].
  exact (pinned_implies_shown_preserved (Demo.loaded false true)
           [callHide; callPin] Hinv Hp).
Defined.

(** A click on "sites", then a click on "devices". *)
Lemma second_click_collapses_first_witness :
  wellFormed (Demo.loaded false true) /\
  activeLink (after (handleSectionClick 11)
                (after (handleSectionClick 5) (Demo.loaded false true))) = Some 11 /\
  hasClass (document (after (handleSectionClick 11)
                        (after (handleSectionClick 5) (Demo.loaded false true))))
           5 "collapsed" = true.
Proof.
  assert (Hwf : wellFormed (Demo.loaded false true)).
  { split; [vm_compute; lia|]. vm_compute. repeat (constructor; [lia|]). constructor. }
  assert (HA : mapGet 5 (sections (Demo.loaded false true)) = Some 6)
    by (vm_compute; reflexivity).
  assert (HB : mapGet 11 (sections (Demo.loaded false true)) = Some 12)
    by (vm_compute; reflexivity).
  assert (Hne : 5 <> 11) by lia.
  split; [exact Hwf|].
  destruct (second_click_collapses_first (Demo.loaded false true) 5 11 6 12
              Hwf HA HB Hne) as (_ & _ & Ha & Hc & _).
  split; [exact Ha | exact Hc].
Defined.

(** The first resize on a page in the mobile layout. *)
Lemma onResize_mobile_witness :
  mobileLayout (Demo.fresh true true) = true /\
  currentMobileState (after onResize (Demo.fresh true true)) = Some true.
Proof.
  assert (Hm : mobileLayout (Demo.fresh true true) = true) by (vm_compute; reflexivity).
  assert (Hc : currentMobileState (Demo.fresh true true) <> Some true) by discriminate.
  split; [exact Hm|].
  destruct (onResize_mobile (Demo.fresh true true) Hm) as [_ H].
  destruct (H Hc) as (_ & H' & _). exact H'.
Defined.

(** The first resize on a page in the desktop layout, with the preference
    persisted as pinned. *)
Lemma onResize_desktop_witness :
  mobileLayout (Demo.fresh false true) = false /\
  onResize (Demo.fresh false true) =
    (Normal tt, setCurrentMobileState (Some false) (after pin (Demo.fresh false true))).
Proof.
  assert (Hm : mobileLayout (Demo.fresh false true) = false) by (vm_compute; reflexivity).
  assert (Hc : currentMobileState (Demo.fresh false true) <> Some false) by discriminate.
  assert (Hp : pinned (state (Demo.fresh false true)) = true) by reflexivity.
  assert (Hr : fst (pin (Demo.fresh false true)) = Normal tt) by (vm_compute; reflexivity).
  split; [exact Hm|].
  destruct (onResize_desktop (Demo.fresh false true) Hm Hc) as [_ H].
  destruct (H Hp) as (H' & _). exact (H' Hr).
Defined.

(** Before the sections are registered, activating the link of the "sites"
    list does nothing. *)
Example activateLink_noop_fresh :
  activateLink 9 expand (Demo.fresh false true) = (Normal tt, Demo.fresh false true).
Proof.
  assert (Hn : outermostNavItem (document (Demo.fresh false true)) 9 = Normal 4)
    by (vm_compute; reflexivity).
  apply (activateLink_noop (Demo.fresh false true) 9 expand 4 Hn).
  right. exists 5. split; vm_compute; reflexivity.
Qed.

(** Collapsing the active link of the loaded mobile page. *)
Lemma activateLink_active_witness :
  hasClass (document (after (activateLink 9 collapse) (Demo.loaded true true)))
           5 "active" = true.
Proof.
  assert (Hn : outermostNavItem (document (Demo.loaded true true)) 9 = Normal 4)
    by (vm_compute; reflexivity).
  assert (Hg : groupLinkOf (document (Demo.loaded true true)) 4 = Some 5)
    by (vm_compute; reflexivity).
  assert (Hc : mapGet 5 (sections (Demo.loaded true true)) = Some 6)
    by (vm_compute; reflexivity).
  destruct (activateLink_active (Demo.loaded true true) 9 collapse 4 5 6 Hn Hg Hc)
    as (_ & _ & H).
  exact H.
Defined.

(** The scenario of a container with two sections, at the location of a
    link of the first: once constructed (desktop layout, pinned), the group
    link of the first section is active and its panel shown, the active
    link is marked, and the panel of the second section is not shown. *)
Example construction_scenario :
  fst (constructor (Demo.fresh false true)) = Normal tt /\
  hasClass (document (Demo.loaded false true)) 5 "active" = true /\
  getAttribute (document (Demo.loaded false true)) 5 "aria-expanded" = Some "true" /\
  hasClass (document (Demo.loaded false true)) 9 "active" = true /\
  shown (Demo.loaded false true) = {[6]} /\
  currentMobileState (Demo.loaded false true) = Some false.
Proof. repeat split; vm_compute; reflexivity. Qed.

(** The same page on a small screen: the constructor hides the nav and
    collapses the active section. *)
Example construction_scenario_mobile :
  fst (constructor (Demo.fresh true true)) = Normal tt /\
  flag BodyAttr.hidden (Demo.loaded true true) = true /\
  hasClass (document (Demo.loaded true true)) 5 "collapsed" = true /\
  getAttribute (document (Demo.loaded true true)) 5 "aria-expanded" = Some "false" /\
  shown (Demo.loaded true true) = ∅ /\
  currentMobileState (Demo.loaded true true) = Some true.
Proof. repeat split; vm_compute; reflexivity. Qed.

(** The active links of the loaded desktop page. *)
Lemma getActiveLinks_yields_witness :
  Forall (compiles (Demo.loaded false true)) (navLinks (Demo.loaded false true)) /\
  fst (activeLinks (Demo.loaded false true)) =
    Normal (List.filter (isActive (Demo.loaded false true))
                        (navLinks (Demo.loaded false true))).
Proof.
  assert (Hall : Forall (compiles (Demo.loaded false true))
                        (navLinks (Demo.loaded false true))).
  { apply Forall_forall. intros link Hin.
    assert (Hl : link ∈ [9; 15]) by (vm_compute in Hin; exact Hin).
    apply elem_of_cons in Hl as [->|Hl];
      [|apply elem_of_cons in Hl as [->|Hl]; [|inversion Hl]];
      unfold compiles; vm_compute; eexists; reflexivity. }
  split; [exact Hall|].
  destruct (getActiveLinks_yields (Demo.loaded false true)) as (_ & _ & H & _).
  destruct (H Hall) as [H' _]. exact H'.
Defined.

(* ===================================================================== *)
(** * Further properties of the class *)
(* ===================================================================== *)

(** ** The flag helpers *)

Lemma elem_of_map_attrName attr attrs :
  attrName attr ∈ map attrName attrs <-> attr ∈ attrs.
Proof.
  rewrite list_elem_of_In, in_map_iff. split.
  - intros (a & Ha & Hin). apply attrName_inj in Ha as ->.
    apply list_elem_of_In, Hin.
  - intros H. exists attr. split; [reflexivity | apply list_elem_of_In, H].
Qed.

Lemma flag_bodyAdd attrs attr w :
  body w < length (document w) ->
  flag attr (after (bodyAdd attrs) w) = flag attr w || bool_decide (attr ∈ attrs).
Proof.
  intros Hb. rewrite !flag_bodyAttribute, bodyAttribute_bodyAdd.
  destruct (decide (attr ∈ attrs)) as [Hin|Hin].
  - rewrite (bool_decide_eq_true_2 (_ /\ _))
      by (split; [apply elem_of_map_attrName, Hin | exact Hb]).
    rewrite (bool_decide_eq_true_2 (attr ∈ attrs)) by exact Hin.
    rewrite orb_true_r. reflexivity.
  - rewrite (bool_decide_eq_false_2 (_ /\ _))
      by (intros [H _]; apply Hin, elem_of_map_attrName, H).
    rewrite (bool_decide_eq_false_2 (attr ∈ attrs)) by exact Hin.
    rewrite orb_false_r. reflexivity.
Qed.

Lemma flag_bodyRemove attrs attr w :
  flag attr (after (bodyRemove attrs) w) =
    flag attr w && negb (bool_decide (attr ∈ attrs)).
Proof.
  rewrite !flag_bodyAttribute, bodyAttribute_bodyRemove.
  destruct (decide (attr ∈ attrs)) as [Hin|Hin].
  - rewrite (bool_decide_eq_true_2 (_ ∈ map _ _))
      by (apply elem_of_map_attrName, Hin).
    rewrite (bool_decide_eq_true_2 (attr ∈ attrs)) by exact Hin.
    rewrite andb_false_r. reflexivity.
  - rewrite (bool_decide_eq_false_2 (_ ∈ map _ _))
      by (intros H; apply Hin, elem_of_map_attrName, H).
    rewrite (bool_decide_eq_false_2 (attr ∈ attrs)) by exact Hin.
    rewrite andb_true_r. reflexivity.
Qed.

(** X1.  [bodyAdd], [bodyRemove] and [bodyHas] read and write the flags
    they name and no others: after [bodyAdd(...attrs)] a flag is set when
    it was set or is among [attrs]; after [bodyRemove(...attrs)] it is set
    when it was set and is not among [attrs]; [bodyHas] reads without
    writing, and none of the three throws. *)
Theorem body_flags_follow_add_and_remove (w : World) (attrs : list BodyAttr.t)
    (attr : BodyAttr.t) :
  body w < length (document w) ->
  flag attr (after (bodyAdd attrs) w) = flag attr w || bool_decide (attr ∈ attrs) /\
  flag attr (after (bodyRemove attrs) w) =
    flag attr w && negb (bool_decide (attr ∈ attrs)) /\
  bodyHas attr w = (Normal (flag attr w), w) /\
  fst (bodyAdd attrs w) = Normal tt /\
  fst (bodyRemove attrs w) = Normal tt.
Proof.
  intros Hb.
  split; [apply flag_bodyAdd, Hb|]. split; [apply flag_bodyRemove|].
  split; [reflexivity|].
  split; [apply nothrow_unit, bodyAdd_nothrow | apply nothrow_unit, bodyRemove_nothrow].
Qed.

(** ** Showing, pinning and unpinning *)

(** X2.  [show()] ends with the flag [show] set and both [hide] and
    [hidden] cleared, also when it throws while it re-expands the active
    links. *)
Theorem show_sets_show_only (w : World) :
  body w < length (document w) ->
  flag BodyAttr.show (after show w) = true /\
  flag BodyAttr.hide (after show w) = false /\
  flag BodyAttr.hidden (after show w) = false.
Proof.
  intros Hb. destruct (show_flags w) as (Hh & Hhide & _ & Hs).
  rewrite Hs, Hh, Hhide. split; [apply bool_decide_eq_true_2, Hb|]. auto.
Qed.

(** X3.  [pin()] leaves the nav shown and pinned ([pinned] and [show] set,
    [hide] and [hidden] cleared) and [unpin()] leaves it hidden and
    unpinned ([hidden] alone set); either way the flag [pinned] agrees
    with the preference the call has persisted. *)
Theorem pin_and_unpin_flags (w : World) :
  body w < length (document w) ->
  (flag BodyAttr.pinned (after pin w) = true /\
   flag BodyAttr.show (after pin w) = true /\
   flag BodyAttr.hide (after pin w) = false /\
   flag BodyAttr.hidden (after pin w) = false /\
   flag BodyAttr.pinned (after pin w) = pinned (state (after pin w))) /\
  (flag BodyAttr.pinned (after unpin w) = false /\
   flag BodyAttr.show (after unpin w) = false /\
   flag BodyAttr.hide (after unpin w) = false /\
   flag BodyAttr.hidden (after unpin w) = true /\
   flag BodyAttr.pinned (after unpin w) = pinned (state (after unpin w))).
Proof.
  intros Hb.
  destruct (pin_flags w) as (P1 & P2 & P3 & P4).
  destruct (unpin_flags w) as (U1 & U2 & U3 & U4).
  rewrite (bool_decide_eq_true_2 _ Hb) in P3, P4, U4.
  rewrite P1, P2, P3, P4, U1, U2, U3, U4, pin_state, unpin_state.
  repeat split.
Qed.

(** ** The toggles *)

Lemma onToggle_after w :
  after onToggle w =
    after (if pinned (state w) then unpin else pin) (record PreventDefault w).
Proof.
  unfold onToggle. rewrite after_seq by apply nothrow_modify.
  rewrite after_bind. reflexivity.
Qed.

Lemma onToggle_state w :
  pinned (state (after onToggle w)) = negb (pinned (state w)).
Proof.
  rewrite onToggle_after.
  destruct (pinned (state w)); [rewrite unpin_state | rewrite pin_state]; reflexivity.
Qed.

(** X4.  [onToggle] flips the persisted preference, also when [pin()]
    throws, so that two toggles restore it; and it leaves the nav as the
    new preference says: shown and pinned when it is [true], hidden and
    unpinned when it is [false]. *)
Theorem onToggle_flips_preference (w : World) :
  body w < length (document w) ->
  pinned (state (after onToggle w)) = negb (pinned (state w)) /\
  pinned (state (after onToggle (after onToggle w))) = pinned (state w) /\
  flag BodyAttr.pinned (after onToggle w) = negb (pinned (state w)) /\
  flag BodyAttr.show (after onToggle w) = negb (pinned (state w)) /\
  flag BodyAttr.hidden (after onToggle w) = pinned (state w) /\
  flag BodyAttr.hide (after onToggle w) = false.
Proof.
  intros Hb. split; [apply onToggle_state|].
  split; [rewrite !onToggle_state; apply negb_involutive|].
  rewrite onToggle_after.
  assert (Hb' : body (record PreventDefault w)
                < length (document (record PreventDefault w))) by exact Hb.
  destruct (pinned (state w)).
  - destruct (unpin_flags (record PreventDefault w)) as (U1 & U2 & U3 & U4).
    rewrite (bool_decide_eq_true_2 _ Hb') in U4. rewrite U1, U2, U3, U4. repeat split.
  - destruct (pin_flags (record PreventDefault w)) as (P1 & P2 & P3 & P4).
    rewrite (bool_decide_eq_true_2 _ Hb') in P3, P4. rewrite P1, P2, P3, P4. repeat split.
Qed.

Lemma onMobileToggle_after w :
  after onMobileToggle w =
    after (if flag BodyAttr.show w then hide else show) (record PreventDefault w).
Proof.
  unfold onMobileToggle. rewrite after_seq by apply nothrow_modify.
  rewrite after_bind. reflexivity.
Qed.

(** X5.  [onMobileToggle] flips the flag [show] and sets [hidden] to its
    opposite, whatever the pinned state; it never writes the persisted
    preference, and it clears the flag [pinned] when it hides. *)
Theorem onMobileToggle_flips_show (w : World) :
  body w < length (document w) ->
  flag BodyAttr.show (after onMobileToggle w) = negb (flag BodyAttr.show w) /\
  flag BodyAttr.hidden (after onMobileToggle w) = flag BodyAttr.show w /\
  flag BodyAttr.hide (after onMobileToggle w) = false /\
  flag BodyAttr.pinned (after onMobileToggle w) =
    flag BodyAttr.pinned w && negb (flag BodyAttr.show w) /\
  state (after onMobileToggle w) = state w /\
  storeWrites (after onMobileToggle w) = storeWrites w.
Proof.
  intros Hb. rewrite onMobileToggle_after.
  assert (Hb' : body (record PreventDefault w)
                < length (document (record PreventDefault w))) by exact Hb.
  assert (Hsw : storeWrites (record PreventDefault w) = storeWrites w).
  { unfold storeWrites. simpl. rewrite List.filter_app. simpl.
    apply app_nil_r. }
  destruct (flag BodyAttr.show w) eqn:Hshow.
  - destruct (hide_flags (record PreventDefault w)) as (H1 & H2 & H3 & H4).
    rewrite (bool_decide_eq_true_2 _ Hb') in H4.
    rewrite H1, H2, H3, H4, (hide_keeps_state _), (hide_keeps_storeWrites _), Hsw.
    rewrite andb_false_r. repeat split.
  - destruct (show_flags (record PreventDefault w)) as (H1 & H2 & H3 & H4).
    rewrite (bool_decide_eq_true_2 _ Hb') in H4.
    rewrite H1, H2, H3, H4, (show_keeps_state _), (show_keeps_storeWrites _), Hsw.
    rewrite andb_true_r. repeat split.
Qed.

(** ** Hovering *)

(** What the two hover handlers run: nothing in the mobile layout or
    while the nav is pinned, [show()] and [hide()] otherwise. *)
Lemma hover_run w :
  onEnter w =
    (if bool_decide (currentMobileState w = Some true) || flag BodyAttr.pinned w
     then (Normal tt, w) else show w) /\
  onLeave w =
    (if bool_decide (currentMobileState w = Some true) || flag BodyAttr.pinned w
     then (Normal tt, w) else hide w).
Proof.
  unfold onEnter, onLeave. unfold bind at 1 3, gets at 1 2.
  case_bool_decide as Hm; simpl.
  - split; reflexivity.
  - unfold bind at 1 2, bodyHas, gets. fold (flag BodyAttr.pinned w).
    destruct (flag BodyAttr.pinned w); split; reflexivity.
Qed.

(** X6.  In the mobile layout, and while the nav is pinned, [onEnter] and
    [onLeave] do nothing at all: they return the world as it is. *)
Theorem hover_suppressed (w : World) :
  currentMobileState w = Some true \/ flag BodyAttr.pinned w = true ->
  onEnter w = (Normal tt, w) /\ onLeave w = (Normal tt, w).
Proof.
  intros H. destruct (hover_run w) as [He Hl]. rewrite He, Hl.
  destruct H as [H|H].
  - rewrite (bool_decide_eq_true_2 _ H). split; reflexivity.
  - rewrite H, orb_true_r. split; reflexivity.
Qed.

(** X7.  On an unpinned nav outside the mobile layout, hovering previews
    the nav: [onEnter] is [show()], which shows the nav without pinning
    it, so that the [onLeave] that follows is not suppressed and is
    [hide()]: it leaves the flag [hidden] set and [show] cleared, marks the
    link of every registered section collapsed (class [collapsed],
    [aria-expanded="false"]) and calls [hide()] on the controller of each,
    and the persisted preference is never written. *)
Theorem hover_previews (w : World) :
  wellFormed w ->
  currentMobileState w <> Some true ->
  flag BodyAttr.pinned w = false ->
  let w1 := after onEnter w in
  let w2 := after onLeave w1 in
  onEnter w = show w /\
  flag BodyAttr.show w1 = true /\ flag BodyAttr.pinned w1 = false /\
  onLeave w1 = hide w1 /\
  flag BodyAttr.hidden w2 = true /\ flag BodyAttr.show w2 = false /\
  (forall link panel, (link, panel) ∈ sections w ->
     hasClass (document w2) link "collapsed" = true /\
     getAttribute (document w2) link "aria-expanded" = Some "false") /\
  writtenSince (trace w1) w2 =
    [SetAttribute (body w) "data-sidenav-hide" "";
     RemoveAttribute (body w) "data-sidenav-pinned";
     RemoveAttribute (body w) "data-sidenav-show"]
    ++ flat_map (fun s : elem * Collapse =>
                   [ClassAdd s.1 "collapsed";
                    SetAttribute s.1 "aria-expanded" "false";
                    CollapseHide s.2]) (sections w)
    ++ [RemoveAttribute (body w) "data-sidenav-hide";
        SetAttribute (body w) "data-sidenav-hidden" ""] /\
  state w2 = state w.
Proof.
  intros Hwf Hm Hp w1 w2.
  assert (He : onEnter w = show w).
  { destruct (hover_run w) as [He _]. rewrite He, Hp.
    rewrite (bool_decide_eq_false_2 _ Hm). reflexivity. }
  assert (Hw1 : w1 = after show w) by (unfold w1, after; rewrite He; reflexivity).
  destruct (show_flags w) as (_ & _ & Hpin & Hshow).
  rewrite (bool_decide_eq_true_2 _ (proj1 Hwf)) in Hshow.
  assert (Hp1 : flag BodyAttr.pinned w1 = false) by (rewrite Hw1, Hpin; exact Hp).
  assert (Hm1 : currentMobileState w1 <> Some true).
  { rewrite Hw1, (show_keeps_currentMobileState _). exact Hm. }
  assert (Hl : onLeave w1 = hide w1).
  { destruct (hover_run w1) as [_ Hl]. rewrite Hl, Hp1.
    rewrite (bool_decide_eq_false_2 _ Hm1). reflexivity. }
  assert (Hw2 : w2 = after hide w1) by (unfold w2, after; rewrite Hl; reflexivity).
  assert (Hwf1 : wellFormed w1) by (rewrite Hw1; apply show_preserves_wellFormed, Hwf).
  assert (Hsec : sections w1 = sections w) by (rewrite Hw1; apply show_keeps_sections).
  assert (Hbody : body w1 = body w) by (rewrite Hw1; apply show_keeps_body).
  destruct (hide_flags w1) as (Hs2 & _ & _ & Hh2).
  rewrite (bool_decide_eq_true_2 _ (proj1 Hwf1)) in Hh2.
  split; [exact He|]. split; [rewrite Hw1; exact Hshow|]. split; [exact Hp1|].
  split; [exact Hl|]. rewrite Hw2.
  split; [exact Hh2|]. split; [exact Hs2|]. split; [|split].
  - intros link panel Hs. rewrite <- Hsec in Hs.
    destruct (hide_collapses (link, panel) w1 Hs (wellFormed_section w1 _ Hwf1 Hs))
      as (Hc & Ha & _).
    split; [exact Hc | exact Ha].
  - rewrite <- Hsec, <- Hbody. apply writtenSince_app, hide_trace.
  - rewrite (hide_keeps_state _), Hw1. apply show_keeps_state.
Qed.

(** ** Registering the sections *)

Lemma mapGet_mapSet k v k' (m : list (elem * Collapse)) :
  mapGet k' (mapSet k v m) = if bool_decide (k = k') then Some v else mapGet k' m.
Proof.
  induction m as [|[k0 v0] m IH]; simpl.
  - repeat case_bool_decide; reflexivity.
  - destruct (decide (k0 = k)) as [->|Hne].
    + rewrite (bool_decide_eq_true_2 (k = k)) by reflexivity. simpl.
      repeat case_bool_decide; congruence.
    + rewrite (bool_decide_eq_false_2 (k0 = k)) by exact Hne. simpl.
      rewrite IH. repeat case_bool_decide; congruence.
Qed.

Lemma mapSet_keys k v (m : list (elem * Collapse)) :
  (mapSet k v m).*1 = if bool_decide (k ∈ m.*1) then m.*1 else m.*1 ++ [k].
Proof.
  induction m as [|[k0 v0] m IH]; cbn [mapSet].
  - rewrite bool_decide_eq_false_2 by (intros H; inversion H). reflexivity.
  - rewrite (fmap_cons fst (k0, v0) m). cbn [fst].
    destruct (decide (k0 = k)) as [->|Hne].
    + rewrite (bool_decide_eq_true_2 (k = k)) by reflexivity.
      rewrite bool_decide_eq_true_2 by apply list_elem_of_here. reflexivity.
    + rewrite (bool_decide_eq_false_2 (k0 = k)) by exact Hne.
      rewrite (fmap_cons fst (k0, v0)), IH. cbn [fst].
      destruct (decide (k ∈ m.*1)) as [Hin|Hin].
      * rewrite (bool_decide_eq_true_2 (k ∈ m.*1)) by exact Hin.
        rewrite bool_decide_eq_true_2 by apply list_elem_of_further, Hin.
        reflexivity.
      * rewrite (bool_decide_eq_false_2 (k ∈ m.*1)) by exact Hin.
        rewrite bool_decide_eq_false_2; [reflexivity|].
        rewrite elem_of_cons. intros [->|H]; [apply Hne; reflexivity | exact (Hin H)].
Qed.

Lemma mapSet_NoDup k v (m : list (elem * Collapse)) :
  NoDup m.*1 -> NoDup (mapSet k v m).*1.
Proof.
  intros H. rewrite mapSet_keys. case_bool_decide as Hin; [exact H|].
  apply NoDup_app. split; [exact H|]. split.
  - intros x Hx Hx'. apply list_elem_of_singleton in Hx' as ->. exact (Hin Hx).
  - apply NoDup_singleton.
Qed.

Lemma registerAll_NoDup doc found secs :
  NoDup secs.*1 -> NoDup (registerAll doc found secs).*1.
Proof.
  revert secs. induction found as [|s found IH]; intros secs H; simpl; [exact H|].
  apply IH. destruct (panelOf doc s); [apply mapSet_NoDup, H | exact H].
Qed.

Lemma registerAll_get doc found secs link panel :
  NoDup found ->
  (forall k, k ∈ found -> mapGet k secs = None) ->
  mapGet link (registerAll doc found secs) = Some panel <->
  mapGet link secs = Some panel \/ (link ∈ found /\ panelOf doc link = Some panel).
Proof.
  revert secs. induction found as [|s found IH]; intros secs Hnd Hfresh; simpl.
  - split; [auto|]. intros [H|[H _]]; [exact H | inversion H].
  - apply NoDup_cons in Hnd as [Hs Hnd].
    assert (Hsfresh : mapGet s secs = None) by apply Hfresh, list_elem_of_here.
    rewrite IH; [|exact Hnd|].
    + destruct (panelOf doc s) as [p|] eqn:Hp.
      * rewrite mapGet_mapSet, elem_of_cons. case_bool_decide as Heq.
        -- subst link. split.
           ++ intros [[= <-]|[Hin _]]; [right; auto | contradiction].
           ++ intros [H|[_ H]]; [congruence | left; congruence].
        -- split.
           ++ intros [H|[Hin H]]; auto.
           ++ intros [H|[[->|Hin] H]]; auto. contradiction Heq. reflexivity.
      * rewrite elem_of_cons. split.
        -- intros [H|[Hin H]]; auto.
        -- intros [H|[[->|Hin] H]]; auto. congruence.
    + intros k Hk. destruct (panelOf doc s) as [p|].
      * rewrite mapGet_mapSet.
        rewrite bool_decide_eq_false_2 by (intros ->; exact (Hs Hk)).
        apply Hfresh, list_elem_of_further, Hk.
      * apply Hfresh, list_elem_of_further, Hk.
Qed.

Lemma setSections_id w : setSections (sections w) w = w.
Proof. destruct w. reflexivity. Qed.

Lemma initSectionLinks_run w :
  initSectionLinks w =
    (Normal tt,
     setSections
       (registerAll (document w)
          (documentQuerySelectorAll (document w) sectionLinkSelector) (sections w))
       w).
Proof.
  unfold initSectionLinks, getElements. unfold bind at 1, gets at 1.
  generalize (documentQuerySelectorAll (document w) sectionLinkSelector).
  intros found.
  assert (G : forall secs,
             forOf found
               (fun section =>
                  doc <- gets document;;
                  match parentOf doc section with
                  | None => ret tt
                  | Some parent =>
                      match querySelector doc parent collapseSelector with
                      | None => ret tt
                      | Some panel =>
                          modify (fun w => setSections (mapSet section panel (sections w)) w)
                      end
                  end) (setSections secs w)
             = (Normal tt, setSections (registerAll (document w) found secs) w)).
  { induction found as [|s found IH]; intros secs; [reflexivity|].
    change (registerAll (document w) (s :: found) secs)
      with (registerAll (document w) found
              (match panelOf (document w) s with
               | Some panel => mapSet s panel secs
               | None => secs
               end)).
    cbn [forOf]. unfold bind at 1. unfold bind at 1, gets at 1.
    cbn [document setSections]. unfold panelOf.
    destruct (parentOf (document w) s) as [parent|]; [|apply IH].
    destruct (querySelector (document w) parent collapseSelector) as [panel|];
      [|apply IH].
    apply IH. }
  specialize (G (sections w)). rewrite setSections_id in G. exact G.
Qed.

(** X8.  [initSectionLinks()], on the empty registry the constructor starts
    from, registers a link exactly when it is one of the section links of
    the document that has a parent element with a [.collapse] element below
    it, and under the first such element; no link is registered twice; the
    call never throws and changes nothing but the registry. *)
Theorem initSectionLinks_registers (w : World) :
  sections w = [] ->
  exists secs,
    initSectionLinks w = (Normal tt, setSections secs w) /\
    NoDup secs.*1 /\
    forall link panel,
      mapGet link secs = Some panel <->
      link ∈ documentQuerySelectorAll (document w) sectionLinkSelector /\
      exists parent,
        parentOf (document w) link = Some parent /\
        querySelector (document w) parent collapseSelector = Some panel.
Proof.
  intros Hempty. eexists. split; [apply initSectionLinks_run|]. rewrite Hempty.
  split; [apply registerAll_NoDup; constructor|].
  intros link panel. rewrite registerAll_get.
  - unfold panelOf. simpl. split.
    + intros [[=]|[Hin H]]. split; [exact Hin|].
      destruct (parentOf (document w) link) as [parent|]; [eauto | discriminate].
    + intros [Hin (parent & Hp & Hq)]. right. split; [exact Hin|].
      rewrite Hp. exact Hq.
  - unfold documentQuerySelectorAll.
    apply NoDup_ListNoDup, List.NoDup_filter, List.seq_NoDup.
  - reflexivity.
Qed.

(** ** What a click on a section link leaves alone *)

Lemma collapseSection_lookup s e w :
  e <> s.1 -> document (after (collapseSection s) w) !! e = document w !! e.
Proof.
  destruct s as [l c]. intros Hne. unfold after. simpl in *.
  rewrite !list_lookup_alter_ne by congruence. reflexivity.
Qed.

Lemma collapseSection_shown s x w :
  x ∈ shown (after (collapseSection s) w) <-> x ∈ shown w /\ x <> s.2.
Proof.
  destruct s as [l c]. unfold after. simpl.
  rewrite elem_of_difference, elem_of_singleton. reflexivity.
Qed.

Lemma closeInactive_lookup target secs e w :
  activeLink w = Some target ->
  (forall s, s ∈ secs -> s.1 = e -> e = target) ->
  document (after (forOf secs closeIfInactive) w) !! e = document w !! e.
Proof.
  revert w. induction secs as [|s secs IH]; intros w Ha Hsecs; [reflexivity|].
  cbn [forOf]. rewrite after_seq by apply closeIfInactive_nothrow.
  rewrite IH.
  - destruct (decide (s.1 = target)) as [Heq|Hne].
    + rewrite (closeIfInactive_active _ _ _ Ha Heq). reflexivity.
    + rewrite (closeIfInactive_inactive _ _ _ Ha Hne).
      apply collapseSection_lookup. intros ->. apply Hne.
      apply (Hsecs s); [apply list_elem_of_here | reflexivity].
  - rewrite (closeIfInactive_keeps_activeLink _ _). exact Ha.
  - intros s' Hs'. apply Hsecs, list_elem_of_further, Hs'.
Qed.

Lemma closeInactive_shown target secs x w :
  activeLink w = Some target ->
  x ∈ shown (after (forOf secs closeIfInactive) w) <->
  x ∈ shown w /\ forall s, s ∈ secs -> s.2 = x -> s.1 = target.
Proof.
  revert w. induction secs as [|s secs IH]; intros w Ha.
  - simpl. split; [intros H; split; [exact H|]|intros [H _]; exact H].
    intros s Hs. inversion Hs.
  - cbn [forOf]. rewrite after_seq by apply closeIfInactive_nothrow.
    rewrite IH by (rewrite (closeIfInactive_keeps_activeLink _ _); exact Ha).
    destruct (decide (s.1 = target)) as [Heq|Hne].
    + rewrite (closeIfInactive_active _ _ _ Ha Heq). split.
      * intros [Hx Hall]. split; [exact Hx|]. intros s' Hs' Hx'.
        apply elem_of_cons in Hs' as [->|Hs']; [exact Heq | exact (Hall s' Hs' Hx')].
      * intros [Hx Hall]. split; [exact Hx|]. intros s' Hs'.
        apply Hall, list_elem_of_further, Hs'.
    + rewrite (closeIfInactive_inactive _ _ _ Ha Hne), collapseSection_shown. split.
      * intros [[Hx Hxs] Hall]. split; [exact Hx|]. intros s' Hs' Hx'.
        apply elem_of_cons in Hs' as [->|Hs']; [congruence | exact (Hall s' Hs' Hx')].
      * intros [Hx Hall]. split; [split; [exact Hx|]|].
        -- intros Heq. apply Hne, (Hall s); [apply list_elem_of_here | congruence].
        -- intros s' Hs'. apply Hall, list_elem_of_further, Hs'.
Qed.

(** X9.  What [handleSectionClick(event)] leaves alone, for any target of
    the event: an element keeps its classes and attributes unless it is a
    registered section link other than the target; a panel is shown after
    the click exactly when it was shown before and every link it is
    registered under is the target.  So the section of the clicked link is
    neither opened nor closed by the handler, and a click whose target is
    not a registered link collapses every registered section. *)
Theorem handleSectionClick_spares_target (w : World) (target : elem) :
  let w' := after (handleSectionClick target) w in
  (forall e, (forall panel, (e, panel) ∈ sections w -> e = target) ->
             document w' !! e = document w !! e) /\
  (forall panel, panel ∈ shown w' <->
                 panel ∈ shown w /\
                 forall link, (link, panel) ∈ sections w -> link = target) /\
  (wellFormed w -> (forall panel, (target, panel) ∉ sections w) ->
   forall s, s ∈ sections w -> sectionCollapsed s w').
Proof.
  cbn zeta. rewrite handleSectionClick_after. split; [|split].
  - intros e He. rewrite (closeInactive_lookup target) by
      (try reflexivity; intros [l c] Hs Hl; simpl in Hl; subst l; exact (He c Hs)).
    reflexivity.
  - intros panel. rewrite (closeInactive_shown target) by reflexivity.
    simpl. split; intros [Hx Hall]; (split; [exact Hx|]).
    + intros link Hl. apply (Hall (link, panel) Hl). reflexivity.
    + intros [l c] Hs Hc. simpl in *. subst c. exact (Hall l Hs).
  - intros [_ Hwf] Hnone s Hs. rewrite <- handleSectionClick_after.
    apply handleSectionClick_collapses; [exact Hs| |].
    + intros Heq. destruct s as [l c]. simpl in Heq. subst l. exact (Hnone c Hs).
    + rewrite Forall_forall in Hwf. exact (Hwf s Hs).
Qed.

(** ** What [activateLink] does to the page *)

Lemma activateGroup_lookup link g c action e w :
  e <> link -> e <> g ->
  document (after (activateGroup link g c action) w) !! e = document w !! e.
Proof.
  intros Hl Hg. destruct action; unfold after; simpl;
    rewrite !list_lookup_alter_ne by congruence; reflexivity.
Qed.

Lemma activateGroup_shown link g c action x w :
  x ∈ shown (after (activateGroup link g c action) w) <->
  match action with
  | expand => x = c \/ x ∈ shown w
  | collapse => x ∈ shown w /\ x <> c
  end.
Proof.
  destruct action; unfold after; simpl.
  - rewrite elem_of_union, elem_of_singleton. reflexivity.
  - rewrite elem_of_difference, elem_of_singleton. reflexivity.
Qed.

Lemma activateGroup_expanded link g c w :
  link < length (document w) -> g < length (document w) ->
  let doc' := document (after (activateGroup link g c expand) w) in
  getAttribute doc' g "aria-expanded" = Some "true" /\
  hasClass doc' g "collapsed" = false /\
  hasClass doc' g "active" = true /\
  hasClass doc' link "active" = true.
Proof.
  intros Hl Hg. unfold after. simpl.
  rewrite !getAttribute_alter_classList, getAttribute_insert,
    !hasClass_tokenRemove, !hasClass_tokenAdd, !hasClass_alter_attributes,
    !hasClass_tokenAdd, !length_alter.
  rewrite (bool_decide_eq_true_2 (g = g /\ "aria-expanded" = "aria-expanded" /\ _))
    by auto.
  rewrite (bool_decide_eq_true_2 (g = g /\ "collapsed" = "collapsed")) by auto.
  rewrite (bool_decide_eq_true_2 (g = g /\ "active" = "active" /\ _)) by auto.
  rewrite (bool_decide_eq_true_2 (link = link /\ "active" = "active" /\ _)) by auto.
  rewrite (bool_decide_eq_false_2 (g = g /\ "collapsed" = "active"))
    by (intros [_ [=]]).
  rewrite (bool_decide_eq_false_2 (g = link /\ "collapsed" = "active"))
    by (intros [_ [=]]).
  rewrite !orb_true_r, !andb_false_r. auto.
Qed.

Lemma activateGroup_collapsed link g c w :
  g < length (document w) ->
  let doc' := document (after (activateGroup link g c collapse) w) in
  getAttribute doc' g "aria-expanded" = Some "false" /\
  hasClass doc' g "collapsed" = true /\
  hasClass doc' link "active" = false.
Proof.
  intros Hg. unfold after. simpl.
  rewrite !getAttribute_alter_classList, getAttribute_insert,
    !hasClass_tokenAdd, !hasClass_tokenRemove, !hasClass_alter_attributes,
    !hasClass_tokenAdd, !length_alter.
  rewrite (bool_decide_eq_true_2 (g = g /\ "aria-expanded" = "aria-expanded" /\ _))
    by auto.
  rewrite (bool_decide_eq_true_2 (g = g /\ "collapsed" = "collapsed" /\ _)) by auto.
  rewrite (bool_decide_eq_true_2 (link = link /\ "active" = "active")) by auto.
  rewrite (bool_decide_eq_false_2 (g = link /\ "collapsed" = "active" /\ _))
    by (intros (_ & [=] & _)).
  rewrite !orb_true_r, !andb_false_r, !orb_false_r. auto.
Qed.

(** X10.  The state [activateLink(link, action)] leaves when the group link
    has a registered section.  With [expand] the group link has
    [aria-expanded="true"], has lost the class [collapsed] and carries
    [active], the link carries [active], and the panel is shown; with
    [collapse] the group link has [aria-expanded="false"] and the class
    [collapsed], the link has lost [active], and the panel is not shown.
    Every element other than the link and the group link, and every other
    panel, is as before, and so are the preference and the fields of the
    instance. *)
Theorem activateLink_effect (w : World) (link : elem) (action : Action)
    (navItem groupLink : elem) (collapse_ : Collapse) :
  link < length (document w) ->
  outermostNavItem (document w) link = Normal navItem ->
  groupLinkOf (document w) navItem = Some groupLink ->
  mapGet groupLink (sections w) = Some collapse_ ->
  let w' := after (activateLink link action) w in
  match action with
  | expand =>
      getAttribute (document w') groupLink "aria-expanded" = Some "true" /\
      hasClass (document w') groupLink "collapsed" = false /\
      hasClass (document w') groupLink "active" = true /\
      hasClass (document w') link "active" = true /\
      collapse_ ∈ shown w'
  | collapse =>
      getAttribute (document w') groupLink "aria-expanded" = Some "false" /\
      hasClass (document w') groupLink "collapsed" = true /\
      hasClass (document w') link "active" = false /\
      collapse_ ∉ shown w'
  end /\
  (forall e, e <> link -> e <> groupLink -> document w' !! e = document w !! e) /\
  (forall panel, panel <> collapse_ -> panel ∈ shown w' <-> panel ∈ shown w) /\
  state w' = state w /\ sections w' = sections w /\
  activeLink w' = activeLink w /\ currentMobileState w' = currentMobileState w.
Proof.
  intros Hl Hn Hg Hc. cbn zeta. unfold after.
  rewrite (activateLink_found w link action _ _ _ Hn Hg Hc).
  fold (after (activateGroup link groupLink collapse_ action) w).
  pose proof (groupLinkOf_lt _ _ _ Hg) as Hglt.
  split; [|split; [|split]].
  - destruct action.
    + destruct (activateGroup_expanded link groupLink collapse_ w Hl Hglt)
        as (H1 & H2 & H3 & H4).
      split; [exact H1|]. split; [exact H2|]. split; [exact H3|].
      split; [exact H4|]. apply activateGroup_shown. left. reflexivity.
    + destruct (activateGroup_collapsed link groupLink collapse_ w Hglt)
        as (H1 & H2 & H3).
      split; [exact H1|]. split; [exact H2|]. split; [exact H3|].
      rewrite activateGroup_shown. intros [_ H]. apply H. reflexivity.
  - intros e He Heg. apply activateGroup_lookup; assumption.
  - intros panel Hp. rewrite activateGroup_shown. destruct action; intuition.
  - destruct action; unfold after; simpl; auto.
Qed.

(** X11.  Where the walk at the head of [activateLink] ends.  When it
    returns, the element it returns is the link itself or an ancestor of
    the link with the class [nav-item], has a parent element, and has no
    ancestor with the class [nav-item]: it is the outermost nav item around
    the link.  It returns whenever the link and every nav item around it
    have a parent element, and throws a [TypeError] at an element that has
    none.  The group link then is the first child of that element with the
    class [nav-link]. *)
Theorem walk_ends_at_outermost_nav_item (doc : Document) (link : elem) :
  (forall navItem,
     outermostNavItem doc link = Normal navItem ->
     (navItem = link \/
      navItem ∈ ancestors doc link /\ hasClass doc navItem "nav-item" = true) /\
     Forall (fun a => hasClass doc a "nav-item" = false) (ancestors doc navItem) /\
     is_Some (parentOf doc navItem) /\
     forall g, groupLinkOf doc navItem = Some g ->
       hasClass doc g "nav-link" = true /\ parentOf doc g = Some navItem /\
       forall e, e < g ->
         ~ (hasClass doc e "nav-link" = true /\ parentOf doc e = Some navItem)) /\
  (is_Some (parentOf doc link) ->
   (forall a, a ∈ ancestors doc link -> hasClass doc a "nav-item" = true ->
              is_Some (parentOf doc a)) ->
   exists navItem, outermostNavItem doc link = Normal navItem) /\
  (parentOf doc link = None -> outermostNavItem doc link = Throw TypeError).
Proof.
  split; [|split].
  - intros navItem H.
    destruct (outermostNavItem_outermost doc link navItem H) as (H1 & H2 & H3).
    split; [exact H1|]. split; [exact H2|]. split; [exact H3|].
    intros g. apply groupLinkOf_child.
  - apply outermostNavItem_returns.
  - apply outermostNavItem_root.
Qed.

(** ** The part of the page no method writes *)

Arguments skeleton : simpl never.

Lemma skeleton_lookup doc e : skeleton doc !! e = skeletonOf <$> doc !! e.
Proof. apply list_lookup_fmap. Qed.

Lemma skeleton_length doc : length (skeleton doc) = length doc.
Proof. apply length_fmap. Qed.

Lemma skeleton_alter f e doc :
  (forall el, skeletonOf (f el) = skeletonOf el) ->
  skeleton (alter f e doc) = skeleton doc.
Proof.
  intros Hf. apply list_eq. intros i. rewrite !skeleton_lookup.
  destruct (decide (i = e)) as [->|Hne].
  - rewrite list_lookup_alter_eq. destruct (doc !! e); simpl; [|reflexivity].
    f_equal. apply Hf.
  - rewrite list_lookup_alter_ne by congruence. reflexivity.
Qed.

Lemma filter_tokenAdd (P : string -> bool) c l :
  P c = false -> List.filter P (tokenAdd c l) = List.filter P l.
Proof.
  intros Hc. unfold tokenAdd. case_bool_decide; [reflexivity|].
  rewrite List.filter_app. simpl. rewrite Hc. apply app_nil_r.
Qed.

Lemma filter_tokenRemove (P : string -> bool) c l :
  P c = false -> List.filter P (tokenRemove c l) = List.filter P l.
Proof.
  intros Hc. unfold tokenRemove. induction l as [|x l IH]; [reflexivity|].
  simpl. case_bool_decide as Hx; simpl.
  - subst x. rewrite Hc. exact IH.
  - rewrite IH. reflexivity.
Qed.

Lemma skeleton_classListAdd c e doc :
  volatileClass c = true ->
  skeleton (alter (withClassList (tokenAdd c)) e doc) = skeleton doc.
Proof.
  intros Hc. apply skeleton_alter. intros el. unfold skeletonOf. simpl.
  rewrite filter_tokenAdd by (rewrite Hc; reflexivity). reflexivity.
Qed.

Lemma skeleton_classListRemove c e doc :
  volatileClass c = true ->
  skeleton (alter (withClassList (tokenRemove c)) e doc) = skeleton doc.
Proof.
  intros Hc. apply skeleton_alter. intros el. unfold skeletonOf. simpl.
  rewrite filter_tokenRemove by (rewrite Hc; reflexivity). reflexivity.
Qed.

Lemma skeleton_setAttribute a v e doc :
  volatileAttr a = true ->
  skeleton (alter (withAttributes (insert a v)) e doc) = skeleton doc.
Proof.
  intros Ha. apply skeleton_alter. intros el. unfold skeletonOf. simpl.
  rewrite map_filter_insert_not by (intros y; simpl; congruence). reflexivity.
Qed.

Lemma skeleton_removeAttribute a e doc :
  volatileAttr a = true ->
  skeleton (alter (withAttributes (delete a)) e doc) = skeleton doc.
Proof.
  intros Ha. apply skeleton_alter. intros el. unfold skeletonOf. simpl.
  rewrite map_filter_delete_not by (intros y _; simpl; congruence). reflexivity.
Qed.

Lemma volatileAttr_attrName attr : volatileAttr (attrName attr) = true.
Proof. destruct attr; reflexivity. Qed.

Ltac frame_skeleton :=
  intros; apply keeps_preserves; intros v; preserves_writes;
  unfold fixedPart in *; simpl in *;
  rewrite ?skeleton_classListAdd, ?skeleton_classListRemove,
    ?skeleton_setAttribute, ?skeleton_removeAttribute
    by (reflexivity || apply volatileAttr_attrName);
  assumption.

Lemma show_keeps_fixedPart : keeps fixedPart show.
Proof. frame_skeleton. Qed.

Lemma hide_keeps_fixedPart : keeps fixedPart hide.
Proof. frame_skeleton. Qed.

Lemma pin_keeps_fixedPart : keeps fixedPart pin.
Proof. frame_skeleton. Qed.

Lemma unpin_keeps_fixedPart : keeps fixedPart unpin.
Proof. frame_skeleton. Qed.

Lemma activateLink_keeps_fixedPart link action :
  keeps fixedPart (activateLink link action).
Proof. frame_skeleton. Qed.

Lemma handleSectionClick_keeps_fixedPart target :
  keeps fixedPart (handleSectionClick target).
Proof. frame_skeleton. Qed.

Lemma initSectionLinks_keeps_fixedPart : keeps fixedPart initSectionLinks.
Proof. frame_skeleton. Qed.

Lemma initActiveLinks_keeps_fixedPart : keeps fixedPart initActiveLinks.
Proof. frame_skeleton. Qed.

(** ** What is read of the page, read of its skeleton *)

Lemma parentOf_skeleton doc e : parentOf (skeleton doc) e = parentOf doc e.
Proof.
  unfold parentOf. rewrite skeleton_lookup.
  destruct (doc !! e); reflexivity.
Qed.

Lemma ancestorsUpTo_skeleton steps doc e :
  ancestorsUpTo steps (skeleton doc) e = ancestorsUpTo steps doc e.
Proof.
  revert e. induction steps as [|n IH]; intros e; [reflexivity|].
  cbn [ancestorsUpTo]. rewrite parentOf_skeleton.
  destruct (parentOf doc e); [rewrite IH|]; reflexivity.
Qed.

Lemma ancestors_skeleton doc e : ancestors (skeleton doc) e = ancestors doc e.
Proof. apply ancestorsUpTo_skeleton. Qed.

Lemma simpleMatches_skeleton doc scope e s :
  stableSimple s = true ->
  simpleMatches (skeleton doc) scope e s = simpleMatches doc scope e s.
Proof.
  intros Hs. unfold simpleMatches. rewrite skeleton_lookup.
  destruct (doc !! e) as [el|]; [|reflexivity]. destruct s; simpl in *.
  - reflexivity.
  - apply bool_decide_ext. rewrite !list_elem_of_In, filter_In.
    split; [intros [H _]; exact H | intros H; split; [exact H | exact Hs]].
  - apply bool_decide_ext. apply negb_true_iff in Hs.
    unfold is_Some. split.
    + intros [x Hx]. apply map_lookup_filter_Some in Hx as [Hx _]. eauto.
    + intros [x Hx]. exists x. apply map_lookup_filter_Some. split; [exact Hx | exact Hs].
  - reflexivity.
Qed.

Lemma compoundMatches_skeleton doc scope e c :
  forallb stableSimple c = true ->
  compoundMatches (skeleton doc) scope e c = compoundMatches doc scope e c.
Proof.
  unfold compoundMatches. induction c as [|s c IH]; [reflexivity|].
  cbn [forallb]. intros H. apply andb_true_iff in H as [Hs Hc].
  rewrite simpleMatches_skeleton, IH by assumption. reflexivity.
Qed.

Lemma leftMatches_skeleton doc scope rest ancs :
  forallb (fun step : Combinator * list Simple => forallb stableSimple step.2) rest
    = true ->
  leftMatches (skeleton doc) scope rest ancs = leftMatches doc scope rest ancs.
Proof.
  revert ancs. induction rest as [|[[|] c] rest IH]; intros ancs H; [reflexivity| |];
    cbn [forallb snd] in H; apply andb_true_iff in H as [Hc Hrest].
  - cbn [leftMatches]. induction ancs as [|a ancs IHa]; [reflexivity|].
    rewrite compoundMatches_skeleton, IH, IHa by assumption. reflexivity.
  - cbn [leftMatches]. destruct ancs as [|a ancs]; [reflexivity|].
    rewrite compoundMatches_skeleton, IH by assumption. reflexivity.
Qed.

Lemma matches_skeleton doc scope sel e :
  stableSelector sel = true ->
  matches (skeleton doc) scope sel e = matches doc scope sel e.
Proof.
  intros H. apply andb_true_iff in H as [Hs Hl]. unfold matches.
  rewrite compoundMatches_skeleton, leftMatches_skeleton, ancestors_skeleton
    by assumption.
  reflexivity.
Qed.

Lemma filter_ext_all {X} (f g : X -> bool) l :
  (forall x, f x = g x) -> List.filter f l = List.filter g l.
Proof. intros H. apply List.filter_ext. exact H. Qed.

Lemma documentQuerySelectorAll_skeleton doc sel :
  stableSelector sel = true ->
  documentQuerySelectorAll (skeleton doc) sel = documentQuerySelectorAll doc sel.
Proof.
  intros H. unfold documentQuerySelectorAll. rewrite skeleton_length.
  apply filter_ext_all. intros e. apply matches_skeleton, H.
Qed.

Lemma querySelectorAll_skeleton doc root sel :
  stableSelector sel = true ->
  querySelectorAll (skeleton doc) root sel = querySelectorAll doc root sel.
Proof.
  intros H. unfold querySelectorAll. rewrite skeleton_length.
  apply filter_ext_all. intros e.
  rewrite ancestors_skeleton, matches_skeleton by exact H. reflexivity.
Qed.

Lemma closest_skeleton doc e sel :
  stableSelector sel = true ->
  closest (skeleton doc) e sel = closest doc e sel.
Proof.
  intros H. unfold closest. rewrite ancestors_skeleton.
  induction (e :: ancestors doc e) as [|a l IH]; [reflexivity|].
  cbn [find]. rewrite matches_skeleton, IH by exact H. reflexivity.
Qed.

Lemma navItemLoop_skeleton steps doc navItem :
  navItemLoop steps (skeleton doc) navItem = navItemLoop steps doc navItem.
Proof.
  revert navItem. induction steps as [|n IH]; intros navItem; cbn [navItemLoop];
    rewrite parentOf_skeleton; destruct (parentOf doc navItem) as [p|];
    try reflexivity; rewrite closest_skeleton by reflexivity;
    destruct (closest doc p navItemSelector); try reflexivity.
  apply IH.
Qed.

(** Two pages with the same skeleton answer every query of the widget
    alike. *)
Section SameSkeleton.
Context (doc doc' : Document) (Hsame : skeleton doc' = skeleton doc).

Lemma same_length : length doc' = length doc.
Proof. rewrite <- (skeleton_length doc'), Hsame. apply skeleton_length. Qed.

Lemma same_parentOf e : parentOf doc' e = parentOf doc e.
Proof. rewrite <- (parentOf_skeleton doc'), Hsame. apply parentOf_skeleton. Qed.

Lemma same_documentQuerySelectorAll sel :
  stableSelector sel = true ->
  documentQuerySelectorAll doc' sel = documentQuerySelectorAll doc sel.
Proof.
  intros H. rewrite <- (documentQuerySelectorAll_skeleton doc') by exact H.
  rewrite Hsame. apply documentQuerySelectorAll_skeleton, H.
Qed.

Lemma same_querySelectorAll root sel :
  stableSelector sel = true ->
  querySelectorAll doc' root sel = querySelectorAll doc root sel.
Proof.
  intros H. rewrite <- (querySelectorAll_skeleton doc') by exact H.
  rewrite Hsame. apply querySelectorAll_skeleton, H.
Qed.

Lemma same_outermostNavItem link :
  outermostNavItem doc' link = outermostNavItem doc link.
Proof.
  unfold outermostNavItem. rewrite <- (navItemLoop_skeleton _ doc'), Hsame.
  apply navItemLoop_skeleton.
Qed.

Lemma same_groupLinkOf navItem : groupLinkOf doc' navItem = groupLinkOf doc navItem.
Proof.
  unfold groupLinkOf, querySelector.
  rewrite same_querySelectorAll by reflexivity. reflexivity.
Qed.

Lemma same_panelOf section : panelOf doc' section = panelOf doc section.
Proof.
  unfold panelOf, querySelector. rewrite same_parentOf.
  destruct (parentOf doc section); [|reflexivity].
  rewrite same_querySelectorAll by reflexivity. reflexivity.
Qed.

Lemma same_href e : href <$> doc' !! e = href <$> doc !! e.
Proof.
  assert (H : forall d, href <$> skeleton d !! e = href <$> d !! e).
  { intros d. rewrite skeleton_lookup. destruct (d !! e); reflexivity. }
  rewrite <- (H doc'), Hsame. apply H.
Qed.

Lemma same_offsetParent e :
  (el ← doc' !! e; offsetParent el) = (el ← doc !! e; offsetParent el).
Proof.
  assert (H : forall d, (el ← skeleton d !! e; offsetParent el)
                        = (el ← d !! e; offsetParent el)).
  { intros d. rewrite skeleton_lookup. destruct (d !! e); reflexivity. }
  rewrite <- (H doc'), Hsame. apply H.
Qed.

End SameSkeleton.

(** ** Invariants of the handlers *)

(** An invariant of the visibility operations and of the click on a section
    link that does not depend on the bookkeeping of the handlers is an
    invariant of every listener, and of the constructor. *)
Section Handlers.
Context (I : World -> Prop).
Context (I_show : preserves I show) (I_hide : preserves I hide).
Context (I_pin : preserves I pin) (I_unpin : preserves I unpin).
Context (I_record : forall w, I w -> I (record PreventDefault w)).

Lemma onResizeTogglers_preserves togglers :
  (forall m w, I w -> I (setCurrentMobileState m w)) ->
  preserves I (onResizeTogglers togglers).
Proof.
  intros I_mobile. induction togglers as [|t togglers IH]; simpl.
  - apply preserves_ret.
  - apply preserves_bind; [apply preserves_gets|]. intros [p|]; [|exact IH].
    apply preserves_bind; [apply preserves_gets|]. intros mobile.
    apply preserves_bind; [|intros; apply preserves_ret].
    destruct (_ || _); [|apply preserves_ret].
    apply preserves_bind; [apply I_hide|]. intros _.
    apply preserves_modify, I_mobile.
Qed.

Lemma onResize_preserves :
  (forall m w, I w -> I (setCurrentMobileState m w)) ->
  preserves I onResize.
Proof.
  intros I_mobile. unfold onResize.
  apply preserves_bind; [apply preserves_gets|]. intros togglers.
  apply preserves_bind; [apply onResizeTogglers_preserves, I_mobile|].
  intros [|]; [apply preserves_ret|].
  apply preserves_bind; [apply preserves_gets|]. intros mobile.
  destruct (_ || _); [|apply preserves_ret].
  apply preserves_bind; [apply preserves_gets|]. intros pinned_.
  apply preserves_bind.
  - destruct pinned_; [apply I_pin | apply I_unpin].
  - intros _. apply preserves_modify, I_mobile.
Qed.

(** The resize handler is the one listener that writes
    [currentMobileState], the click on a section link the one that runs
    [handleSectionClick]. *)
Lemma listener_preserves ev :
  (ev = Resize -> forall m w, I w -> I (setCurrentMobileState m w)) ->
  (forall target, ev = SectionClick target ->
                  preserves I (handleSectionClick target)) ->
  preserves I (listener ev).
Proof.
  intros I_mobile I_click. destruct ev; cbn [listener].
  - apply onResize_preserves, I_mobile. reflexivity.
  - unfold onToggle. apply preserves_bind; [apply preserves_modify, I_record|].
    intros _. apply preserves_bind; [apply preserves_gets|].
    intros [|]; [apply I_unpin | apply I_pin].
  - unfold onMobileToggle. apply preserves_bind; [apply preserves_modify, I_record|].
    intros _. apply preserves_bind; [apply preserves_gets|].
    intros [|]; [apply I_hide | apply I_show].
  - apply I_click. reflexivity.
  - unfold onEnter. apply preserves_bind; [apply preserves_gets|]. intros mobile.
    apply preserves_bind.
    + destruct (bool_decide _); [apply preserves_ret | apply preserves_gets].
    + intros [|]; [apply preserves_ret | apply I_show].
  - unfold onLeave. apply preserves_bind; [apply preserves_gets|]. intros mobile.
    apply preserves_bind.
    + destruct (bool_decide _); [apply preserves_ret | apply preserves_gets].
    + intros [|]; [apply preserves_ret | apply I_hide].
Qed.

Lemma dispatch_preserves events w :
  (forall m w, I w -> I (setCurrentMobileState m w)) ->
  (forall target, preserves I (handleSectionClick target)) ->
  I w -> I (dispatch events w).
Proof.
  intros I_mobile I_click.
  revert w. induction events as [|ev events IH]; intros w Hw; [exact Hw|].
  cbn [dispatch fold_left]. apply IH, listener_preserves; auto.
Qed.

End Handlers.

Lemma dispatch_app events events' w :
  dispatch (events ++ events') w = dispatch events' (dispatch events w).
Proof. apply fold_left_app. Qed.

Lemma listener_keeps_fixedPart ev : keeps fixedPart (listener ev).
Proof.
  apply keeps_preserves. intros v. apply listener_preserves.
  - apply (proj1 (keeps_preserves _ _) show_keeps_fixedPart).
  - apply (proj1 (keeps_preserves _ _) hide_keeps_fixedPart).
  - apply (proj1 (keeps_preserves _ _) pin_keeps_fixedPart).
  - apply (proj1 (keeps_preserves _ _) unpin_keeps_fixedPart).
  - intros w H. exact H.
  - intros _ m w H. exact H.
  - intros target _.
    apply (proj1 (keeps_preserves _ _) (handleSectionClick_keeps_fixedPart target)).
Qed.

Lemma constructor_keeps_fixedPart : keeps fixedPart constructor.
Proof.
  apply keeps_preserves. intros v. unfold constructor, init.
  apply preserves_bind; [apply preserves_modify; intros w H; exact H|]. intros _.
  apply preserves_bind; [apply preserves_modify; intros w H; exact H|]. intros _.
  apply preserves_bind; [apply preserves_modify; intros w H; exact H|]. intros _.
  apply preserves_bind.
  { apply (proj1 (keeps_preserves _ _) (listener_keeps_fixedPart Resize)). }
  intros _. apply preserves_bind.
  { apply (proj1 (keeps_preserves _ _) initSectionLinks_keeps_fixedPart). }
  intros _. apply (proj1 (keeps_preserves _ _) initActiveLinks_keeps_fixedPart).
Qed.

Lemma dispatch_keeps_fixedPart events w : fixedPart (dispatch events w) = fixedPart w.
Proof.
  revert w. induction events as [|ev events IH]; intros w; [reflexivity|].
  cbn [dispatch fold_left]. fold (dispatch events (after (listener ev) w)).
  rewrite IH. apply listener_keeps_fixedPart.
Qed.

(** Two worlds with the same fixed part. *)
Section SameFixedPart.
Context (w w' : World) (Hfixed : fixedPart w' = fixedPart w).

Lemma fixed_skeleton : skeleton (document w') = skeleton (document w).
Proof. unfold fixedPart in Hfixed. congruence. Qed.

Lemma fixed_navLinks : navLinks w' = navLinks w.
Proof.
  unfold navLinks. rewrite (same_querySelectorAll _ _ fixed_skeleton) by reflexivity.
  unfold fixedPart in Hfixed. congruence.
Qed.

Lemma fixed_mobileTogglers : mobileTogglers w' = mobileTogglers w.
Proof. apply (same_documentQuerySelectorAll _ _ fixed_skeleton). reflexivity. Qed.

Lemma fixed_isRendered t : isRendered w' t = isRendered w t.
Proof.
  pose proof (same_offsetParent _ _ fixed_skeleton t) as H. unfold isRendered.
  destruct (document w' !! t) as [el'|], (document w !! t) as [el|]; simpl in H;
    [rewrite H; reflexivity | rewrite H; reflexivity
    | rewrite <- H; reflexivity | reflexivity].
Qed.

Lemma fixed_mobileLayout : mobileLayout w' = mobileLayout w.
Proof.
  unfold mobileLayout. rewrite fixed_mobileTogglers.
  induction (mobileTogglers w) as [|t l IH]; [reflexivity|].
  cbn [existsb]. rewrite fixed_isRendered, IH. reflexivity.
Qed.

Lemma fixed_hrefOf link : hrefOf w' link = hrefOf w link.
Proof.
  pose proof (same_href _ _ fixed_skeleton link) as H. unfold hrefOf.
  destruct (document w' !! link), (document w !! link); simpl in H; congruence.
Qed.

Lemma fixed_isActive link : isActive w' link = isActive w link.
Proof.
  unfold isActive. rewrite fixed_hrefOf. unfold fixedPart in Hfixed.
  replace (regExp w') with (regExp w) by congruence.
  replace (location_href w') with (location_href w) by congruence.
  reflexivity.
Qed.

Lemma fixed_compiles link : compiles w' link <-> compiles w link.
Proof.
  unfold compiles. rewrite fixed_hrefOf. unfold fixedPart in Hfixed.
  replace (regExp w') with (regExp w) by congruence. reflexivity.
Qed.

End SameFixedPart.

(** ** The marks the widget writes *)

Lemma ownWrites_record before ev w w' :
  ownWritesSince before w ->
  trace w' = trace w ++ [ev] -> ownWrite ev = true ->
  ownWritesSince before w'.
Proof.
  intros (written & Ht & Hall) Ht' Hev. exists (written ++ [ev]). split.
  - rewrite Ht', Ht, app_assoc. reflexivity.
  - apply Forall_app. split; [exact Hall|]. constructor; [exact Hev | constructor].
Qed.

(** One goal per primitive write of the method: the write is within the
    marks. *)
Ltac own_writes :=
  preserves_writes;
  match goal with
  | H : ownWritesSince _ _ |- ownWritesSince _ _ =>
      first
        [ exact H
        | eapply ownWrites_record;
          [ exact H
          | simpl; reflexivity
          | simpl; (reflexivity || apply volatileAttr_attrName) ] ]
  end.

Lemma show_ownWrites before : preserves (ownWritesSince before) show.
Proof. own_writes. Qed.

Lemma hide_ownWrites before : preserves (ownWritesSince before) hide.
Proof. own_writes. Qed.

Lemma pin_ownWrites before : preserves (ownWritesSince before) pin.
Proof. own_writes. Qed.

Lemma unpin_ownWrites before : preserves (ownWritesSince before) unpin.
Proof. own_writes. Qed.

Lemma handleSectionClick_ownWrites before target :
  preserves (ownWritesSince before) (handleSectionClick target).
Proof. own_writes. Qed.

Lemma initSectionLinks_ownWrites before :
  preserves (ownWritesSince before) initSectionLinks.
Proof. own_writes. Qed.

Lemma initActiveLinks_ownWrites before :
  preserves (ownWritesSince before) initActiveLinks.
Proof. own_writes. Qed.

Lemma listener_ownWrites before ev : preserves (ownWritesSince before) (listener ev).
Proof.
  apply listener_preserves.
  - apply show_ownWrites.
  - apply hide_ownWrites.
  - apply pin_ownWrites.
  - apply unpin_ownWrites.
  - intros w H. apply (ownWrites_record before PreventDefault w); auto.
  - intros _ m w H. exact H.
  - intros target _. apply handleSectionClick_ownWrites.
Qed.

Lemma constructor_ownWrites before : preserves (ownWritesSince before) constructor.
Proof.
  unfold constructor, init.
  apply preserves_bind; [apply preserves_modify; intros w H; exact H|]. intros _.
  apply preserves_bind; [apply preserves_modify; intros w H; exact H|]. intros _.
  apply preserves_bind; [apply preserves_modify; intros w H; exact H|]. intros _.
  apply preserves_bind; [apply (listener_ownWrites before Resize)|]. intros _.
  apply preserves_bind; [apply initSectionLinks_ownWrites|]. intros _.
  apply initActiveLinks_ownWrites.
Qed.

Lemma dispatch_ownWrites before events w :
  ownWritesSince before w -> ownWritesSince before (dispatch events w).
Proof.
  revert w. induction events as [|ev events IH]; intros w Hw; [exact Hw|].
  cbn [dispatch fold_left]. apply IH, listener_ownWrites, Hw.
Qed.

(** X12.  The widget writes nothing but its own marks.  Over its life (the
    constructor, then any sequence of events handled by its listeners,
    each returning or throwing) the only classes it adds or removes are
    [active] and [collapsed], and the only attributes it sets or removes
    are [aria-expanded] and the four flags [data-sidenav-show],
    [data-sidenav-hide], [data-sidenav-hidden] and [data-sidenav-pinned];
    its other mutations are calls of a collapse controller, of the store
    and of [event.preventDefault()].  None of its six selectors mentions
    one of these classes or attributes: the widget never writes what it
    selects by. *)
Theorem writes_only_own_marks (w : World) (events : list Event) :
  exists written,
    trace (dispatch events (after constructor w)) = trace w ++ written /\
    (forall e c, ClassAdd e c ∈ written \/ ClassRemove e c ∈ written ->
                 c = "active" \/ c = "collapsed") /\
    (forall e a v, SetAttribute e a v ∈ written \/ RemoveAttribute e a ∈ written ->
                   a = "aria-expanded" \/ exists attr, a = attrName attr) /\
    Forall (fun sel => stableSelector sel = true)
           [mobileTogglerSelector; sectionLinkSelector; navLinkSelector;
            navItemSelector; groupLinkSelector; collapseSelector].
Proof.
  assert (H : ownWritesSince (trace w) (dispatch events (after constructor w))).
  { apply dispatch_ownWrites, constructor_ownWrites.
    exists []. split; [symmetry; apply app_nil_r | constructor]. }
  destruct H as (written & Ht & Hall). rewrite Forall_forall in Hall.
  exists written. split; [exact Ht|]. split; [|split].
  - intros e c [Hin|Hin]; apply Hall in Hin; cbn [ownWrite] in Hin;
      unfold volatileClass in Hin; apply bool_decide_eq_true in Hin;
      rewrite !elem_of_cons, elem_of_nil in Hin; tauto.
  - assert (Hattr : forall a, volatileAttr a = true ->
                              a = "aria-expanded" \/ exists attr, a = attrName attr).
    { intros a Ha. unfold volatileAttr in Ha. apply bool_decide_eq_true in Ha.
      rewrite !elem_of_cons, elem_of_nil in Ha.
      destruct Ha as [->|[->|[->|[->|[->|[]]]]]].
      - left. reflexivity.
      - right. exists BodyAttr.show. reflexivity.
      - right. exists BodyAttr.hide. reflexivity.
      - right. exists BodyAttr.hidden. reflexivity.
      - right. exists BodyAttr.pinned. reflexivity. }
    intros e a v [Hin|Hin]; apply Hall in Hin; apply Hattr, Hin.
  - repeat constructor.
Qed.

(** ** The resize handler settles *)

Lemma onResize_noop w :
  currentMobileState w = Some (mobileLayout w) -> onResize w = (Normal tt, w).
Proof.
  intros Hc. destruct (mobileLayout w) eqn:Hm.
  - rewrite (onResize_mobile_run w Hm), bool_decide_eq_true_2 by exact Hc.
    reflexivity.
  - unfold onResize, getElements.
    unfold bind at 1, gets at 1. unfold bind at 1.
    fold (mobileTogglers w).
    rewrite (onResizeTogglers_none _ _ Hm).
    unfold bind at 1, gets at 1. rewrite Hc. reflexivity.
Qed.

Lemma onResize_currentMobileState w :
  fst (onResize w) = Normal tt ->
  currentMobileState (after onResize w) = Some (mobileLayout w).
Proof.
  intros Hret. destruct (decide (currentMobileState w = Some (mobileLayout w)))
    as [Hc|Hc].
  { unfold after. rewrite (onResize_noop w Hc). exact Hc. }
  destruct (mobileLayout w) eqn:Hm.
  - unfold after. rewrite (onResize_mobile_run w Hm), bool_decide_eq_false_2 by exact Hc.
    reflexivity.
  - revert Hret. unfold after. rewrite (onResize_desktop_run w Hm Hc).
    unfold bind at 1 2. rewrite (run_eta (if pinned (state w) then pin else unpin) w).
    destruct (fst ((if pinned (state w) then pin else unpin) w)); [|discriminate].
    intros _. reflexivity.
Qed.

(** X13.  When [onResize()] returns, [currentMobileState] tells the layout
    of the page: [true] when a mobile toggler is rendered, [false] when
    none is.  The layout is not changed by the call, so a second call
    right after it changes nothing; and whenever [currentMobileState]
    tells the layout, a call changes nothing.  The call can only throw on
    a desktop layout with the preference set. *)
Theorem onResize_settles (w : World) :
  (currentMobileState w = Some (mobileLayout w) -> onResize w = (Normal tt, w)) /\
  (mobileLayout w = true \/ pinned (state w) = false -> fst (onResize w) = Normal tt) /\
  (fst (onResize w) = Normal tt ->
   currentMobileState (after onResize w) = Some (mobileLayout w) /\
   mobileLayout (after onResize w) = mobileLayout w /\
   onResize (after onResize w) = (Normal tt, after onResize w)).
Proof.
  split; [apply onResize_noop|]. split.
  - intros Hcase.
    destruct (decide (currentMobileState w = Some (mobileLayout w))) as [Hc|Hc].
    { rewrite (onResize_noop w Hc). reflexivity. }
    destruct (mobileLayout w) eqn:Hm.
    + rewrite (onResize_mobile_run w Hm). case_bool_decide; reflexivity.
    + destruct Hcase as [|Hp]; [discriminate|].
      rewrite (onResize_desktop_run w Hm Hc), Hp.
      unfold bind at 1. rewrite (run_nothrow unpin w unpin_nothrow). reflexivity.
  - intros Hret.
    pose proof (onResize_currentMobileState w Hret) as Hc.
    assert (Hm : mobileLayout (after onResize w) = mobileLayout w).
    { apply fixed_mobileLayout, (listener_keeps_fixedPart Resize). }
    split; [exact Hc|]. split; [exact Hm|].
    apply onResize_noop. rewrite Hm. exact Hc.
Qed.

(** ** The sections of the active links *)

Lemma groupOf_Some w link g c :
  groupOf w link = Some (g, c) <->
  exists navItem,
    outermostNavItem (document w) link = Normal navItem /\
    groupLinkOf (document w) navItem = Some g /\
    mapGet g (sections w) = Some c.
Proof.
  unfold groupOf. split.
  - destruct (outermostNavItem (document w) link) as [n|]; [|discriminate].
    destruct (groupLinkOf (document w) n) as [g'|] eqn:Hg; [|discriminate].
    destruct (mapGet g' (sections w)) as [c'|] eqn:Hc; [|discriminate].
    intros [= <- <-]. eauto.
  - intros (n & -> & -> & ->). reflexivity.
Qed.

Lemma groupOf_same w w' link :
  fixedPart w' = fixedPart w -> sections w' = sections w ->
  groupOf w' link = groupOf w link.
Proof.
  intros Hf Hs. pose proof (fixed_skeleton _ _ Hf) as Hsk. unfold groupOf.
  rewrite (same_outermostNavItem _ _ Hsk), Hs.
  destruct (outermostNavItem (document w) link) as [n|]; [|reflexivity].
  rewrite (same_groupLinkOf _ _ Hsk). reflexivity.
Qed.

Lemma activateLink_groupOf w link action g c :
  groupOf w link = Some (g, c) ->
  activateLink link action w = activateGroup link g c action w.
Proof.
  intros H. apply groupOf_Some in H as (n & Hn & Hg & Hc).
  apply (activateLink_found w link action n g c Hn Hg Hc).
Qed.

Lemma groupOf_lt w link g c : groupOf w link = Some (g, c) -> g < length (document w).
Proof.
  intros H. apply groupOf_Some in H as (n & _ & Hg & _).
  apply (groupLinkOf_lt _ _ _ Hg).
Qed.

(** An invariant of what [activateLink] does with a group is an invariant
    of [activateLink]. *)
Lemma activateLink_preserves (I : World -> Prop) link action :
  (forall g c, preserves I (activateGroup link g c action)) ->
  preserves I (activateLink link action).
Proof.
  intros H w Hw. unfold after.
  destruct (outermostNavItem (document w) link) as [n|e] eqn:Hn.
  - destruct (groupLinkOf (document w) n) as [g|] eqn:Hg.
    + destruct (mapGet g (sections w)) as [c|] eqn:Hc.
      * rewrite (activateLink_found w link action n g c Hn Hg Hc). apply H, Hw.
      * rewrite (activateLink_noop w link action n Hn) by eauto. exact Hw.
    + rewrite (activateLink_noop w link action n Hn) by auto. exact Hw.
  - rewrite (activateLink_throws w link action e Hn). exact Hw.
Qed.

Lemma activateGroup_settles action link g c w :
  link < length (document w) -> g < length (document w) ->
  settled action link (g, c) (after (activateGroup link g c action) w).
Proof.
  intros Hl Hg. destruct action; unfold settled, sectionExpanded, sectionCollapsed;
    cbn [fst snd].
  - destruct (activateGroup_expanded link g c w Hl Hg) as (H1 & H2 & H3 & H4).
    split; [split; [exact H2|split; [exact H1|]]|split; [exact H3 | exact H4]].
    apply activateGroup_shown. left. reflexivity.
  - destruct (activateGroup_collapsed link g c w Hg) as (H1 & H2 & _).
    split; [exact H2|]. split; [exact H1|].
    rewrite activateGroup_shown. intros [_ H]. apply H. reflexivity.
Qed.

Lemma activateGroup_keeps_settled action link s link' g' c' :
  preserves (settled action link s) (activateGroup link' g' c' action).
Proof.
  destruct action; unfold activateGroup, settled.
  - unfold_writes. repeat preserves_step;
      unfold sectionExpanded in *; simpl in *;
      rewrite ?hasClass_tokenAdd, ?hasClass_tokenRemove, ?hasClass_alter_attributes,
        ?getAttribute_alter_classList, ?getAttribute_insert;
      destruct_and?; repeat split;
      repeat match goal with
             | H : hasClass _ _ _ = _ |- _ => rewrite H
             | H : getAttribute _ _ _ = _ |- _ => rewrite H
             end;
      try assumption;
      try (repeat case_bool_decide; (reflexivity || assumption
             || (exfalso; destruct_and?; (discriminate || congruence))));
      try (apply elem_of_union; right; assumption).
  - unfold_writes. repeat preserves_step;
      unfold sectionCollapsed in *; simpl in *;
      rewrite ?hasClass_tokenAdd, ?hasClass_tokenRemove, ?hasClass_alter_attributes,
        ?getAttribute_alter_classList, ?getAttribute_insert;
      destruct_and?; repeat split;
      repeat match goal with
             | H : hasClass _ _ _ = _ |- _ => rewrite H
             | H : getAttribute _ _ _ = _ |- _ => rewrite H
             end;
      try assumption;
      try (repeat case_bool_decide; (reflexivity || assumption
             || (exfalso; destruct_and?; (discriminate || congruence))));
      try (apply not_elem_of_difference; left; assumption).
Qed.

(** The loop over the generator: what the body establishes for the link it
    is given, and later turns keep, holds at the end for every link the
    generator has yielded. *)
Lemma scanLinks_cons {A} l rest (yield : elem -> A -> M A) acc w :
  scanLinks (l :: rest) yield acc w =
    match regExp w (hrefOf w l) with
    | None => (Throw SyntaxError, w)
    | Some re =>
        if re (location_href w) then
          match yield l acc w with
          | (Normal a, w1) => scanLinks rest yield a w1
          | (Throw e, w1) => (Throw e, w1)
          end
        else scanLinks rest yield acc w
    end.
Proof.
  cbn [scanLinks]. unfold bind, matchesLocation.
  destruct (regExp w (hrefOf w l)) as [re|]; [|reflexivity].
  destruct (re (location_href w)); [|reflexivity].
  destruct (yield l acc w) as [[a|e] w1]; reflexivity.
Qed.

Section Scan.
Context (yield : elem -> unit -> M unit).
Context (w0 : World) (J : World -> Prop) (Q : elem -> World -> Prop).
Context (J_fixed : forall w, J w -> fixedPart w = fixedPart w0).
Context (J_yield : forall l a w, J w -> J (after (yield l a) w)).
Context (Q_yield : forall l a w,
           J w -> fst (yield l a w) = Normal tt -> Q l (after (yield l a) w)).
Context (Q_keep : forall l l' a w, J w -> Q l w -> Q l (after (yield l' a) w)).

Lemma scanLinks_keeps_Q l links w :
  J w -> Q l w ->
  J (after (scanLinks links yield tt) w) /\ Q l (after (scanLinks links yield tt) w).
Proof.
  intros HJ HQ.
  apply (preserves_scanLinks (fun w => J w /\ Q l w)); [|auto].
  intros l' a w' [HJ' HQ']. split; [apply J_yield, HJ' | apply Q_keep; assumption].
Qed.

Lemma scanLinks_each links w :
  J w -> fst (scanLinks links yield tt w) = Normal tt ->
  forall l, l ∈ links -> isActive w0 l = true ->
            Q l (after (scanLinks links yield tt) w).
Proof.
  revert w. induction links as [|l0 links IH]; intros w HJ Hret l Hin Hact.
  { inversion Hin. }
  pose proof (fixed_isActive _ _ (J_fixed w HJ) l0) as Hact0.
  revert Hret. unfold after. rewrite scanLinks_cons.
  unfold isActive in Hact0 at 1.
  destruct (regExp w (hrefOf w l0)) as [re|]; [|discriminate].
  destruct (re (location_href w)) eqn:Hre.
  - pose proof (J_yield l0 tt w HJ) as HJ1.
    pose proof (Q_yield l0 tt w HJ) as HQ1.
    unfold after in HJ1, HQ1.
    destruct (yield l0 tt w) as [[[]|e] w1]; [|discriminate].
    cbn [fst snd] in *. intros Hret.
    destruct (decide (l ∈ links)) as [Hl|Hl].
    + apply (IH w1 HJ1 Hret l Hl Hact).
    + apply elem_of_cons in Hin as [->|Hin]; [|contradiction].
      apply (scanLinks_keeps_Q l0 links w1 HJ1). apply HQ1. reflexivity.
  - intros Hret.
    apply elem_of_cons in Hin as [->|Hin]; [congruence|].
    apply (IH w HJ Hret l Hin Hact).
Qed.

End Scan.

Lemma activateLink_keeps_sections link action :
  keeps sections (activateLink link action).
Proof. frame_field. Qed.

Lemma activateLink_keeps_length link action :
  keeps (fun w => length (document w)) (activateLink link action).
Proof. frame_length. Qed.

Lemma activateLink_keeps_flag attr link action :
  keeps (flag attr) (activateLink link action).
Proof.
  intros w. rewrite !flag_bodyAttribute.
  rewrite (activateLink_keeps_bodyAttribute _ link action (attrName_not_aria attr)).
  reflexivity.
Qed.

(** The loop of [show()] and of [initActiveLinks()], with the action the
    flag [show] selects. *)
Lemma activateEach_settles (yield : elem -> unit -> M unit) action w0 links :
  (forall l a w, flag BodyAttr.show w = flag BodyAttr.show w0 ->
                 yield l a w = activateLink l action w) ->
  fst (scanLinks links yield tt w0) = Normal tt ->
  forall link section,
    link ∈ links -> link ∈ navLinks w0 -> isActive w0 link = true ->
    groupOf w0 link = Some section ->
    settled action link section (after (scanLinks links yield tt) w0).
Proof.
  intros Hy Hret link section Hin Hnav Hact Hgroup.
  set (J := fun w => fixedPart w = fixedPart w0 /\ sections w = sections w0 /\
                     flag BodyAttr.show w = flag BodyAttr.show w0).
  set (Q := fun (l : elem) (w : World) =>
              forall s, l ∈ navLinks w0 -> groupOf w0 l = Some s ->
                        settled action l s w).
  assert (HJ : forall l a w, J w -> J (after (yield l a) w)).
  { intros l a w (Hf & Hs & Hflag). unfold after. rewrite (Hy l a w Hflag).
    fold (after (activateLink l action) w). split; [|split].
    - rewrite activateLink_keeps_fixedPart. exact Hf.
    - rewrite activateLink_keeps_sections. exact Hs.
    - rewrite activateLink_keeps_flag. exact Hflag. }
  apply (scanLinks_each yield w0 J Q); try assumption.
  - intros w (Hf & _). exact Hf.
  - intros l a w (Hf & Hs & Hflag) _ [g c] Hl Hg. unfold after.
    rewrite (Hy l a w Hflag).
    assert (Hg' : groupOf w l = Some (g, c)) by (rewrite (groupOf_same w0 w); assumption).
    rewrite (activateLink_groupOf w l action g c Hg').
    pose proof (same_length _ _ (fixed_skeleton _ _ Hf)) as Hlen.
    apply activateGroup_settles.
    + rewrite Hlen. apply (querySelectorAll_lt _ _ _ _ Hl).
    + apply (groupOf_lt _ _ _ _ Hg').
  - intros l l' a w (Hf & Hs & Hflag) HQ s Hl Hg. unfold after.
    rewrite (Hy l' a w Hflag). fold (after (activateLink l' action) w).
    apply (activateLink_preserves (settled action l s)).
    + intros g' c'. apply activateGroup_keeps_settled.
    + apply HQ; assumption.
  - repeat split.
Qed.

Lemma getActiveLinks_run {A} (yield : elem -> A -> M A) acc w :
  getActiveLinks yield acc w = scanLinks (navLinks w) yield acc w.
Proof. reflexivity. Qed.

Lemma bodyAdd_keeps_fixedPart attrs : keeps fixedPart (bodyAdd attrs).
Proof. frame_skeleton. Qed.

Lemma bodyRemove_keeps_fixedPart attrs : keeps fixedPart (bodyRemove attrs).
Proof. frame_skeleton. Qed.

Lemma bodyAdd_keeps_sections attrs : keeps sections (bodyAdd attrs).
Proof. frame_field. Qed.

Lemma bodyRemove_keeps_sections attrs : keeps sections (bodyRemove attrs).
Proof. frame_field. Qed.

Lemma showPrefix_fixedPart w : fixedPart (showPrefix w) = fixedPart w.
Proof.
  unfold showPrefix. rewrite bodyRemove_keeps_fixedPart. apply bodyAdd_keeps_fixedPart.
Qed.

Lemma showPrefix_sections w : sections (showPrefix w) = sections w.
Proof.
  unfold showPrefix. rewrite bodyRemove_keeps_sections. apply bodyAdd_keeps_sections.
Qed.

Lemma expandActiveLinks_run w :
  expandActiveLinks w
  = scanLinks (navLinks w) (fun link (_ : unit) => activateLink link expand) tt w.
Proof. reflexivity. Qed.

(** X14.  When [show()] returns, every navigation link that matches the
    location and lies in a registered section has been activated: the link
    and the group link of the section carry the class [active], the group
    link has [aria-expanded="true"] and no class [collapsed], and the panel
    is shown.  Activating a later link undoes nothing of it. *)
Theorem show_expands_active_sections (w : World) (link : elem)
    (section : elem * Collapse) :
  fst (show w) = Normal tt ->
  link ∈ navLinks w -> isActive w link = true ->
  groupOf w link = Some section ->
  sectionExpanded section (after show w) /\
  hasClass (document (after show w)) section.1 "active" = true /\
  hasClass (document (after show w)) link "active" = true.
Proof.
  intros Hret Hin Hact Hgroup.
  change (settled expand link section (after show w)).
  rewrite show_fst, expandActiveLinks_run in Hret.
  rewrite show_after. unfold after at 1. rewrite expandActiveLinks_run.
  pose proof (showPrefix_fixedPart w) as Hf.
  rewrite <- (fixed_navLinks _ _ Hf) in Hin.
  rewrite <- (fixed_isActive _ _ Hf) in Hact.
  rewrite <- (groupOf_same w (showPrefix w) link Hf (showPrefix_sections w)) in Hgroup.
  generalize dependent (showPrefix w). intros wp Hret Hf Hin Hact Hgroup.
  apply (activateEach_settles (fun link (_ : unit) => activateLink link expand)
           expand wp (navLinks wp)); try assumption.
  intros l a w' _. reflexivity.
Qed.

Lemma initActiveLinks_each (w : World) (link : elem) (section : elem * Collapse) :
  fst (initActiveLinks w) = Normal tt ->
  link ∈ navLinks w -> isActive w link = true ->
  groupOf w link = Some section ->
  settled (if flag BodyAttr.show w then expand else collapse) link section
          (after initActiveLinks w).
Proof.
  intros Hret Hin Hact Hgroup.
  unfold initActiveLinks, after in *. rewrite getActiveLinks_run in *.
  apply (activateEach_settles _ _ w (navLinks w)); try assumption.
  intros l a w' Hflag. unfold bind. rewrite bodyHas_flag, Hflag. reflexivity.
Qed.

(** X15.  When [initActiveLinks()] returns, every navigation link that
    matches the location and lies in a registered section has been
    activated with the action the flag [show] selects: on a shown nav the
    section is expanded and the link and the group link carry [active]; on
    a nav that is not shown the section is collapsed (class [collapsed],
    [aria-expanded="false"], panel hidden). *)
Theorem initActiveLinks_settles (w : World) (link : elem)
    (section : elem * Collapse) :
  fst (initActiveLinks w) = Normal tt ->
  link ∈ navLinks w -> isActive w link = true ->
  groupOf w link = Some section ->
  settled (if flag BodyAttr.show w then expand else collapse) link section
          (after initActiveLinks w).
Proof. apply initActiveLinks_each. Qed.

(** ** What the constructor establishes *)

Lemma constructor_run w :
  constructor w = (init;;; initSectionLinks;;; initActiveLinks) (newInstance w).
Proof. reflexivity. Qed.

Lemma initSectionLinks_nothrow : nothrow initSectionLinks.
Proof. intros w. exists tt. rewrite initSectionLinks_run. reflexivity. Qed.

Lemma registerAll_same doc doc' found secs :
  skeleton doc' = skeleton doc ->
  registerAll doc' found secs = registerAll doc found secs.
Proof.
  intros Hsk. revert secs. induction found as [|s found IH]; intros secs; [reflexivity|].
  cbn [registerAll fold_left]. rewrite (same_panelOf _ _ Hsk). apply IH.
Qed.

(** The fields the visibility operations leave alone are left alone by the
    resize handler, up to [currentMobileState]. *)
Lemma pin_keeps_sections : keeps sections pin.
Proof. frame_field. Qed.

Lemma unpin_keeps_sections : keeps sections unpin.
Proof. frame_field. Qed.

Lemma show_keeps_activeLink : keeps activeLink show.
Proof. frame_field. Qed.

Lemma hide_keeps_activeLink : keeps activeLink hide.
Proof. frame_field. Qed.

Lemma pin_keeps_activeLink : keeps activeLink pin.
Proof. frame_field. Qed.

Lemma unpin_keeps_activeLink : keeps activeLink unpin.
Proof. frame_field. Qed.

Lemma onResize_keeps_sections : keeps sections onResize.
Proof.
  apply keeps_preserves. intros v. apply onResize_preserves.
  - apply (proj1 (keeps_preserves _ _) hide_keeps_sections).
  - apply (proj1 (keeps_preserves _ _) pin_keeps_sections).
  - apply (proj1 (keeps_preserves _ _) unpin_keeps_sections).
  - intros m w H. exact H.
Qed.

Lemma onResize_keeps_activeLink : keeps activeLink onResize.
Proof.
  apply keeps_preserves. intros v. apply onResize_preserves.
  - apply (proj1 (keeps_preserves _ _) hide_keeps_activeLink).
  - apply (proj1 (keeps_preserves _ _) pin_keeps_activeLink).
  - apply (proj1 (keeps_preserves _ _) unpin_keeps_activeLink).
  - intros m w H. exact H.
Qed.

Lemma desktop_after (m : M unit) w :
  after (m;;; modify (setCurrentMobileState (Some false))) w =
    match fst (m w) with
    | Normal _ => setCurrentMobileState (Some false) (after m w)
    | Throw _ => after m w
    end.
Proof. rewrite after_bind. destruct (fst (m w)); reflexivity. Qed.

(** What the resize handler runs of the visibility operations. *)
Lemma onResize_cases w :
  after onResize w = w \/
  (mobileLayout w = true /\
   after onResize w = setCurrentMobileState (Some true) (after hide w)) \/
  (mobileLayout w = false /\
   exists w', (w' = after (if pinned (state w) then pin else unpin) w) /\
              (after onResize w = w' \/
               after onResize w = setCurrentMobileState (Some false) w')).
Proof.
  destruct (decide (currentMobileState w = Some (mobileLayout w))) as [Hc|Hc].
  { left. unfold after. rewrite (onResize_noop w Hc). reflexivity. }
  right. destruct (mobileLayout w) eqn:Hm.
  - left. split; [reflexivity|]. unfold after.
    rewrite (onResize_mobile_run w Hm), bool_decide_eq_false_2 by exact Hc.
    reflexivity.
  - right. split; [reflexivity|]. eexists. split; [reflexivity|].
    unfold after at 1 3. rewrite (onResize_desktop_run w Hm Hc).
    fold (after ((if pinned (state w) then pin else unpin);;;
                 modify (setCurrentMobileState (Some false))) w).
    rewrite desktop_after.
    destruct (fst ((if pinned (state w) then pin else unpin) w)); auto.
Qed.

Lemma onResize_keeps_preference w :
  pinned (state (after onResize w)) = pinned (state w).
Proof.
  destruct (onResize_cases w) as [->|[[_ ->]|[_ (w' & -> & [->| ->])]]];
    try reflexivity.
  - cbn [state setCurrentMobileState]. rewrite (hide_keeps_state _). reflexivity.
  - destruct (pinned (state w)) eqn:Hp; [rewrite pin_state | rewrite unpin_state];
      reflexivity.
  - cbn [state setCurrentMobileState].
    destruct (pinned (state w)) eqn:Hp; [rewrite pin_state | rewrite unpin_state];
      reflexivity.
Qed.

(** The flags a first call of the resize handler leaves. *)
Lemma onResize_first_flags w :
  currentMobileState w = None -> body w < length (document w) ->
  flag BodyAttr.show (after onResize w) = opensAtLoad w /\
  flag BodyAttr.pinned (after onResize w) = opensAtLoad w /\
  flag BodyAttr.hidden (after onResize w) = negb (opensAtLoad w) /\
  flag BodyAttr.hide (after onResize w) = false.
Proof.
  intros Hc Hb. unfold opensAtLoad.
  assert (Hne : currentMobileState w <> Some (mobileLayout w)) by (rewrite Hc; discriminate).
  destruct (mobileLayout w) eqn:Hm.
  - unfold after. rewrite (onResize_mobile_run w Hm), bool_decide_eq_false_2 by exact Hne.
    cbn [snd]. rewrite !flag_setCurrentMobileState.
    destruct (hide_flags w) as (H1 & H2 & H3 & H4).
    rewrite H1, H2, H3, H4, bool_decide_eq_true_2 by exact Hb. auto.
  - unfold after at 1 2 3 4. rewrite (onResize_desktop_run w Hm Hne).
    fold (after ((if pinned (state w) then pin else unpin);;;
                 modify (setCurrentMobileState (Some false))) w).
    rewrite desktop_after.
    assert (Hflags : forall attr,
      flag attr match fst ((if pinned (state w) then pin else unpin) w) with
                | Normal _ => setCurrentMobileState (Some false)
                                (after (if pinned (state w) then pin else unpin) w)
                | Throw _ => after (if pinned (state w) then pin else unpin) w
                end
      = flag attr (after (if pinned (state w) then pin else unpin) w)).
    { intros attr. destruct (fst _); [apply flag_setCurrentMobileState | reflexivity]. }
    rewrite !Hflags. destruct (pinned (state w)).
    + destruct (pin_flags w) as (H1 & H2 & H3 & H4).
      rewrite H1, H2, H3, H4, bool_decide_eq_true_2 by exact Hb. auto.
    + destruct (unpin_flags w) as (H1 & H2 & H3 & H4).
      rewrite H1, H2, H3, H4, bool_decide_eq_true_2 by exact Hb. auto.
Qed.

Lemma initActiveLinks_keeps_flag attr : keeps (flag attr) initActiveLinks.
Proof.
  assert (K : keeps (bodyAttribute (attrName attr)) initActiveLinks).
  { pose proof (attrName_not_aria attr). frame_bodyAttribute. }
  intros w. rewrite !flag_bodyAttribute, K. reflexivity.
Qed.

Lemma initActiveLinks_keeps_fields w :
  sections (after initActiveLinks w) = sections w /\
  currentMobileState (after initActiveLinks w) = currentMobileState w /\
  activeLink (after initActiveLinks w) = activeLink w /\
  state (after initActiveLinks w) = state w.
Proof.
  split; [|split; [|split]].
  - revert w. change (keeps sections initActiveLinks). frame_field.
  - revert w. change (keeps currentMobileState initActiveLinks). frame_field.
  - revert w. change (keeps activeLink initActiveLinks). frame_field.
  - revert w. change (keeps state initActiveLinks). frame_field.
Qed.

Lemma constructor_returns w :
  fst (constructor w) = Normal tt ->
  fst (onResize (newInstance w)) = Normal tt /\
  fst (initActiveLinks (after initSectionLinks (after onResize (newInstance w))))
    = Normal tt /\
  after constructor w =
    after initActiveLinks (after initSectionLinks (after onResize (newInstance w))).
Proof.
  assert (Ha : after constructor w
               = after (init;;; initSectionLinks;;; initActiveLinks) (newInstance w))
    by reflexivity.
  rewrite Ha, constructor_run, fst_bind, after_bind. unfold init.
  destruct (fst (onResize (newInstance w))) as [[]|e]; [|discriminate].
  rewrite fst_seq, after_seq by apply initSectionLinks_nothrow.
  intros H. split; [reflexivity|]. split; [exact H | reflexivity].
Qed.

(** X16.  What [new SideNav(base)] establishes when it returns, on a page
    whose [document.body] is in the document.  The registry holds the
    section links of the page with their panels; [currentMobileState]
    tells the layout and no link is the active one; the stored preference
    is as it was.  On a desktop layout with the preference set the nav is
    open, with the flags [show] and [pinned], and every navigation link
    that matches the location and lies in a registered section is expanded
    and active; otherwise the nav is closed, with the flag [hidden] alone,
    and the sections of those links are collapsed. *)
Theorem constructor_establishes (w : World) :
  body w < length (document w) ->
  fst (constructor w) = Normal tt ->
  let w' := after constructor w in
  sections w' =
    registerAll (document w)
                (documentQuerySelectorAll (document w) sectionLinkSelector) [] /\
  currentMobileState w' = Some (mobileLayout w) /\
  activeLink w' = None /\
  pinned (state w') = pinned (state w) /\
  flag BodyAttr.show w' = opensAtLoad w /\
  flag BodyAttr.pinned w' = opensAtLoad w /\
  flag BodyAttr.hidden w' = negb (opensAtLoad w) /\
  flag BodyAttr.hide w' = false /\
  forall link section,
    link ∈ navLinks w -> isActive w link = true ->
    groupOf w' link = Some section ->
    settled (if opensAtLoad w then expand else collapse) link section w'.
Proof.
  intros Hb Hret. cbn zeta.
  destruct (constructor_returns w Hret) as (Hr1 & Hr3 & ->).
  set (w1 := after onResize (newInstance w)) in *.
  set (w2 := after initSectionLinks w1) in *.
  assert (Hf1 : fixedPart w1 = fixedPart w).
  { unfold w1. rewrite (listener_keeps_fixedPart Resize). reflexivity. }
  assert (Hs1 : sections w1 = []).
  { unfold w1. rewrite onResize_keeps_sections. reflexivity. }
  assert (Hw2 : w2 = setSections
                       (registerAll (document w)
                          (documentQuerySelectorAll (document w) sectionLinkSelector) [])
                       w1).
  { unfold w2, after. rewrite initSectionLinks_run. cbn [snd]. rewrite Hs1.
    rewrite (registerAll_same _ _ _ _ (fixed_skeleton _ _ Hf1)).
    rewrite (same_documentQuerySelectorAll _ _ (fixed_skeleton _ _ Hf1)) by reflexivity.
    reflexivity. }
  assert (Hf2 : fixedPart w2 = fixedPart w) by (rewrite Hw2; exact Hf1).
  assert (Hflag2 : forall attr, flag attr w2 = flag attr w1) by (rewrite Hw2; reflexivity).
  destruct (initActiveLinks_keeps_fields w2) as (Hs3 & Hc3 & Ha3 & Hst3).
  destruct (onResize_first_flags (newInstance w) eq_refl Hb) as (F1 & F2 & F3 & F4).
  change (opensAtLoad (newInstance w)) with (opensAtLoad w) in *.
  fold w1 in F1, F2, F3, F4.
  split; [rewrite Hs3, Hw2; reflexivity|].
  split.
  { rewrite Hc3, Hw2. cbn [currentMobileState setSections].
    apply (onResize_currentMobileState (newInstance w) Hr1). }
  split.
  { rewrite Ha3, Hw2. cbn [activeLink setSections]. unfold w1.
    rewrite onResize_keeps_activeLink. reflexivity. }
  split.
  { rewrite Hst3, Hw2. cbn [state setSections]. unfold w1.
    rewrite onResize_keeps_preference. reflexivity. }
  rewrite !initActiveLinks_keeps_flag, !Hflag2.
  split; [exact F1|]. split; [exact F2|]. split; [exact F3|]. split; [exact F4|].
  intros link section Hin Hact Hgroup.
  rewrite <- F1, <- Hflag2. apply initActiveLinks_each.
  - exact Hr3.
  - rewrite (fixed_navLinks _ _ Hf2). exact Hin.
  - rewrite (fixed_isActive _ _ Hf2). exact Hact.
  - rewrite <- Hgroup. symmetry. apply groupOf_same; [|exact Hs3].
    apply initActiveLinks_keeps_fixedPart.
Qed.

(** ** The fields of the instance over a sequence of events *)

Lemma unpin_keeps_currentMobileState : keeps currentMobileState unpin.
Proof. frame_field. Qed.

Lemma handleSectionClick_keeps_currentMobileState target :
  keeps currentMobileState (handleSectionClick target).
Proof. frame_field. Qed.

Lemma listener_keeps_sections ev : keeps sections (listener ev).
Proof.
  apply keeps_preserves. intros v. apply listener_preserves.
  - apply (proj1 (keeps_preserves _ _) show_keeps_sections).
  - apply (proj1 (keeps_preserves _ _) hide_keeps_sections).
  - apply (proj1 (keeps_preserves _ _) pin_keeps_sections).
  - apply (proj1 (keeps_preserves _ _) unpin_keeps_sections).
  - intros w H. exact H.
  - intros _ m w H. exact H.
  - intros target _.
    apply (proj1 (keeps_preserves _ _) (handleSectionClick_keeps_sections target)).
Qed.

Lemma listener_activeLink ev w :
  activeLink (after (listener ev) w) =
    match ev with
    | SectionClick target => Some target
    | _ => activeLink w
    end.
Proof.
  assert (K : (forall target, ev <> SectionClick target) ->
              keeps activeLink (listener ev)).
  { intros Hne. apply keeps_preserves. intros v. apply listener_preserves.
    - apply (proj1 (keeps_preserves _ _) show_keeps_activeLink).
    - apply (proj1 (keeps_preserves _ _) hide_keeps_activeLink).
    - apply (proj1 (keeps_preserves _ _) pin_keeps_activeLink).
    - apply (proj1 (keeps_preserves _ _) unpin_keeps_activeLink).
    - intros w' H. exact H.
    - intros _ m w' H. exact H.
    - intros target Heq. contradiction (Hne target Heq). }
  destruct ev; try (apply K; discriminate).
  apply handleSectionClick_activeLink.
Qed.

Lemma listener_currentMobileState ev w :
  ev <> Resize ->
  currentMobileState (after (listener ev) w) = currentMobileState w.
Proof.
  intros Hne. revert w. change (keeps currentMobileState (listener ev)).
  apply keeps_preserves. intros v. apply listener_preserves.
  - apply (proj1 (keeps_preserves _ _) show_keeps_currentMobileState).
  - apply (proj1 (keeps_preserves _ _) hide_keeps_currentMobileState).
  - apply (proj1 (keeps_preserves _ _) pin_keeps_currentMobileState).
  - apply (proj1 (keeps_preserves _ _) unpin_keeps_currentMobileState).
  - intros w' H. exact H.
  - intros Heq. contradiction (Hne Heq).
  - intros target _.
    apply (proj1 (keeps_preserves _ _)
             (handleSectionClick_keeps_currentMobileState target)).
Qed.

Lemma listener_preference ev w :
  pinned (state (after (listener ev) w)) =
    if isToggleClick ev then negb (pinned (state w)) else pinned (state w).
Proof.
  destruct (other_methods_keep_state) as (_ & Hclick & _ & _ & Henter & Hleave & Hmobile).
  destruct ev; cbn [listener isToggleClick].
  - apply onResize_keeps_preference.
  - apply onToggle_state.
  - rewrite (Hmobile w). reflexivity.
  - rewrite (Hclick target w). reflexivity.
  - rewrite (Henter w). reflexivity.
  - rewrite (Hleave w). reflexivity.
Qed.

(** X17.  The fields of the instance over any sequence of events, each
    listener returning or throwing.  The registry is never written again.
    [activeLink] is the target of the last click on a section link.  The
    stored preference is flipped by each click on a pin toggler and by
    nothing else: the resize handler, which calls [pin()] or [unpin()],
    writes back the value it has read.  [currentMobileState] is written by
    the resize handler alone. *)
Theorem fields_over_events (w : World) (events : list Event) :
  let w' := dispatch events w in
  sections w' = sections w /\
  activeLink w' = lastSectionClick events (activeLink w) /\
  pinned (state w') =
    xorb (pinned (state w)) (Nat.odd (length (List.filter isToggleClick events))) /\
  (Resize ∉ events -> currentMobileState w' = currentMobileState w).
Proof.
  cbn zeta. revert w. induction events as [|ev events IH]; intros w.
  { simpl. rewrite xorb_false_r. auto. }
  cbn [dispatch fold_left]. fold (dispatch events (after (listener ev) w)).
  destruct (IH (after (listener ev) w)) as (Hs & Ha & Hp & Hc).
  split; [rewrite Hs; apply listener_keeps_sections|].
  split.
  { rewrite Ha, listener_activeLink. unfold lastSectionClick. cbn [fold_left].
    destruct ev; reflexivity. }
  split.
  { rewrite Hp, listener_preference. cbn [List.filter].
    destruct (isToggleClick ev); [|reflexivity].
    cbn [length]. rewrite Nat.odd_succ, <- Nat.negb_odd.
    destruct (pinned (state w)), (Nat.odd _); reflexivity. }
  intros Hno. rewrite Hc.
  - apply listener_currentMobileState. intros ->. apply Hno, list_elem_of_here.
  - intros Hin. apply Hno, list_elem_of_further, Hin.
Qed.

(** ** The flags between two events *)

Lemma handleSectionClick_keeps_flag attr target :
  keeps (flag attr) (handleSectionClick target).
Proof.
  assert (K : keeps (bodyAttribute (attrName attr)) (handleSectionClick target)).
  { pose proof (attrName_not_aria attr). frame_bodyAttribute. }
  intros w. rewrite !flag_bodyAttribute, K. reflexivity.
Qed.

Lemma body_in_document_preserves {A} (m : M A) :
  keeps body m -> keeps (fun w => length (document w)) m ->
  preserves (fun w => body w < length (document w)) m.
Proof. intros Hb Hl w H. rewrite (Hb w), (Hl w). exact H. Qed.

Lemma show_flagsSettled :
  preserves (fun w => body w < length (document w) /\ flagsSettled w) show.
Proof.
  intros w [Hb (Hh & Hhid & Hp)].
  split; [apply (body_in_document_preserves show show_keeps_body show_keeps_length), Hb|].
  destruct (show_flags w) as (F1 & F2 & F3 & F4).
  rewrite (bool_decide_eq_true_2 _ Hb) in F4.
  unfold flagsSettled. rewrite F1, F2, F3, F4, (show_keeps_state w).
  split; [reflexivity|]. split; [reflexivity|].
  intros H. split; [reflexivity | apply Hp, H].
Qed.

Lemma hide_flagsSettled :
  preserves (fun w => body w < length (document w) /\ flagsSettled w) hide.
Proof.
  intros w [Hb _].
  split; [apply (body_in_document_preserves hide hide_keeps_body hide_keeps_length), Hb|].
  destruct (hide_flags w) as (F1 & F2 & F3 & F4).
  rewrite (bool_decide_eq_true_2 _ Hb) in F4.
  unfold flagsSettled. rewrite F1, F2, F3, F4.
  split; [reflexivity|]. split; [reflexivity|]. discriminate.
Qed.

Lemma pin_flagsSettled :
  preserves (fun w => body w < length (document w) /\ flagsSettled w) pin.
Proof.
  intros w [Hb _].
  split; [apply (body_in_document_preserves pin pin_keeps_body pin_keeps_length), Hb|].
  destruct (pin_flags w) as (F1 & F2 & F3 & F4).
  rewrite (bool_decide_eq_true_2 _ Hb) in F3, F4.
  unfold flagsSettled. rewrite F1, F2, F3, F4, pin_state.
  split; [reflexivity|]. split; [reflexivity|]. auto.
Qed.

Lemma unpin_flagsSettled :
  preserves (fun w => body w < length (document w) /\ flagsSettled w) unpin.
Proof.
  intros w [Hb _].
  split; [apply (body_in_document_preserves unpin unpin_keeps_body unpin_keeps_length), Hb|].
  destruct (unpin_flags w) as (F1 & F2 & F3 & F4).
  rewrite (bool_decide_eq_true_2 _ Hb) in F4.
  unfold flagsSettled. rewrite F1, F2, F3, F4.
  split; [reflexivity|]. split; [reflexivity|]. discriminate.
Qed.

Lemma handleSectionClick_flagsSettled target :
  preserves (fun w => body w < length (document w) /\ flagsSettled w)
            (handleSectionClick target).
Proof.
  destruct (other_methods_keep_state) as (_ & Hclick & _).
  intros w [Hb Hf]. split.
  - apply (body_in_document_preserves _ (handleSectionClick_keeps_body target)
             (handleSectionClick_keeps_length target)), Hb.
  - unfold flagsSettled in *.
    rewrite !handleSectionClick_keeps_flag, (Hclick target w). exact Hf.
Qed.

Lemma initActiveLinks_flagsSettled :
  preserves (fun w => body w < length (document w) /\ flagsSettled w) initActiveLinks.
Proof.
  destruct (other_methods_keep_state) as (_ & _ & _ & Hinit & _).
  intros w [Hb Hf]. split.
  - assert (Kb : keeps body initActiveLinks) by frame_field.
    assert (Kl : keeps (fun w => length (document w)) initActiveLinks) by frame_length.
    apply (body_in_document_preserves _ Kb Kl), Hb.
  - unfold flagsSettled in *.
    rewrite !initActiveLinks_keeps_flag, (Hinit w). exact Hf.
Qed.

Lemma onResize_first_flagsSettled w :
  currentMobileState w = None -> body w < length (document w) ->
  body (after onResize w) < length (document (after onResize w)) /\
  flagsSettled (after onResize w).
Proof.
  intros Hc Hb. split.
  - pose proof (listener_keeps_fixedPart Resize w) as Hf. cbn [listener] in Hf.
    pose proof (same_length _ _ (fixed_skeleton _ _ Hf)) as Hl.
    rewrite Hl. unfold fixedPart in Hf.
    replace (body (after onResize w)) with (body w) by congruence. exact Hb.
  - destruct (onResize_first_flags w Hc Hb) as (F1 & F2 & F3 & F4).
    unfold flagsSettled. rewrite F1, F2, F3, F4, onResize_keeps_preference.
    split; [reflexivity|]. split; [reflexivity|].
    unfold opensAtLoad. intros H. split; [exact H|].
    apply andb_true_iff in H as [_ H]. exact H.
Qed.

Lemma constructor_flagsSettled w :
  body w < length (document w) ->
  body (after constructor w) < length (document (after constructor w)) /\
  flagsSettled (after constructor w).
Proof.
  intros Hb.
  assert (Ha : after constructor w
               = after (init;;; initSectionLinks;;; initActiveLinks) (newInstance w))
    by reflexivity.
  rewrite Ha, after_bind. unfold init.
  pose proof (onResize_first_flagsSettled (newInstance w) eq_refl Hb) as H1.
  destruct (fst (onResize (newInstance w))); [|exact H1].
  rewrite after_seq by apply initSectionLinks_nothrow.
  apply initActiveLinks_flagsSettled.
  assert (Hs : exists secs, after initSectionLinks (after onResize (newInstance w))
                            = setSections secs (after onResize (newInstance w))).
  { eexists. unfold after at 1. rewrite initSectionLinks_run. reflexivity. }
  destruct Hs as [secs ->]. exact H1.
Qed.

(** X18.  The flags of [document.body] between two events.  Once the
    constructor has run, on a page whose [document.body] is in the
    document, and after any sequence of events since, whether the
    constructor and the listeners have returned or thrown: the flag [hide]
    is cleared, exactly one of [show] and [hidden] is set, and [pinned] is
    set only together with [show] and with a stored preference that is
    set. *)
Theorem flags_settled_between_events (w : World) (events : list Event) :
  body w < length (document w) ->
  let w' := dispatch events (after constructor w) in
  flag BodyAttr.hide w' = false /\
  flag BodyAttr.hidden w' = negb (flag BodyAttr.show w') /\
  (flag BodyAttr.pinned w' = true ->
   flag BodyAttr.show w' = true /\ pinned (state w') = true).
Proof.
  intros Hb. cbn zeta.
  apply (dispatch_preserves
           (fun w => body w < length (document w) /\ flagsSettled w)).
  - apply show_flagsSettled.
  - apply hide_flagsSettled.
  - apply pin_flagsSettled.
  - apply unpin_flagsSettled.
  - intros w' H. exact H.
  - intros m w' H. exact H.
  - apply handleSectionClick_flagsSettled.
  - apply constructor_flagsSettled, Hb.
Qed.

(** ** When the methods return *)

Lemma activateLink_fst link action w :
  fst (activateLink link action w) =
    match outermostNavItem (document w) link with
    | Normal _ => Normal tt
    | Throw e => Throw e
    end.
Proof.
  destruct (outermostNavItem (document w) link) as [n|e] eqn:Hn.
  - destruct (groupLinkOf (document w) n) as [g|] eqn:Hg.
    + destruct (mapGet g (sections w)) as [c|] eqn:Hc.
      * rewrite (activateLink_found w link action n g c Hn Hg Hc).
        apply nothrow_unit, activateGroup_nothrow.
      * rewrite (activateLink_noop w link action n Hn) by eauto. reflexivity.
    + rewrite (activateLink_noop w link action n Hn) by auto. reflexivity.
  - rewrite (activateLink_throws w link action e Hn). reflexivity.
Qed.

Lemma passable_fixed w w' link :
  fixedPart w' = fixedPart w -> passable w' link <-> passable w link.
Proof.
  intros Hf. unfold passable.
  rewrite (fixed_compiles _ _ Hf), (fixed_isActive _ _ Hf),
    (same_outermostNavItem _ _ (fixed_skeleton _ _ Hf)).
  reflexivity.
Qed.

Lemma scannable_fixed w w' : fixedPart w' = fixedPart w -> scannable w' <-> scannable w.
Proof.
  intros Hf. unfold scannable. rewrite (fixed_navLinks _ _ Hf).
  apply Forall_iff. intros link. apply passable_fixed, Hf.
Qed.

(** The loop over the generator returns exactly on the links that compile
    and, when they match, can be walked from. *)
Section ScanReturns.
Context (yield : elem -> unit -> M unit) (action : Action).
Context (w0 : World) (F : World -> Prop).
Context (F_yield : forall l a w, F w -> yield l a w = activateLink l action w).
Context (F_keep : forall l, preserves F (activateLink l action)).

Lemma scanLinks_returns_iff links w :
  fixedPart w = fixedPart w0 -> F w ->
  fst (scanLinks links yield tt w) = Normal tt <-> Forall (passable w0) links.
Proof.
  revert w. induction links as [|l links IH]; intros w Hf HF.
  { split; [constructor | reflexivity]. }
  rewrite Forall_cons, scanLinks_cons. unfold passable at 1.
  pose proof (fixed_compiles _ _ Hf l) as Hcomp.
  pose proof (fixed_isActive _ _ Hf l) as Hact.
  pose proof (same_outermostNavItem _ _ (fixed_skeleton _ _ Hf) l) as Hwalk.
  unfold compiles in Hcomp. unfold isActive in Hact at 1.
  destruct (regExp w (hrefOf w l)) as [re|].
  - destruct (re (location_href w)) eqn:Hre.
    + rewrite (F_yield l tt w HF), (run_eta (activateLink l action) w), activateLink_fst.
      rewrite Hwalk.
      destruct (outermostNavItem (document w0) l) as [n|e].
      * rewrite IH.
        -- split; [|intros [_ H]; exact H].
           intros H. split; [|exact H]. split; [apply Hcomp; eauto | eauto].
        -- rewrite activateLink_keeps_fixedPart. exact Hf.
        -- apply F_keep, HF.
      * split; [discriminate|]. intros [[_ H] _].
        destruct (H (eq_sym Hact)) as [n [=]].
    + rewrite (IH w Hf HF). split; [|intros [_ H]; exact H].
      intros H. split; [|exact H]. split; [apply Hcomp; eauto|].
      intros H'. congruence.
  - split; [discriminate|]. intros [[H _] _]. apply Hcomp in H.
    destruct H as [x [=]].
Qed.

End ScanReturns.

Lemma show_returns_iff w : fst (show w) = Normal tt <-> scannable w.
Proof.
  rewrite show_fst, expandActiveLinks_run.
  pose proof (showPrefix_fixedPart w) as Hf.
  rewrite (scanLinks_returns_iff _ expand w (fun _ => True)); try auto.
  - unfold scannable. rewrite (fixed_navLinks _ _ Hf). reflexivity.
  - intros l w' _. exact I.
Qed.

Lemma initActiveLinks_returns_iff w :
  fst (initActiveLinks w) = Normal tt <-> scannable w.
Proof.
  unfold initActiveLinks. rewrite getActiveLinks_run.
  rewrite (scanLinks_returns_iff _ (if flag BodyAttr.show w then expand else collapse)
             w (fun w' => flag BodyAttr.show w' = flag BodyAttr.show w)); try reflexivity.
  - intros l a w' Hflag. unfold bind. rewrite bodyHas_flag, Hflag. reflexivity.
  - intros l w' Hflag. rewrite activateLink_keeps_flag. exact Hflag.
Qed.

Lemma stateSet_keeps_fixedPart value : keeps fixedPart (stateSet value).
Proof. frame_skeleton. Qed.

Lemma pinPrefix_fixedPart w : fixedPart (pinPrefix w) = fixedPart w.
Proof.
  unfold pinPrefix. rewrite bodyAdd_keeps_fixedPart. apply stateSet_keeps_fixedPart.
Qed.

Lemma pin_returns_iff w : fst (pin w) = Normal tt <-> scannable w.
Proof.
  rewrite pin_fst, show_returns_iff. apply scannable_fixed, pinPrefix_fixedPart.
Qed.

Lemma onToggle_fst w :
  fst (onToggle w) = fst ((if pinned (state w) then unpin else pin) (record PreventDefault w)).
Proof.
  unfold onToggle. rewrite fst_seq by apply nothrow_modify.
  rewrite fst_bind. reflexivity.
Qed.

Lemma onMobileToggle_fst w :
  fst (onMobileToggle w)
  = fst ((if flag BodyAttr.show w then hide else show) (record PreventDefault w)).
Proof.
  unfold onMobileToggle. rewrite fst_seq by apply nothrow_modify.
  rewrite fst_bind. reflexivity.
Qed.

Lemma onResize_returns w : scannable w -> fst (onResize w) = Normal tt.
Proof.
  intros Hs.
  destruct (decide (currentMobileState w = Some (mobileLayout w))) as [Hc|Hc].
  { rewrite (onResize_noop w Hc). reflexivity. }
  destruct (mobileLayout w) eqn:Hm.
  - rewrite (onResize_mobile_run w Hm). case_bool_decide; reflexivity.
  - rewrite (onResize_desktop_run w Hm Hc), fst_bind.
    destruct (pinned (state w)).
    + rewrite (proj2 (pin_returns_iff w) Hs). reflexivity.
    + rewrite (nothrow_unit unpin w unpin_nothrow). reflexivity.
Qed.

Lemma listener_returns ev w : scannable w -> fst (listener ev w) = Normal tt.
Proof.
  intros Hs. destruct ev; cbn [listener].
  - apply onResize_returns, Hs.
  - rewrite onToggle_fst. destruct (pinned (state w)).
    + apply nothrow_unit, unpin_nothrow.
    + apply pin_returns_iff. exact Hs.
  - rewrite onMobileToggle_fst. destruct (flag BodyAttr.show w).
    + apply nothrow_unit, hide_nothrow.
    + apply show_returns_iff. exact Hs.
  - apply nothrow_unit, handleSectionClick_nothrow.
  - rewrite (proj1 (hover_run w)). destruct (_ || _); [reflexivity|].
    apply show_returns_iff, Hs.
  - rewrite (proj2 (hover_run w)). destruct (_ || _); [reflexivity|].
    apply nothrow_unit, hide_nothrow.
Qed.

Lemma constructor_returns_iff w : fst (constructor w) = Normal tt <-> scannable w.
Proof.
  rewrite constructor_run, fst_bind. unfold init.
  assert (Hf1 : fixedPart (after onResize (newInstance w)) = fixedPart w).
  { rewrite (listener_keeps_fixedPart Resize). reflexivity. }
  assert (Hf2 : fixedPart (after initSectionLinks (after onResize (newInstance w)))
                = fixedPart w).
  { rewrite initSectionLinks_keeps_fixedPart. exact Hf1. }
  split.
  - destruct (fst (onResize (newInstance w))) as [[]|e]; [|discriminate].
    rewrite fst_seq by apply initSectionLinks_nothrow.
    rewrite initActiveLinks_returns_iff. apply (proj1 (scannable_fixed _ _ Hf2)).
  - intros Hs.
    rewrite (onResize_returns (newInstance w)) by exact Hs.
    rewrite fst_seq by apply initSectionLinks_nothrow.
    apply initActiveLinks_returns_iff. apply (proj2 (scannable_fixed _ _ Hf2)), Hs.
Qed.

(** X19.  When [show()] returns: exactly when the URL of every navigation
    link is a regular expression and the walk of [activateLink] returns
    from every navigation link that matches the location.  The same holds
    of [pin()], of [initActiveLinks()] and of the constructor; [hide()],
    [unpin()], [initSectionLinks()] and [handleSectionClick(event)] always
    return. *)
Theorem show_returns_exactly_when_scannable (w : World) :
  (fst (show w) = Normal tt <-> scannable w) /\
  (fst (pin w) = Normal tt <-> scannable w) /\
  (fst (initActiveLinks w) = Normal tt <-> scannable w) /\
  (fst (constructor w) = Normal tt <-> scannable w) /\
  fst (hide w) = Normal tt /\
  fst (unpin w) = Normal tt /\
  fst (initSectionLinks w) = Normal tt /\
  (forall target, fst (handleSectionClick target w) = Normal tt).
Proof.
  split; [apply show_returns_iff|].
  split; [apply pin_returns_iff|].
  split; [apply initActiveLinks_returns_iff|].
  split; [apply constructor_returns_iff|].
  split; [apply nothrow_unit, hide_nothrow|].
  split; [apply nothrow_unit, unpin_nothrow|].
  split; [apply nothrow_unit, initSectionLinks_nothrow|].
  intros target. apply nothrow_unit, handleSectionClick_nothrow.
Qed.

(** X20.  On such a page nothing ever throws: the constructor returns, and
    so does every listener, after any sequence of events. *)
Theorem scannable_page_never_throws (w : World) (events : list Event) (ev : Event) :
  scannable w ->
  fst (constructor w) = Normal tt /\
  fst (listener ev (dispatch events (after constructor w))) = Normal tt.
Proof.
  intros Hs. split; [apply constructor_returns_iff, Hs|].
  apply listener_returns.
  assert (Hf : fixedPart (dispatch events (after constructor w)) = fixedPart w).
  { rewrite dispatch_keeps_fixedPart. apply constructor_keeps_fixedPart. }
  apply (proj2 (scannable_fixed _ _ Hf)), Hs.
Qed.

(** ** The scan is lazy *)

Lemma scanLinks_app {A} pre post (yield : elem -> A -> M A) acc w :
  scanLinks (pre ++ post) yield acc w =
    match scanLinks pre yield acc w with
    | (Normal a, w1) => scanLinks post yield a w1
    | (Throw e, w1) => (Throw e, w1)
    end.
Proof.
  revert acc w. induction pre as [|l pre IH]; intros acc w; [reflexivity|].
  rewrite <- app_comm_cons, !scanLinks_cons.
  destruct (regExp w (hrefOf w l)) as [re|]; [|reflexivity].
  destruct (re (location_href w)); [|apply IH].
  destruct (yield l acc w) as [[a|e] w1]; [apply IH | reflexivity].
Qed.

Lemma scanLinks_keeps_fixedPart links action w :
  fixedPart (after (scanLinks links (fun link (_ : unit) => activateLink link action) tt) w)
  = fixedPart w.
Proof.
  revert w. apply keeps_preserves. intros v. apply preserves_scanLinks.
  intros link a. apply (proj1 (keeps_preserves _ _) (activateLink_keeps_fixedPart link action)).
Qed.

(** X21.  [show()] consumes the generator lazily: the regular expression
    of a link is built only after the links before it have been
    activated.  When the URL of a navigation link is not a regular
    expression and the scan gets past the links before it, [show()] throws
    a [SyntaxError] at that link, and the sections of the active links
    before it have been expanded by then. *)
Theorem show_stops_at_first_broken_link (w : World) (pre post : list elem)
    (bad : elem) :
  navLinks w = pre ++ bad :: post ->
  Forall (passable w) pre ->
  ~ compiles w bad ->
  fst (show w) = Throw SyntaxError /\
  forall link section,
    link ∈ pre -> isActive w link = true -> groupOf w link = Some section ->
    sectionExpanded section (after show w) /\
    hasClass (document (after show w)) section.1 "active" = true /\
    hasClass (document (after show w)) link "active" = true.
Proof.
  intros Hlinks Hpre Hbad.
  rewrite show_fst, show_after. unfold after at 1 2 3.
  rewrite !expandActiveLinks_run.
  pose proof (showPrefix_fixedPart w) as Hf.
  pose proof (showPrefix_sections w) as Hsec.
  rewrite (fixed_navLinks _ _ Hf), Hlinks.
  assert (Hin : forall link, link ∈ pre -> link ∈ navLinks (showPrefix w)).
  { intros link H. rewrite (fixed_navLinks _ _ Hf), Hlinks.
    apply elem_of_app. left. exact H. }
  assert (Hact : forall link, isActive (showPrefix w) link = isActive w link)
    by apply (fixed_isActive _ _ Hf).
  assert (Hgroup : forall link, groupOf (showPrefix w) link = groupOf w link)
    by (intros link; apply groupOf_same; assumption).
  assert (Hbad' : regExp (showPrefix w) (hrefOf (showPrefix w) bad) = None).
  { destruct (regExp (showPrefix w) (hrefOf (showPrefix w) bad)) eqn:H; [|reflexivity].
    contradiction Hbad. apply (fixed_compiles _ _ Hf). unfold compiles. rewrite H. eauto. }
  assert (Hpre' : Forall (passable (showPrefix w)) pre).
  { eapply Forall_impl; [exact Hpre|]. intros link. apply (passable_fixed _ _ _ Hf). }
  clear Hlinks Hpre Hbad Hf Hsec.
  generalize dependent (showPrefix w). intros wp Hin Hact Hgroup Hbad Hpre.
  set (yield := fun link (_ : unit) => activateLink link expand).
  assert (Hret : fst (scanLinks pre yield tt wp) = Normal tt).
  { apply (scanLinks_returns_iff yield expand wp (fun _ => True)); auto.
    intros l w' _. exact I. }
  pose proof (scanLinks_keeps_fixedPart pre expand wp) as Hf1. fold yield in Hf1.
  pose proof (fun link section Hl =>
                activateEach_settles yield expand wp pre (fun l a w' _ => eq_refl)
                  Hret link section Hl (Hin link Hl)) as Hsettled.
  unfold after in Hf1, Hsettled.
  rewrite scanLinks_app.
  destruct (scanLinks pre yield tt wp) as [[[]|e] w1]; [|discriminate Hret].
  cbn [snd] in Hf1, Hsettled.
  assert (Hbad1 : regExp w1 (hrefOf w1 bad) = None).
  { rewrite (fixed_hrefOf _ _ Hf1). unfold fixedPart in Hf1.
    replace (regExp w1) with (regExp wp) by congruence. exact Hbad. }
  rewrite scanLinks_cons, Hbad1. cbn [fst snd].
  split; [reflexivity|].
  intros link section Hl Ha Hg.
  apply (Hsettled link section Hl); [rewrite Hact; exact Ha | rewrite Hgroup; exact Hg].
Qed.

(** ** The mutations of [show()], in order *)

Lemma activateLink_trace link action w :
  trace (after (activateLink link action) w) =
    trace w ++ activationEffects w action link.
Proof.
  unfold activationEffects, groupOf, after.
  destruct (outermostNavItem (document w) link) as [n|e] eqn:Hn.
  - destruct (groupLinkOf (document w) n) as [g|] eqn:Hg.
    + destruct (mapGet g (sections w)) as [c|] eqn:Hc.
      * rewrite (activateLink_found w link action n g c Hn Hg Hc).
        apply activateGroup_trace.
      * rewrite (activateLink_noop w link action n Hn) by eauto.
        symmetry. apply app_nil_r.
    + rewrite (activateLink_noop w link action n Hn) by auto.
      symmetry. apply app_nil_r.
  - rewrite (activateLink_throws w link action e Hn). symmetry. apply app_nil_r.
Qed.

Lemma activationEffects_same w w' action link :
  fixedPart w' = fixedPart w -> sections w' = sections w ->
  activationEffects w' action link = activationEffects w action link.
Proof.
  intros Hf Hs. unfold activationEffects. rewrite (groupOf_same w w' link Hf Hs).
  reflexivity.
Qed.

Lemma scanLinks_trace action links w0 w :
  fixedPart w = fixedPart w0 -> sections w = sections w0 ->
  fst (scanLinks links (fun link (_ : unit) => activateLink link action) tt w)
    = Normal tt ->
  trace (after (scanLinks links (fun link (_ : unit) => activateLink link action) tt) w)
    = trace w ++ flat_map (activationEffects w0 action)
                          (List.filter (isActive w0) links).
Proof.
  revert w. induction links as [|l links IH]; intros w Hf Hs.
  { intros _. symmetry. apply app_nil_r. }
  pose proof (fixed_isActive _ _ Hf l) as Hact. unfold isActive in Hact at 1.
  unfold after. rewrite scanLinks_cons. cbn [List.filter].
  destruct (regExp w (hrefOf w l)) as [re|]; [|discriminate].
  rewrite <- Hact. destruct (re (location_href w)).
  - pose proof (activateLink_trace l action w) as Ht.
    pose proof (activateLink_keeps_fixedPart l action w) as Hf1.
    pose proof (activateLink_keeps_sections l action w) as Hs1.
    unfold after in Ht, Hf1, Hs1.
    destruct (activateLink l action w) as [[[]|e] w1]; [|discriminate].
    cbn [snd] in Ht, Hf1, Hs1. intros Hret.
    fold (after (scanLinks links (fun link (_ : unit) => activateLink link action) tt) w1).
    rewrite IH; [|congruence|congruence|exact Hret].
    rewrite Ht, (activationEffects_same w0 w action l Hf Hs).
    cbn [flat_map]. rewrite <- app_assoc. reflexivity.
  - intros Hret.
    fold (after (scanLinks links (fun link (_ : unit) => activateLink link action) tt) w).
    apply IH; assumption.
Qed.

(** X22.  The mutations of [show()], in the order it performs them, when
    it returns: it sets the flag [show] and clears [hidden] and [hide];
    then, for each navigation link that matches the location, in document
    order, and whose group link has a registered section, it adds the
    class [active] to the group link, sets its [aria-expanded] to ["true"],
    shows the panel, adds [active] to the link and removes [collapsed] from
    the group link.  It performs no other mutation. *)
Theorem show_mutations_in_order (w : World) :
  fst (show w) = Normal tt ->
  trace (after show w) =
    trace w
    ++ [SetAttribute (body w) "data-sidenav-show" "";
        RemoveAttribute (body w) "data-sidenav-hidden";
        RemoveAttribute (body w) "data-sidenav-hide"]
    ++ flat_map (activationEffects w expand)
                (List.filter (isActive w) (navLinks w)).
Proof.
  intros Hret. rewrite show_fst, expandActiveLinks_run in Hret.
  rewrite show_after. unfold after at 1. rewrite expandActiveLinks_run.
  pose proof (showPrefix_fixedPart w) as Hf.
  pose proof (showPrefix_sections w) as Hs.
  assert (Ht : trace (showPrefix w) =
               trace w ++ [SetAttribute (body w) "data-sidenav-show" "";
                           RemoveAttribute (body w) "data-sidenav-hidden";
                           RemoveAttribute (body w) "data-sidenav-hide"]).
  { unfold showPrefix. rewrite trace_bodyRemove, trace_bodyAdd.
    rewrite (bodyAdd_keeps_body _ _). simpl. rewrite <- app_assoc. reflexivity. }
  rewrite (fixed_navLinks _ _ Hf) in *.
  fold (after (scanLinks (navLinks w)
                 (fun link (_ : unit) => activateLink link expand) tt) (showPrefix w)).
  rewrite (scanLinks_trace expand (navLinks w) w (showPrefix w) Hf Hs Hret).
  rewrite Ht, <- app_assoc. reflexivity.
Qed.

(* ===================================================================== *)
(** * The further properties at work on the concrete pages *)
(* ===================================================================== *)

Lemma fresh_body mobile pinned_ :
  body (Demo.fresh mobile pinned_) < length (document (Demo.fresh mobile pinned_)).
Proof. destruct mobile; vm_compute; lia. Defined.

Lemma loaded_body mobile pinned_ :
  body (Demo.loaded mobile pinned_) < length (document (Demo.loaded mobile pinned_)).
Proof. destruct mobile, pinned_; vm_compute; lia. Defined.

(** Adding and removing [show] on the page before construction. *)
Lemma body_flags_follow_add_and_remove_witness :
  body (Demo.fresh false true) < length (document (Demo.fresh false true)) /\
  flag BodyAttr.show (after (bodyAdd [BodyAttr.show]) (Demo.fresh false true)) = true /\
  flag BodyAttr.show (after (bodyRemove [BodyAttr.show]) (Demo.fresh false true)) = false.
Proof.
  split; [apply fresh_body|].
  destruct (body_flags_follow_add_and_remove (Demo.fresh false true) [BodyAttr.show]
              BodyAttr.show (fresh_body false true)) as (Ha & Hr & _).
  split; [rewrite Ha | rewrite Hr]; vm_compute; reflexivity.
Defined.

(** [show()] on the page with a broken URL, where it throws. *)
Lemma show_sets_show_only_witness :
  body Demo.broken < length (document Demo.broken) /\
  fst (show Demo.broken) = Throw SyntaxError /\
  flag BodyAttr.show (after show Demo.broken) = true /\
  flag BodyAttr.hidden (after show Demo.broken) = false.
Proof.
  assert (Hb : body Demo.broken < length (document Demo.broken)) by (vm_compute; lia).
  split; [exact Hb|]. split; [vm_compute; reflexivity|].
  destruct (show_sets_show_only Demo.broken Hb) as (Hs & _ & Hh).
  split; [exact Hs | exact Hh].
Defined.

(** [pin()] and [unpin()] on the loaded mobile page. *)
Lemma pin_and_unpin_flags_witness :
  body (Demo.loaded true true) < length (document (Demo.loaded true true)) /\
  flag BodyAttr.pinned (after pin (Demo.loaded true true)) = true /\
  flag BodyAttr.hidden (after unpin (Demo.loaded true true)) = true.
Proof.
  split; [apply loaded_body|].
  destruct (pin_and_unpin_flags (Demo.loaded true true) (loaded_body true true))
    as ((Hp & _) & (_ & _ & _ & Hh & _)).
  split; [exact Hp | exact Hh].
Defined.

(** A click on the pin toggler of the loaded desktop page, which is
    pinned. *)
Lemma onToggle_flips_preference_witness :
  body (Demo.loaded false true) < length (document (Demo.loaded false true)) /\
  pinned (state (after onToggle (Demo.loaded false true))) = false /\
  flag BodyAttr.hidden (after onToggle (Demo.loaded false true)) = true.
Proof.
  split; [apply loaded_body|].
  destruct (onToggle_flips_preference (Demo.loaded false true) (loaded_body false true))
    as (Hp & _ & _ & _ & Hh & _).
  split; [exact Hp | exact Hh].
Defined.

(** A click on the mobile toggler of the loaded mobile page, which is
    hidden. *)
Lemma onMobileToggle_flips_show_witness :
  body (Demo.loaded true true) < length (document (Demo.loaded true true)) /\
  flag BodyAttr.show (after onMobileToggle (Demo.loaded true true)) = true /\
  flag BodyAttr.hidden (after onMobileToggle (Demo.loaded true true)) = false.
Proof.
  split; [apply loaded_body|].
  destruct (onMobileToggle_flips_show (Demo.loaded true true) (loaded_body true true))
    as (Hs & Hh & _).
  split; [rewrite Hs | rewrite Hh]; vm_compute; reflexivity.
Defined.

(** Hovering over the loaded mobile page. *)
Lemma hover_suppressed_witness :
  currentMobileState (Demo.loaded true true) = Some true /\
  onEnter (Demo.loaded true true) = (Normal tt, Demo.loaded true true).
Proof.
  assert (Hc : currentMobileState (Demo.loaded true true) = Some true)
    by (vm_compute; reflexivity).
  split; [exact Hc|].
  destruct (hover_suppressed (Demo.loaded true true) (or_introl Hc)) as [He _].
  exact He.
Defined.

(** Hovering over the loaded desktop page when it is not pinned. *)
Lemma hover_previews_witness :
  wellFormed (Demo.loaded false false) /\
  currentMobileState (Demo.loaded false false) <> Some true /\
  flag BodyAttr.pinned (Demo.loaded false false) = false /\
  flag BodyAttr.show (after onEnter (Demo.loaded false false)) = true /\
  flag BodyAttr.hidden
    (after onLeave (after onEnter (Demo.loaded false false))) = true.
Proof.
  assert (Hwf : wellFormed (Demo.loaded false false)).
  { split; [vm_compute; lia|]. vm_compute. repeat (constructor; [lia|]). constructor. }
  assert (Hc : currentMobileState (Demo.loaded false false) <> Some true)
    by (vm_compute; discriminate).
  assert (Hp : flag BodyAttr.pinned (Demo.loaded false false) = false)
    by (vm_compute; reflexivity).
  split; [exact Hwf|]. split; [exact Hc|]. split; [exact Hp|].
  destruct (hover_previews (Demo.loaded false false) Hwf Hc Hp)
    as (_ & Hs & _ & _ & Hh & _).
  split; [exact Hs | exact Hh].
Defined.

(** The registry of the page: the link 5 with the panel 6, the link 11
    with the panel 12. *)
Lemma initSectionLinks_registers_witness :
  sections (Demo.fresh false true) = [] /\
  exists secs,
    initSectionLinks (Demo.fresh false true)
      = (Normal tt, setSections secs (Demo.fresh false true)) /\
    mapGet 5 secs = Some 6 /\ mapGet 11 secs = Some 12 /\ mapGet 9 secs = None.
Proof.
  split; [reflexivity|].
  destruct (initSectionLinks_registers (Demo.fresh false true) eq_refl)
    as (secs & Hrun & _ & Hget).
  exists secs. split; [exact Hrun|].
  split; [|split].
  - apply Hget. split; [apply (bool_decide_unpack _); vm_compute; exact I|].
    exists 4. split; vm_compute; reflexivity.
  - apply Hget. split; [apply (bool_decide_unpack _); vm_compute; exact I|].
    exists 10. split; vm_compute; reflexivity.
  - destruct (mapGet 9 secs) as [panel|] eqn:H; [|reflexivity].
    apply Hget in H as [Hin _]. vm_compute in Hin.
    apply elem_of_cons in Hin as [Hin|Hin]; [discriminate Hin|].
    apply elem_of_cons in Hin as [Hin|Hin]; [discriminate Hin | inversion Hin].
Defined.

(** Expanding the active link of the loaded mobile page. *)
Lemma activateLink_effect_witness :
  9 < length (document (Demo.loaded true true)) /\
  outermostNavItem (document (Demo.loaded true true)) 9 = Normal 4 /\
  groupLinkOf (document (Demo.loaded true true)) 4 = Some 5 /\
  mapGet 5 (sections (Demo.loaded true true)) = Some 6 /\
  getAttribute (document (after (activateLink 9 expand) (Demo.loaded true true)))
               5 "aria-expanded" = Some "true" /\
  6 ∈ shown (after (activateLink 9 expand) (Demo.loaded true true)).
Proof.
  assert (Hl : 9 < length (document (Demo.loaded true true))) by (vm_compute; lia).
  assert (Hn : outermostNavItem (document (Demo.loaded true true)) 9 = Normal 4)
    by (vm_compute; reflexivity).
  assert (Hg : groupLinkOf (document (Demo.loaded true true)) 4 = Some 5)
    by (vm_compute; reflexivity).
  assert (Hc : mapGet 5 (sections (Demo.loaded true true)) = Some 6)
    by (vm_compute; reflexivity).
  split; [exact Hl|]. split; [exact Hn|]. split; [exact Hg|]. split; [exact Hc|].
  destruct (activateLink_effect (Demo.loaded true true) 9 expand 4 5 6 Hl Hn Hg Hc)
    as ((Ha & _ & _ & _ & Hs) & _).
  split; [exact Ha | exact Hs].
Defined.

(** [show()] on the loaded desktop page when it is not pinned: the "sites"
    section of the active link 9 is expanded. *)
Lemma show_expands_active_sections_witness :
  fst (show (Demo.loaded false false)) = Normal tt /\
  9 ∈ navLinks (Demo.loaded false false) /\
  isActive (Demo.loaded false false) 9 = true /\
  groupOf (Demo.loaded false false) 9 = Some (5, 6) /\
  sectionExpanded (5, 6) (after show (Demo.loaded false false)).
Proof.
  assert (Hr : fst (show (Demo.loaded false false)) = Normal tt)
    by (vm_compute; reflexivity).
  assert (Hin : 9 ∈ navLinks (Demo.loaded false false))
    by (apply (bool_decide_unpack _); vm_compute; exact I).
  assert (Ha : isActive (Demo.loaded false false) 9 = true) by (vm_compute; reflexivity).
  assert (Hg : groupOf (Demo.loaded false false) 9 = Some (5, 6))
    by (vm_compute; reflexivity).
  split; [exact Hr|]. split; [exact Hin|]. split; [exact Ha|]. split; [exact Hg|].
  destruct (show_expands_active_sections (Demo.loaded false false) 9 (5, 6)
              Hr Hin Ha Hg) as [He _].
  exact He.
Defined.

(** [initActiveLinks()] on the nested page, which is hidden: the section of
    the active links is collapsed. *)
Lemma initActiveLinks_settles_witness :
  fst (initActiveLinks Demo.nested) = Normal tt /\
  10 ∈ navLinks Demo.nested /\
  isActive Demo.nested 10 = false /\
  6 ∈ navLinks Demo.nested /\
  isActive Demo.nested 6 = true /\
  groupOf Demo.nested 6 = Some (6, 7) /\
  sectionCollapsed (6, 7) (after initActiveLinks Demo.nested).
Proof.
  assert (Hr : fst (initActiveLinks Demo.nested) = Normal tt) by (vm_compute; reflexivity).
  assert (Hin : 6 ∈ navLinks Demo.nested)
    by (apply (bool_decide_unpack _); vm_compute; exact I).
  assert (Ha : isActive Demo.nested 6 = true) by (vm_compute; reflexivity).
  assert (Hg : groupOf Demo.nested 6 = Some (6, 7)) by (vm_compute; reflexivity).
  split; [exact Hr|].
  split; [apply (bool_decide_unpack _); vm_compute; exact I|].
  split; [vm_compute; reflexivity|].
  split; [exact Hin|]. split; [exact Ha|]. split; [exact Hg|].
  pose proof (initActiveLinks_settles Demo.nested 6 (6, 7) Hr Hin Ha Hg) as H.
  assert (Hf : flag BodyAttr.show Demo.nested = false) by (vm_compute; reflexivity).
  rewrite Hf in H. exact H.
Defined.

(** The constructor on the desktop page with the preference set. *)
Lemma constructor_establishes_witness :
  body (Demo.fresh false true) < length (document (Demo.fresh false true)) /\
  fst (constructor (Demo.fresh false true)) = Normal tt /\
  currentMobileState (after constructor (Demo.fresh false true)) = Some false /\
  flag BodyAttr.pinned (after constructor (Demo.fresh false true)) = true.
Proof.
  assert (Hr : fst (constructor (Demo.fresh false true)) = Normal tt)
    by (vm_compute; reflexivity).
  split; [apply fresh_body|]. split; [exact Hr|].
  destruct (constructor_establishes (Demo.fresh false true) (fresh_body false true) Hr)
    as (_ & Hc & _ & _ & _ & Hp & _).
  split; [rewrite Hc | rewrite Hp]; vm_compute; reflexivity.
Defined.

(** The flags after the mouse has entered the loaded page, the pin toggler
    has been clicked, and the window has been resized. *)
Lemma flags_settled_between_events_witness :
  body (Demo.fresh false false) < length (document (Demo.fresh false false)) /\
  flag BodyAttr.hide
    (dispatch [MouseEnter; ToggleClick; Resize; SectionClick 5]
              (after constructor (Demo.fresh false false))) = false.
Proof.
  split; [apply fresh_body|].
  destruct (flags_settled_between_events (Demo.fresh false false)
              [MouseEnter; ToggleClick; Resize; SectionClick 5] (fresh_body false false))
    as (H & _).
  exact H.
Defined.

Lemma fresh_scannable : scannable (Demo.fresh false true).
Proof.
  unfold scannable.
  assert (Hl : navLinks (Demo.fresh false true) = [9; 15]) by (vm_compute; reflexivity).
  rewrite Hl. unfold passable. repeat constructor.
  - unfold compiles. vm_compute. eexists. reflexivity.
  - intros _. exists 4. vm_compute. reflexivity.
  - unfold compiles. vm_compute. eexists. reflexivity.
  - intros H. vm_compute in H. discriminate H.
Defined.

(** A click on the pin toggler and the mouse entering, on the page of the
    examples. *)
Lemma scannable_page_never_throws_witness :
  scannable (Demo.fresh false true) /\
  fst (listener MouseEnter
         (dispatch [ToggleClick] (after constructor (Demo.fresh false true))))
    = Normal tt.
Proof.
  split; [exact fresh_scannable|].
  destruct (scannable_page_never_throws (Demo.fresh false true) [ToggleClick] MouseEnter
              fresh_scannable) as [_ H].
  exact H.
Defined.

(** [show()] where the URL of the second link is not a regular
    expression: it throws at the second link, after it has expanded the
    section of the first. *)
Lemma show_stops_at_first_broken_link_witness :
  navLinks brokenSecond = [9] ++ 15 :: [] /\
  Forall (passable brokenSecond) [9] /\
  ~ compiles brokenSecond 15 /\
  fst (show brokenSecond) = Throw SyntaxError /\
  6 ∈ shown (after show brokenSecond).
Proof.
  assert (Hlinks : navLinks brokenSecond = [9] ++ 15 :: []) by (vm_compute; reflexivity).
  assert (Hpre : Forall (passable brokenSecond) [9]).
  { repeat constructor.
    - unfold compiles. vm_compute. eexists. reflexivity.
    - intros _. exists 4. vm_compute. reflexivity. }
  assert (Hbad : ~ compiles brokenSecond 15).
  { unfold compiles. intros [re H]. vm_compute in H. discriminate H. }
  destruct (show_stops_at_first_broken_link brokenSecond [9] [] 15 Hlinks Hpre Hbad)
    as [Hthrow Hx].
  split; [exact Hlinks|]. split; [exact Hpre|]. split; [exact Hbad|].
  split; [exact Hthrow|].
  assert (Hin : 9 ∈ [9]) by apply list_elem_of_here.
  assert (Ha : isActive brokenSecond 9 = true) by (vm_compute; reflexivity).
  assert (Hg : groupOf brokenSecond 9 = Some (5, 6)) by (vm_compute; reflexivity).
  destruct (Hx 9 (5, 6) Hin Ha Hg) as ((_ & _ & Hs) & _). exact Hs.
Defined.

(** On the page with a broken URL [show()] throws: the page is not
    scannable. *)
Example broken_not_scannable :
  ~ scannable Demo.broken /\ fst (show Demo.broken) = Throw SyntaxError.
Proof.
  split; [|vm_compute; reflexivity].
  intros H. apply show_returns_iff in H. vm_compute in H. discriminate H.
Qed.

(** A click on a link that is not a registered section link collapses
    both sections of the loaded page; a click on the link 5 leaves its
    panel shown. *)
Example clicks_on_the_loaded_page :
  shown (Demo.loaded false true) = {[6]} /\
  shown (after (handleSectionClick 9) (Demo.loaded false true)) = ∅ /\
  shown (after (handleSectionClick 5) (Demo.loaded false true)) = {[6]} /\
  activeLink (after (handleSectionClick 5) (Demo.loaded false true)) = Some 5.
Proof. repeat split; vm_compute; reflexivity. Qed.

(** A click whose target is the navigation link 9, which is not a
    registered section link, on the loaded desktop page. *)
Lemma handleSectionClick_spares_target_witness :
  wellFormed (Demo.loaded false true) /\
  (forall panel, (9, panel) ∉ sections (Demo.loaded false true)) /\
  sectionCollapsed (5, 6) (after (handleSectionClick 9) (Demo.loaded false true)).
Proof.
  assert (Hsec : sections (Demo.loaded false true) = [(5, 6); (11, 12)])
    by (vm_compute; reflexivity).
  assert (Hnone : forall panel, (9, panel) ∉ sections (Demo.loaded false true)).
  { intros panel. rewrite Hsec. intros H.
    apply elem_of_cons in H as [H|H]; [discriminate H|].
    apply elem_of_cons in H as [H|H]; [discriminate H | inversion H]. }
  split; [apply loaded_wellFormed|]. split; [exact Hnone|].
  destruct (handleSectionClick_spares_target (Demo.loaded false true) 9) as (_ & _ & H).
  apply (H (loaded_wellFormed false true) Hnone).
  rewrite Hsec. apply list_elem_of_here.
Defined.

(** The walk from the link 9 of the page ends at the nav item 4, whose
    group link is the link 5. *)
Lemma walk_ends_at_outermost_nav_item_witness :
  outermostNavItem (Demo.page false) 9 = Normal 4 /\
  groupLinkOf (Demo.page false) 4 = Some 5 /\
  Forall (fun a => hasClass (Demo.page false) a "nav-item" = false)
         (ancestors (Demo.page false) 4) /\
  parentOf (Demo.page false) 5 = Some 4.
Proof.
  assert (Hn : outermostNavItem (Demo.page false) 9 = Normal 4) by (vm_compute; reflexivity).
  assert (Hg : groupLinkOf (Demo.page false) 4 = Some 5) by (vm_compute; reflexivity).
  split; [exact Hn|]. split; [exact Hg|].
  destruct (walk_ends_at_outermost_nav_item (Demo.page false) 9) as (H & _).
  destruct (H 4 Hn) as (_ & Hnone & _ & Hgroup).
  split; [exact Hnone|].
  destruct (Hgroup 5 Hg) as (_ & Hp & _). exact Hp.
Defined.

(** What is written on the page of the examples by the constructor, a
    click on the pin toggler and a click on a section link. *)
Example writes_on_the_loaded_page :
  drop (length (trace (Demo.fresh false false)))
       (trace (dispatch [ToggleClick; SectionClick 5]
                        (after constructor (Demo.fresh false false)))) =
    [StateSet false;
     SetAttribute 1 "data-sidenav-hide" "";
     RemoveAttribute 1 "data-sidenav-pinned";
     RemoveAttribute 1 "data-sidenav-show";
     RemoveAttribute 1 "data-sidenav-hide";
     SetAttribute 1 "data-sidenav-hidden" "";
     ClassAdd 5 "active";
     SetAttribute 5 "aria-expanded" "false";
     CollapseHide 6;
     ClassRemove 9 "active";
     ClassAdd 5 "collapsed";
     PreventDefault;
     StateSet true;
     SetAttribute 1 "data-sidenav-pinned" "";
     SetAttribute 1 "data-sidenav-show" "";
     RemoveAttribute 1 "data-sidenav-hidden";
     RemoveAttribute 1 "data-sidenav-hide";
     ClassAdd 5 "active";
     SetAttribute 5 "aria-expanded" "true";
     CollapseShow 6;
     ClassAdd 9 "active";
     ClassRemove 5 "collapsed";
     PreventDefault;
     ClassAdd 11 "collapsed";
     SetAttribute 11 "aria-expanded" "false";
     CollapseHide 12].
Proof. vm_compute. reflexivity. Qed.

(** The first call of the resize handler on the mobile page. *)
Lemma onResize_settles_witness :
  fst (onResize (Demo.fresh true true)) = Normal tt /\
  currentMobileState (after onResize (Demo.fresh true true)) = Some true /\
  onResize (after onResize (Demo.fresh true true))
    = (Normal tt, after onResize (Demo.fresh true true)).
Proof.
  assert (Hr : fst (onResize (Demo.fresh true true)) = Normal tt)
    by (vm_compute; reflexivity).
  split; [exact Hr|].
  destruct (onResize_settles (Demo.fresh true true)) as (_ & _ & H).
  destruct (H Hr) as (Hc & _ & Hagain).
  split; [rewrite Hc; vm_compute; reflexivity | exact Hagain].
Defined.

(** Two clicks on the pin toggler around a click on a section link, on
    the loaded desktop page. *)
Lemma fields_over_events_witness :
  (Resize ∉ [ToggleClick; SectionClick 11; ToggleClick]) /\
  currentMobileState
    (dispatch [ToggleClick; SectionClick 11; ToggleClick] (Demo.loaded false true))
    = currentMobileState (Demo.loaded false true) /\
  activeLink
    (dispatch [ToggleClick; SectionClick 11; ToggleClick] (Demo.loaded false true))
    = Some 11 /\
  pinned (state (dispatch [ToggleClick; SectionClick 11; ToggleClick]
                          (Demo.loaded false true)))
    = pinned (state (Demo.loaded false true)).
Proof.
  assert (Hno : Resize ∉ [ToggleClick; SectionClick 11; ToggleClick]).
  { intros H. apply elem_of_cons in H as [H|H]; [discriminate H|].
    apply elem_of_cons in H as [H|H]; [discriminate H|].
    apply elem_of_cons in H as [H|H]; [discriminate H | inversion H]. }
  destruct (fields_over_events (Demo.loaded false true)
              [ToggleClick; SectionClick 11; ToggleClick]) as (_ & Ha & Hp & Hc).
  split; [exact Hno|]. split; [exact (Hc Hno)|].
  split; [rewrite Ha; reflexivity|].
  rewrite Hp. apply xorb_false_r.
Defined.

(** [show()] returns on the page of the examples. *)
Lemma show_returns_exactly_when_scannable_witness :
  scannable (Demo.fresh false true) /\
  fst (show (Demo.fresh false true)) = Normal tt.
Proof.
  split; [exact fresh_scannable|].
  destruct (show_returns_exactly_when_scannable (Demo.fresh false true)) as (H & _).
  apply H. exact fresh_scannable.
Defined.

(** The mutations of [show()] on the loaded desktop page when it is not
    pinned. *)
Lemma show_mutations_in_order_witness :
  fst (show (Demo.loaded false false)) = Normal tt /\
  trace (after show (Demo.loaded false false)) =
    trace (Demo.loaded false false)
    ++ [SetAttribute 1 "data-sidenav-show" "";
        RemoveAttribute 1 "data-sidenav-hidden";
        RemoveAttribute 1 "data-sidenav-hide";
        ClassAdd 5 "active";
        SetAttribute 5 "aria-expanded" "true";
        CollapseShow 6;
        ClassAdd 9 "active";
        ClassRemove 5 "collapsed"].
Proof.
  assert (Hr : fst (show (Demo.loaded false false)) = Normal tt)
    by (vm_compute; reflexivity).
  split; [exact Hr|].
  rewrite (show_mutations_in_order (Demo.loaded false false) Hr).
  f_equal.
Defined.
